(** * CandaceCalc: calculation engine, session state machine and undo/redo
      history, embedded in Rocq.

    The TypeScript sources embedded here are
    - [utils/calculator.ts]            (class [CalculatorEngine]),
    - [hooks/calculator/useCalculator] (the exported session hook),
    - [hooks/calculator/useUndoRedo]   (the undo/redo history manager),
    - the main [CalculatorScreen]      (inlined session handlers and the
                                        effect that feeds the history),
    - [constants/calculator.ts] and [types/calculator.ts].

    A TypeScript [number] is an IEEE-754 binary64 value.  It is modelled by
    [spec_float] with precision 53 and maximal exponent 1024, and every
    arithmetic operator is the correctly rounded operation of the standard
    library's executable specification of IEEE arithmetic. *)

From Stdlib Require Import ZArith List String Ascii Bool Lia.
From Stdlib Require Import SpecFloat DecimalString.
Import ListNotations.

Local Open Scope Z_scope.

(* ================================================================== *)
(** * Completion records: a computation either returns or throws *)
(* ================================================================== *)

Inductive completion (A : Type) : Type :=
| normal (a : A)
| throw.
Arguments normal {A} a.
Arguments throw {A}.

(* ================================================================== *)
(** * JavaScript numbers *)
(* ================================================================== *)

Module Num.

Definition prec : Z := 53.
Definition emax : Z := 1024.

Definition number : Type := spec_float.

Definition NaN : number := S754_nan.
Definition zero : number := S754_zero false.
Definition Infinity (s : bool) : number := S754_infinity s.

(** [a + b], [a - b], [a * b], [a / b], unary minus. *)
Definition add : number -> number -> number := SFadd prec emax.
Definition sub : number -> number -> number := SFsub prec emax.
Definition mul : number -> number -> number := SFmul prec emax.
Definition div : number -> number -> number := SFdiv prec emax.
Definition neg : number -> number := SFopp.

(** [a === b] and [a > b] on numbers. *)
Definition strict_eq : number -> number -> bool := SFeqb.
Definition gt (a b : number) : bool := SFltb b a.

Definition isNaN (x : number) : bool :=
  match x with S754_nan => true | _ => false end.

Definition is_finite (x : number) : bool :=
  match x with S754_zero _ | S754_finite _ _ _ => true | _ => false end.

(** The binary64 value of an integer, rounded to nearest even. *)
Definition of_Z (z : Z) : number := binary_normalize prec emax z 0 false.

(** The binary64 value nearest to the rational [p / q] (ties to even),
    with sign [s]: this is the value a decimal literal denotes. *)
Definition of_ratio (s : bool) (p q : positive) : number :=
  let '(m, e, l) := SFdiv_core_binary prec emax (Zpos p) 0 (Zpos q) 0 in
  binary_round_aux prec emax s m e l.

(** The decimal literal [s * 10 ^ k], with [s >= 0]. *)
Definition of_decimal (neg : bool) (s k : Z) : number :=
  match s with
  | Zpos p =>
      if 0 <=? k then of_ratio neg (p * Z.to_pos (10 ^ k)) 1
      else of_ratio neg p (Z.to_pos (10 ^ (- k)))
  | _ => S754_zero neg
  end.

(** [Math.abs]. *)
Definition Math_abs : number -> number := SFabs.

(** [Math.round]: the integral number closest to [x], a tie going to the
    integer closer to +Infinity; NaN, the infinities, the zeros and the
    integral values are returned as they are, and a value in [-0.5, 0)
    gives [-0].  A finite value [(-1)^s * m * 2^e] with [e < 0] gives
    [floor (x + 1/2)], computed exactly. *)
Definition Math_round (x : number) : number :=
  match x with
  | S754_finite s m e =>
      if 0 <=? e then x
      else
        binary_normalize prec emax
          ((2 * cond_Zopp s (Zpos m) + 2 ^ (- e)) / 2 ^ (1 - e)) 0 s
  | _ => x
  end.

(** [Math.pow(10, d)] for the small non-negative integers [d] the engine
    uses: the power is an integer below 2^53 and therefore exact. *)
Definition Math_pow10 (d : Z) : number := of_Z (10 ^ d).

End Num.

Import Num.

(* ================================================================== *)
(** * JavaScript strings and the conversions between strings and numbers *)
(* ================================================================== *)

(** A string is the UTF-8 encoding of the text; every character the
    calculator writes into a display is ASCII except the ellipsis that
    [formatForDisplay] appends and the operator glyphs of an expression. *)

Module Str.

Local Open Scope string_scope.
Local Open Scope Z_scope.

Definition code (c : ascii) : Z := Z.of_N (N_of_ascii c).

Definition is_digit (c : ascii) : bool :=
  (48 <=? code c) && (code c <=? 57).

(** [s.includes(sub)]. *)
Definition includes (s sub : string) : bool :=
  match index 0 sub s with Some _ => true | None => false end.

(** [s.length] when [s] is ASCII. *)
Definition len (s : string) : Z := Z.of_nat (String.length s).

(** A byte [10xxxxxx] continues a UTF-8 sequence. *)
Definition is_continuation (c : ascii) : bool :=
  (128 <=? code c) && (code c <? 192).

(** On the bytes of a string in reverse order: drops the last character,
    that is its continuation bytes and then its leading byte.  A character
    outside the Basic Multilingual Plane (four bytes) is two UTF-16 code
    units, of which [slice(0, -1)] drops the second only and leaves a lone
    surrogate, which UTF-8 does not encode: on a text that ends in such a
    character the whole character is dropped here. *)
Fixpoint drop_first_char (r : list ascii) : list ascii :=
  match r with
  | [] => []
  | c :: r' => if is_continuation c then drop_first_char r' else r'
  end.

(** [s.slice(0, -1)]: the string without its last character. *)
Definition slice_0_m1 (s : string) : string :=
  string_of_list_ascii
    (rev (drop_first_char (rev (list_ascii_of_string s)))).

(** [s.substring(0, n)] on an ASCII string. *)
Definition substring_0 (n : nat) (s : string) : string := substring 0 n s.

(** A run of [n] zeros. *)
Fixpoint zeros (n : nat) : string :=
  match n with O => "" | S n' => "0" ++ zeros n' end.

(** Decimal digits of a non-negative integer, ["0"] for zero. *)
Definition of_Z (z : Z) : string :=
  DecimalString.NilZero.string_of_uint (N.to_uint (Z.to_N z)).

(** White space and line terminators skipped by [parseFloat]
    (TAB, LF, VT, FF, CR, SP, and the UTF-8 sequences of U+00A0, U+1680,
    U+2000..U+200A, U+2028, U+2029, U+202F, U+205F, U+3000, U+FEFF). *)
Fixpoint skip_ws (s : string) : string :=
  match s with
  | EmptyString => s
  | String c r =>
      let k := code c in
      if ((9 <=? k) && (k <=? 13)) || (k =? 32) then skip_ws r
      else
        match r with
        | String c1 r1 =>
            let k1 := code c1 in
            if (k =? 194) && (k1 =? 160) then skip_ws r1
            else
              match r1 with
              | String c2 r2 =>
                  let k2 := code c2 in
                  if ((k =? 225) && (k1 =? 154) && (k2 =? 128))
                     || ((k =? 226) && (k1 =? 128)
                         && (((128 <=? k2) && (k2 <=? 138))
                             || (k2 =? 168) || (k2 =? 169) || (k2 =? 175)))
                     || ((k =? 226) && (k1 =? 129) && (k2 =? 159))
                     || ((k =? 227) && (k1 =? 128) && (k2 =? 128))
                     || ((k =? 239) && (k1 =? 187) && (k2 =? 191))
                  then skip_ws r2
                  else s
              | EmptyString => s
              end
        | EmptyString => s
        end
  end.

(** Reads a run of decimal digits: the value accumulated onto [acc], the
    number of digits read, and the rest of the string. *)
Fixpoint read_digits (s : string) (acc cnt : Z) : Z * Z * string :=
  match s with
  | String c r =>
      if is_digit c then read_digits r (10 * acc + (code c - 48)) (cnt + 1)
      else (acc, cnt, s)
  | EmptyString => (acc, cnt, s)
  end.

(** The value of an optional [ExponentPart] at the head of [s]. *)
Definition read_exponent (s : string) : Z :=
  match s with
  | String c r =>
      if (code c =? 101) || (code c =? 69) then
        let '(sg, r') :=
          match r with
          | String "+" r1 => (false, r1)
          | String "-" r1 => (true, r1)
          | _ => (false, r)
          end in
        let '(v, n, _) := read_digits r' 0 0 in
        if n =? 0 then 0 else if sg then - v else v
      else 0
  | EmptyString => 0
  end.

(** [parseFloat(input)]: leading white space is skipped, the longest
    prefix that is a [StrDecimalLiteral] is converted (exactly rounded),
    and NaN is returned when there is no such prefix. *)
Definition parseFloat (input : string) : number :=
  let s0 := skip_ws input in
  let '(sg, s1) :=
    match s0 with
    | String "+" r => (false, r)
    | String "-" r => (true, r)
    | _ => (false, s0)
    end in
  if prefix "Infinity" s1 then Infinity sg
  else
    let '(ip, ni, s2) := read_digits s1 0 0 in
    let '(fp, nf, s3) :=
      match s2 with
      | String "." r => read_digits r ip 0
      | _ => (ip, 0, s2)
      end in
    if ni + nf =? 0 then NaN
    else of_decimal sg fp (read_exponent s3 - nf).

(** ** [Number.prototype.toFixed] *)

(** [floor (m * 2^e * 10^f + 1/2)]: the integer [n] for which
    [n / 10^f - x] is closest to zero, the larger one on a tie. *)
Definition scaled_round (m : positive) (e f : Z) : Z :=
  if 0 <=? e then Zpos m * 2 ^ e * 10 ^ f
  else (2 * Zpos m * 10 ^ f + 2 ^ (- e)) / 2 ^ (1 - e).

(** The digits of [n] with a decimal point before the last [f] ones. *)
Definition fixed_digits (n : Z) (f : nat) : string :=
  let m := of_Z n in
  match f with
  | O => m
  | _ =>
      let k := String.length m in
      let m' := if (k <=? f)%nat then zeros (f + 1 - k) ++ m else m in
      let k' := String.length m' in
      substring 0 (k' - f) m' ++ "." ++ substring (k' - f) f m'
  end.

(** [m * 2^e >= 10^21]. *)
Definition ge_1e21 (m : positive) (e : Z) : bool :=
  if 0 <=? e then 10 ^ 21 <=? Zpos m * 2 ^ e
  else 10 ^ 21 * 2 ^ (- e) <=? Zpos m.

(** ** [Number.prototype.toString] (radix 10) *)

(** The number [n] of a positive rational [num / den]:
    [10^(n-1) <= num / den < 10^n]. *)
Definition decimal_exponent (num den : Z) : Z :=
  if den <=? num then len (of_Z (num / den))
  else
    let d := len (of_Z (den / num)) in
    if den <=? num * 10 ^ (d - 1) then 2 - d else 1 - d.

Definition same_finite (m : positive) (e : Z) (r : number) : bool :=
  match r with
  | S754_finite false m' e' => Pos.eqb m m' && Z.eqb e e'
  | _ => false
  end.

(** Searches the least number [k] of digits for which some [k]-digit
    integer [s] has [s * 10^(n-k)] round to [m * 2^e]; among two such
    integers the one closest to the value wins, the even one on a tie.
    Returns [(s, n)]. *)
Fixpoint shortest_from (fuel : nat) (k : Z) (m : positive) (e n0 : Z)
  : Z * Z :=
  let num := Zpos m * 2 ^ Z.max e 0 in
  let den := 2 ^ Z.max (- e) 0 in
  let t := n0 - k in
  let a := num * 10 ^ Z.max (- t) 0 in
  let b := den * 10 ^ Z.max t 0 in
  let lo := a / b in
  let hi := lo + 1 in
  let ok_lo := same_finite m e (of_decimal false lo t) in
  let ok_hi := same_finite m e (of_decimal false hi t) in
  let pick :=
    if ok_lo && ok_hi then
      match 2 * (a mod b) ?= b with
      | Lt => Some lo
      | Gt => Some hi
      | Eq => Some (if Z.even lo then lo else hi)
      end
    else if ok_lo then Some lo
    else if ok_hi then Some hi
    else None in
  match pick with
  | Some s => if s =? 10 ^ k then (1, n0 + 1) else (s, n0)
  | None =>
      match fuel with
      | O => (lo, n0)
      | S fuel' => shortest_from fuel' (k + 1) m e n0
      end
  end.

Definition shortest (m : positive) (e : Z) : Z * Z :=
  let num := Zpos m * 2 ^ Z.max e 0 in
  let den := 2 ^ Z.max (- e) 0 in
  shortest_from 17 1 m e (decimal_exponent num den).

Definition toString_positive (m : positive) (e : Z) : string :=
  let '(s, n) := shortest m e in
  let ds := of_Z s in
  let k := len ds in
  if (-5 <=? n) && (n <=? 21) then
    if k <=? n then ds ++ zeros (Z.to_nat (n - k))
    else if 0 <? n then
      substring 0 (Z.to_nat n) ds ++ "."
      ++ substring (Z.to_nat n) (Z.to_nat (k - n)) ds
    else "0." ++ zeros (Z.to_nat (- n)) ++ ds
  else
    let ex := n - 1 in
    let c := if 0 <=? ex then "+" else "-" in
    if k =? 1 then ds ++ "e" ++ c ++ of_Z (Z.abs ex)
    else
      substring 0 1 ds ++ "." ++ substring 1 (Z.to_nat (k - 1)) ds
      ++ "e" ++ c ++ of_Z (Z.abs ex).

(** [x.toString()]. *)
Definition toString (x : number) : string :=
  match x with
  | S754_nan => "NaN"
  | S754_zero _ => "0"
  | S754_infinity s => if s then "-Infinity" else "Infinity"
  | S754_finite s m e =>
      (if s then "-" else "") ++ toString_positive m e
  end.

(** [x.toFixed(f)] for [0 <= f <= 100]. *)
Definition toFixed (x : number) (f : nat) : string :=
  match x with
  | S754_zero _ => fixed_digits 0 f
  | S754_finite s m e =>
      if ge_1e21 m e then toString x
      else
        (if s then "-" else "")
        ++ fixed_digits (scaled_round m e (Z.of_nat f)) f
  | _ => toString x
  end.

End Str.

(* ================================================================== *)
(** * [types/calculator.ts] and [constants/calculator.ts] *)
(* ================================================================== *)

Inductive CalculatorMode : Type := checkbook | scientific.

(** The operator glyphs; [Operation] adds [null]. *)
Inductive Operator : Type := Plus | Minus | Times | Divide.

Definition Operation : Type := option Operator.

Definition Operator_eqb (a b : Operator) : bool :=
  match a, b with
  | Plus, Plus | Minus, Minus | Times, Times | Divide, Divide => true
  | _, _ => false
  end.

Definition glyph (op : Operator) : string :=
  match op with
  | Plus => "+"
  | Minus => "-"
  | Times => "×"
  | Divide => "÷"
  end.

Record CalculatorState : Type := {
  display : string;
  expression : string;
  previousValue : option number;
  operation : Operation;
  waitingForOperand : bool;
  error : bool;
  errorMessage : string
}.

Definition MAX_DISPLAY_LENGTH : nat := 15.
Definition DECIMAL_PLACES_CHECKBOOK : nat := 2.
Definition DECIMAL_PLACES_SCIENTIFIC : nat := 8.
Definition UNDO_REDO_STACK_SIZE : Z := 20.

(** The literal [999999999.99]. *)
Definition MAX_VALUE : number := of_decimal false 99999999999 (-2).

(* ================================================================== *)
(** * [utils/calculator.ts]: class [CalculatorEngine] *)
(* ================================================================== *)

Module CalculatorEngine.

Local Open Scope string_scope.
Local Open Scope Z_scope.

Record Outcome : Type := {
  result : number;
  error : bool;
  errorMessage : string
}.

Definition decimalPlaces (mode : CalculatorMode) : nat :=
  match mode with
  | checkbook => DECIMAL_PLACES_CHECKBOOK
  | scientific => DECIMAL_PLACES_SCIENTIFIC
  end.

Definition roundToMode (value : number) (mode : CalculatorMode) : number :=
  let factor := Math_pow10 (Z.of_nat (decimalPlaces mode)) in
  div (Math_round (mul value factor)) factor.

Definition divideByZero : Outcome :=
  {| result := zero;
     error := true;
     errorMessage :=
       "Cannot divide by zero. This would create an infinite number. Press C to start fresh or ↶ to undo." |}.

Definition tooLarge : Outcome :=
  {| result := zero;
     error := true;
     errorMessage :=
       "This number is too large to display. The maximum is 999,999,999.99. Press C to start over." |}.

Definition computationFailed : Outcome :=
  {| result := zero;
     error := true;
     errorMessage := "An error occurred. Press C to start over." |}.

Definition noOperation : Outcome :=
  {| result := zero; error := false; errorMessage := "" |}.

(** The [switch] of [calculate]: either the raw result of the operator
    or the early [return] of the divide-by-zero case. *)
Definition dispatch (firstValue : number) (op : Operator)
    (secondValue : number) : Outcome + number :=
  match op with
  | Plus => inr (add firstValue secondValue)
  | Minus => inr (sub firstValue secondValue)
  | Times => inr (mul firstValue secondValue)
  | Divide =>
      if strict_eq secondValue zero then inl divideByZero
      else inr (div firstValue secondValue)
  end.

(** The body of the [try] block.  The arithmetic operators, [Math.round],
    [Math.pow] and [Math.abs] never throw on numbers, so the completion is
    always [normal]. *)
Definition try_body (firstValue : number) (op : Operator)
    (secondValue : number) (mode : CalculatorMode) : completion Outcome :=
  match dispatch firstValue op secondValue with
  | inl early => normal early
  | inr raw =>
      let rounded := roundToMode raw mode in
      if gt (Math_abs rounded) MAX_VALUE then normal tooLarge
      else normal {| result := rounded; error := false; errorMessage := "" |}
  end.

Definition calculate (firstValue : number) (operation : Operation)
    (secondValue : number) (mode : CalculatorMode) : Outcome :=
  match operation with
  | None => noOperation
  | Some op =>
      match try_body firstValue op secondValue mode with
      | normal r => r
      | throw => computationFailed
      end
  end.

(** [formatForDisplay] applied to a number. *)
Definition formatForDisplay (value : number) (mode : CalculatorMode)
    (currencySymbol : string) : string :=
  let fixed := Str.toFixed value (decimalPlaces mode) in
  let shown :=
    if (MAX_DISPLAY_LENGTH <? String.length fixed)%nat
    then Str.substring_0 MAX_DISPLAY_LENGTH fixed ++ "…"
    else fixed in
  match currencySymbol, mode with
  | String _ _, checkbook => currencySymbol ++ shown
  | _, _ => shown
  end.

Definition formatExpression (firstValue : number) (operation : Operation)
    (secondValue : option number) (currencySymbol : string) : string :=
  let formatNumber := fun n => currencySymbol ++ Str.toFixed n 2 in
  match operation, secondValue with
  | Some op, Some second =>
      formatNumber firstValue ++ " " ++ glyph op ++ " " ++ formatNumber second
  | _, _ => formatNumber firstValue
  end.

Definition isValidNumber (str : string) : bool :=
  negb (isNaN (Str.parseFloat str)) && is_finite (Str.parseFloat str).

Definition getDisplayValue (displayStr : string) : number :=
  if String.eqb displayStr "" || String.eqb displayStr "-" then zero
  else
    let num := Str.parseFloat displayStr in
    if isNaN num then zero else num.

End CalculatorEngine.

(* ================================================================== *)
(** * The session handlers *)
(* ================================================================== *)

Definition INITIAL_STATE : CalculatorState :=
  {| display := "0";
     expression := "";
     previousValue := None;
     operation := None;
     waitingForOperand := false;
     error := false;
     errorMessage := "" |}.

(** The handlers that [useCalculator] and [CalculatorScreen] write in the
    same way, each the function passed to the state setter. *)
Module Session.

Local Open Scope string_scope.

Definition set_display (d : string) (prev : CalculatorState)
  : CalculatorState :=
  {| display := d;
     expression := prev.(expression);
     previousValue := prev.(previousValue);
     operation := prev.(operation);
     waitingForOperand := prev.(waitingForOperand);
     error := prev.(error);
     errorMessage := prev.(errorMessage) |}.

Definition handleDecimal (prev : CalculatorState) : CalculatorState :=
  if prev.(error) then set_display "0." INITIAL_STATE
  else if prev.(waitingForOperand) then
    {| display := "0.";
       expression := prev.(expression);
       previousValue := prev.(previousValue);
       operation := prev.(operation);
       waitingForOperand := false;
       error := prev.(error);
       errorMessage := prev.(errorMessage) |}
  else if Str.includes prev.(display) "." then prev
  else set_display (prev.(display) ++ ".") prev.

Definition handleNegative (prev : CalculatorState) : CalculatorState :=
  if prev.(error) then prev
  else
    let value := CalculatorEngine.getDisplayValue prev.(display) in
    let toggled := neg value in
    let display := if strict_eq toggled zero then "0"
                   else Str.toString toggled in
    set_display display prev.

Definition operatorSymbol (newOperation : Operation) : string :=
  match newOperation with Some op => glyph op | None => "" end.

Definition handleOperatorPress (mode : CalculatorMode)
    (newOperation : Operation) (prev : CalculatorState) : CalculatorState :=
  if prev.(error) then prev
  else
    let currentValue := CalculatorEngine.getDisplayValue prev.(display) in
    match prev.(previousValue), prev.(operation),
          prev.(waitingForOperand) with
    | Some previous, Some op, false =>
        let r := CalculatorEngine.calculate previous (Some op) currentValue mode in
        if r.(CalculatorEngine.error) then
          {| display := "0";
             expression := "";
             previousValue := prev.(previousValue);
             operation := prev.(operation);
             waitingForOperand := prev.(waitingForOperand);
             error := true;
             errorMessage := r.(CalculatorEngine.errorMessage) |}
        else
          let displayResult := CalculatorEngine.formatForDisplay r.(CalculatorEngine.result) mode "" in
          {| display := displayResult;
             expression :=
               displayResult ++ " " ++ operatorSymbol newOperation;
             previousValue := Some r.(CalculatorEngine.result);
             operation := newOperation;
             waitingForOperand := true;
             error := false;
             errorMessage := "" |}
    | _, _, _ =>
        {| display := prev.(display);
           expression :=
             prev.(display) ++ " " ++ operatorSymbol newOperation;
           previousValue := Some currentValue;
           operation := newOperation;
           waitingForOperand := true;
           error := false;
           errorMessage := "" |}
    end.

(** The state transition of [handleEquals]; the screen also records the
    calculation in the persisted history, which is not session state. *)
Definition handleEquals (mode : CalculatorMode) (prev : CalculatorState)
  : CalculatorState :=
  if prev.(error) then prev
  else
    match prev.(operation), prev.(previousValue) with
    | Some op, Some previous =>
        let currentValue := CalculatorEngine.getDisplayValue prev.(display) in
        let r := CalculatorEngine.calculate previous (Some op) currentValue mode in
        if r.(CalculatorEngine.error) then
          {| display := "0";
             expression := "";
             previousValue := prev.(previousValue);
             operation := prev.(operation);
             waitingForOperand := true;
             error := true;
             errorMessage := r.(CalculatorEngine.errorMessage) |}
        else
          let displayResult := CalculatorEngine.formatForDisplay r.(CalculatorEngine.result) mode "" in
          {| display := displayResult;
             expression :=
               prev.(expression) ++ " " ++ prev.(display) ++ " = "
               ++ displayResult;
             previousValue := Some r.(CalculatorEngine.result);
             operation := None;
             waitingForOperand := true;
             error := false;
             errorMessage := "" |}
    | _, _ => prev
    end.

Definition handleBackspace (prev : CalculatorState) : CalculatorState :=
  if prev.(error) || prev.(waitingForOperand) then prev
  else
    let sliced := Str.slice_0_m1 prev.(display) in
    let newDisplay := if String.eqb sliced "" then "0" else sliced in
    set_display newDisplay prev.

Definition handleClear (prev : CalculatorState) : CalculatorState :=
  {| display := "0";
     expression := prev.(expression);
     previousValue := prev.(previousValue);
     operation := prev.(operation);
     waitingForOperand := true;
     error := false;
     errorMessage := "" |}.

Definition handleAllClear (prev : CalculatorState) : CalculatorState :=
  INITIAL_STATE.

End Session.

(** ** [hooks/calculator/useCalculator] *)
Module useCalculator.

Local Open Scope string_scope.

Definition handleNumberPress (digit : string) (prev : CalculatorState)
  : CalculatorState :=
  if prev.(error) then
    {| display := digit;
       expression := INITIAL_STATE.(expression);
       previousValue := INITIAL_STATE.(previousValue);
       operation := INITIAL_STATE.(operation);
       waitingForOperand := false;
       error := INITIAL_STATE.(error);
       errorMessage := INITIAL_STATE.(errorMessage) |}
  else if prev.(waitingForOperand) then
    {| display := digit;
       expression := prev.(expression);
       previousValue := prev.(previousValue);
       operation := prev.(operation);
       waitingForOperand := false;
       error := prev.(error);
       errorMessage := prev.(errorMessage) |}
  else if String.eqb prev.(display) "0" && negb (String.eqb digit ".") then
    Session.set_display digit prev
  else
    Session.set_display (prev.(display) ++ digit) prev.

Definition handleDecimal := Session.handleDecimal.
Definition handleNegative := Session.handleNegative.
Definition handleOperatorPress := Session.handleOperatorPress.
Definition handleEquals := Session.handleEquals.
Definition handleBackspace := Session.handleBackspace.
Definition handleClear := Session.handleClear.
Definition handleAllClear := Session.handleAllClear.

End useCalculator.

(* ================================================================== *)
(** * [hooks/calculator/useUndoRedo] *)
(* ================================================================== *)

Module useUndoRedo.

Local Open Scope string_scope.
Local Open Scope Z_scope.

Record UndoRedoState : Type := {
  stack : list CalculatorState;
  currentIndex : Z
}.

Record Feedback : Type := {
  message : string;
  isUndo : bool
}.

(** The two pieces of state the hook holds. *)
Record Manager : Type := {
  undoRedo : UndoRedoState;
  feedback : option Feedback
}.

Definition init (initialState : CalculatorState) : Manager :=
  {| undoRedo := {| stack := [initialState]; currentIndex := 0 |};
     feedback := None |}.

(** [l.slice(0, e)]: a negative [e] counts from the end of the array. *)
Definition slice_0 {A : Type} (l : list A) (e : Z) : list A :=
  let len := Z.of_nat (List.length l) in
  let final := if e <? 0 then Z.max (len + e) 0 else Z.min e len in
  firstn (Z.to_nat final) l.

(** [l[i]], [None] standing for [undefined]. *)
Definition at_index {A : Type} (l : list A) (i : Z) : option A :=
  if i <? 0 then None else nth_error l (Z.to_nat i).

(** The updater of [pushState]. *)
Definition push (newState : CalculatorState) (prev : UndoRedoState)
  : UndoRedoState :=
  let newStack :=
    (slice_0 prev.(stack) (prev.(currentIndex) + 1) ++ [newState])%list in
  if UNDO_REDO_STACK_SIZE <? Z.of_nat (List.length newStack) then
    {| stack := tl newStack;
       currentIndex := UNDO_REDO_STACK_SIZE - 1 |}
  else
    {| stack := newStack;
       currentIndex := Z.of_nat (List.length newStack) - 1 |}.

Definition pushState (newState : CalculatorState) (m : Manager) : Manager :=
  {| undoRedo := push newState m.(undoRedo); feedback := m.(feedback) |}.

Definition operationText (op : Operation) : string :=
  match op with
  | Some Plus => "added"
  | Some Minus => "subtracted"
  | Some Times => "multiplied by"
  | Some Divide => "divided by"
  | None => "changed to"
  end.

Definition undoMessage (previousState : CalculatorState) : string :=
  "⟲ Undid last operation"
  ++ match previousState.(operation) with
     | Some _ => ": " ++ operationText previousState.(operation)
     | None => ""
     end.

(** [undo(onStateChange)]: the new manager and the state handed to the
    callback, if it was called.  Reading [previousState.operation] of an
    [undefined] entry throws. *)
Definition undo (m : Manager)
  : completion (Manager * option CalculatorState) :=
  let prev := m.(undoRedo) in
  if prev.(currentIndex) <=? 0 then normal (m, None)
  else
    let newIndex := prev.(currentIndex) - 1 in
    match at_index prev.(stack) newIndex with
    | None => throw
    | Some previousState =>
        normal
          ({| undoRedo := {| stack := prev.(stack);
                             currentIndex := newIndex |};
              feedback := Some {| message := undoMessage previousState;
                                  isUndo := true |} |},
           Some previousState)
    end.

(** [redo(onStateChange)].  An [undefined] entry would be handed to the
    callback in place of a state: this is a fault of the caller's
    contract and is modelled as one. *)
Definition redo (m : Manager)
  : completion (Manager * option CalculatorState) :=
  let prev := m.(undoRedo) in
  if Z.of_nat (List.length prev.(stack)) - 1 <=? prev.(currentIndex)
  then normal (m, None)
  else
    let newIndex := prev.(currentIndex) + 1 in
    match at_index prev.(stack) newIndex with
    | None => throw
    | Some nextState =>
        normal
          ({| undoRedo := {| stack := prev.(stack);
                             currentIndex := newIndex |};
              feedback := Some {| message := "⟳ Redid operation";
                                  isUndo := false |} |},
           Some nextState)
    end.

Definition canUndo (m : Manager) : bool :=
  0 <? m.(undoRedo).(currentIndex).

Definition canRedo (m : Manager) : bool :=
  m.(undoRedo).(currentIndex)
  <? Z.of_nat (List.length m.(undoRedo).(stack)) - 1.

Definition clear (initialState : CalculatorState) (m : Manager) : Manager :=
  init initialState.

Definition clearFeedback (m : Manager) : Manager :=
  {| undoRedo := m.(undoRedo); feedback := None |}.

(** The calls a client can make, and a run of them; a run stops at the
    first fault. *)
Inductive Call : Type :=
| CallPush (s : CalculatorState)
| CallUndo
| CallRedo
| CallClear (s : CalculatorState)
| CallClearFeedback.

Definition call (c : Call) (m : Manager) : completion Manager :=
  match c with
  | CallPush s => normal (pushState s m)
  | CallUndo =>
      match undo m with normal (m', _) => normal m' | throw => throw end
  | CallRedo =>
      match redo m with normal (m', _) => normal m' | throw => throw end
  | CallClear s => normal (clear s m)
  | CallClearFeedback => normal (clearFeedback m)
  end.

Fixpoint run (cs : list Call) (m : Manager) : completion Manager :=
  match cs with
  | [] => normal m
  | c :: cs' =>
      match call c m with
      | normal m' => run cs' m'
      | throw => throw
      end
  end.

(** [while (canUndo()) { undo(() => {}); undoCount++ }], at most [fuel]
    turns: the count and whether the loop had ended. *)
Fixpoint undoLoop (fuel : nat) (m : Manager) (undoCount : nat)
  : completion (nat * bool) :=
  if canUndo m then
    match fuel with
    | O => normal (undoCount, false)
    | S fuel' =>
        match undo m with
        | normal (m', _) => undoLoop fuel' m' (S undoCount)
        | throw => throw
        end
    end
  else normal (undoCount, true).

End useUndoRedo.

(* ================================================================== *)
(** * The main [CalculatorScreen] *)
(* ================================================================== *)

Module CalculatorScreen.

Local Open Scope string_scope.

Definition INITIAL_CALCULATOR_STATE : CalculatorState := INITIAL_STATE.

Definition handleNumberPress (digit : string) (prev : CalculatorState)
  : CalculatorState :=
  if prev.(error) then
    {| display := digit;
       expression := INITIAL_CALCULATOR_STATE.(expression);
       previousValue := INITIAL_CALCULATOR_STATE.(previousValue);
       operation := INITIAL_CALCULATOR_STATE.(operation);
       waitingForOperand := false;
       error := INITIAL_CALCULATOR_STATE.(error);
       errorMessage := INITIAL_CALCULATOR_STATE.(errorMessage) |}
  else if prev.(waitingForOperand) then
    {| display := digit;
       expression := prev.(expression);
       previousValue := prev.(previousValue);
       operation := prev.(operation);
       waitingForOperand := false;
       error := prev.(error);
       errorMessage := prev.(errorMessage) |}
  else
    let potentialDisplay :=
      if String.eqb prev.(display) "0" && negb (String.eqb digit ".")
      then digit
      else prev.(display) ++ digit in
    let potentialValue :=
      CalculatorEngine.getDisplayValue potentialDisplay in
    if gt (Math_abs potentialValue) MAX_VALUE then prev
    else Session.set_display potentialDisplay prev.

Definition handleDecimal := Session.handleDecimal.
Definition handleOperatorPress := Session.handleOperatorPress.
Definition handleEquals := Session.handleEquals.
Definition handleBackspace := Session.handleBackspace.
Definition handleClear := Session.handleClear.
Definition handleAllClear := Session.handleAllClear.
Definition handleNegative := Session.handleNegative.

(** [handleHistoryItemSelect], from the two fields of the item it reads. *)
Definition handleHistoryItemSelect (displayResult itemExpression : string)
  : CalculatorState :=
  {| display := displayResult;
     expression := itemExpression;
     previousValue := None;
     operation := None;
     waitingForOperand := true;
     error := false;
     errorMessage := "" |}.

(** The input events of the session state machine. *)
Inductive Input : Type :=
| Digit (d : string)
| Decimal
| Negative
| Op (op : Operator)
| Equals
| Backspace
| Clear
| AllClear.

Definition handle (mode : CalculatorMode) (i : Input)
    (prev : CalculatorState) : CalculatorState :=
  match i with
  | Digit d => handleNumberPress d prev
  | Decimal => handleDecimal prev
  | Negative => handleNegative prev
  | Op op => handleOperatorPress mode (Some op) prev
  | Equals => handleEquals mode prev
  | Backspace => handleBackspace prev
  | Clear => handleClear prev
  | AllClear => handleAllClear prev
  end.

(** Session states reachable from the initial one; the mode may be
    switched between any two inputs. *)
Inductive reachable : CalculatorState -> Prop :=
| reachable_initial : reachable INITIAL_CALCULATOR_STATE
| reachable_handle mode i s :
    reachable s -> reachable (handle mode i s).

(** ** The screen: session state, undo/redo manager, and the reference
    that remembers the last state given to the manager *)

Record Screen : Type := {
  calculatorState : CalculatorState;
  undoRedo : useUndoRedo.Manager;
  prevStateRef : option CalculatorState
}.

(** [a !== b] on [number | null]. *)
Definition value_neq (a b : option number) : bool :=
  match a, b with
  | None, None => false
  | Some x, Some y => negb (strict_eq x y)
  | _, _ => true
  end.

(** [a !== b] on [Operation]. *)
Definition operation_neq (a b : Operation) : bool :=
  match a, b with
  | None, None => false
  | Some x, Some y => negb (Operator_eqb x y)
  | _, _ => true
  end.

Definition stateChanged (before now : CalculatorState) : bool :=
  negb (String.eqb before.(display) now.(display))
  || operation_neq before.(operation) now.(operation)
  || value_neq before.(previousValue) now.(previousValue).

(** The effect that tracks [calculatorState] for undo/redo. *)
Definition trackEffect (s : Screen) : Screen :=
  match s.(prevStateRef) with
  | None =>
      {| calculatorState := s.(calculatorState);
         undoRedo := s.(undoRedo);
         prevStateRef := Some s.(calculatorState) |}
  | Some before =>
      if stateChanged before s.(calculatorState)
         && negb s.(calculatorState).(error)
      then
        {| calculatorState := s.(calculatorState);
           undoRedo := useUndoRedo.pushState s.(calculatorState) s.(undoRedo);
           prevStateRef := Some s.(calculatorState) |}
      else s
  end.

(** The screen after its first render and effect. *)
Definition mounted : Screen :=
  trackEffect
    {| calculatorState := INITIAL_CALCULATOR_STATE;
       undoRedo := useUndoRedo.init INITIAL_CALCULATOR_STATE;
       prevStateRef := None |}.

Definition setCalculatorState (c : CalculatorState) (s : Screen) : Screen :=
  {| calculatorState := c;
     undoRedo := s.(undoRedo);
     prevStateRef := s.(prevStateRef) |}.

(** [handleUndo] and [handleRedo]: the manager steps and [restoreState]
    replaces the session state. *)
Definition stepHistory
    (r : completion (useUndoRedo.Manager * option CalculatorState))
    (s : Screen) : completion Screen :=
  match r with
  | throw => throw
  | normal (m, restored) =>
      normal
        {| calculatorState :=
             match restored with
             | Some c => c
             | None => s.(calculatorState)
             end;
           undoRedo := m;
           prevStateRef := s.(prevStateRef) |}
  end.

Definition handleUndo (s : Screen) : completion Screen :=
  if useUndoRedo.canUndo s.(undoRedo)
  then stepHistory (useUndoRedo.undo s.(undoRedo)) s
  else normal s.

Definition handleRedo (s : Screen) : completion Screen :=
  if useUndoRedo.canRedo s.(undoRedo)
  then stepHistory (useUndoRedo.redo s.(undoRedo)) s
  else normal s.

(** Everything the user can do on the screen. *)
Inductive Event : Type :=
| Press (i : Input)
| Undo
| Redo
| SelectHistory (displayResult itemExpression : string).

(** One event: the handler runs, the screen renders again and the
    tracking effect runs.  The source runs the effect when
    [calculatorState] is a new object (its dependency list); here it runs
    after every event.  A state object that did not change has the fields
    the effect saw last, so this further run records nothing, except after
    the effect has pushed a state whose previous value is NaN, which
    [stateChanged] tells apart from itself: there this run pushes the state
    once more, where the source pushes nothing. *)
Definition dispatch (mode : CalculatorMode) (ev : Event) (s : Screen)
  : completion Screen :=
  let handled :=
    match ev with
    | Press i =>
        normal (setCalculatorState (handle mode i s.(calculatorState)) s)
    | Undo => handleUndo s
    | Redo => handleRedo s
    | SelectHistory d e =>
        normal (setCalculatorState (handleHistoryItemSelect d e) s)
    end in
  match handled with
  | normal s' => normal (trackEffect s')
  | throw => throw
  end.

Fixpoint play (mode : CalculatorMode) (evs : list Event) (s : Screen)
  : completion Screen :=
  match evs with
  | [] => normal s
  | ev :: evs' =>
      match dispatch mode ev s with
      | normal s' => play mode evs' s'
      | throw => throw
      end
  end.

Inductive reachableScreen : Screen -> Prop :=
| screen_mounted : reachableScreen mounted
| screen_dispatch mode ev s s' :
    reachableScreen s -> dispatch mode ev s = normal s' ->
    reachableScreen s'.

End CalculatorScreen.


(* ================================================================== *)
(** * [parseInt] and [components/calculator/ButtonGrid] *)
(* ================================================================== *)

Module ButtonGrid.

Local Open Scope string_scope.
Local Open Scope Z_scope.

(** The value of a character as a digit of radix [radix <= 16]. *)
Definition digit_value (radix : Z) (c : ascii) : option Z :=
  let k := Str.code c in
  let v :=
    if (48 <=? k) && (k <=? 57) then Some (k - 48)
    else if (97 <=? k) && (k <=? 102) then Some (k - 87)
    else if (65 <=? k) && (k <=? 70) then Some (k - 55)
    else None in
  match v with
  | Some d => if d <? radix then Some d else None
  | None => None
  end.

(** Reads a run of digits of radix [radix]: the value accumulated onto
    [acc] and the number of digits read. *)
Fixpoint read_radix (radix : Z) (s : string) (acc cnt : Z) : Z * Z :=
  match s with
  | String c r =>
      match digit_value radix c with
      | Some d => read_radix radix r (radix * acc + d) (cnt + 1)
      | None => (acc, cnt)
      end
  | EmptyString => (acc, cnt)
  end.

(** [parseInt(input)] with no radix argument: leading white space is
    skipped, a sign is read, a prefix [0x] or [0X] selects radix 16, and
    the longest run of digits is converted; NaN when that run is empty. *)
Definition parseInt (input : string) : number :=
  let s0 := Str.skip_ws input in
  let '(sg, s1) :=
    match s0 with
    | String "+" r => (false, r)
    | String "-" r => (true, r)
    | _ => (false, s0)
    end in
  let '(radix, s2) :=
    match s1 with
    | String "0" (String "x" r) => (16, r)
    | String "0" (String "X" r) => (16, r)
    | _ => (10, s1)
    end in
  let '(v, n) := read_radix radix s2 0 0 in
  if n =? 0 then NaN
  else binary_normalize prec emax (if sg then - v else v) 0 sg.

(** The properties of the grid: the callbacks act on the state [S] of the
    component that renders the grid and may fault; the three memory
    callbacks are optional. *)
Record Props (S : Type) : Type := {
  onNumberPress : string -> S -> completion S;
  onDecimalPress : S -> completion S;
  onOperatorPress : Operator -> S -> completion S;
  onEqualsPress : S -> completion S;
  onClear : S -> completion S;
  onAllClear : S -> completion S;
  onBackspace : S -> completion S;
  onUndo : S -> completion S;
  onRedo : S -> completion S;
  onMemoryAdd : option (S -> completion S);
  onMemorySubtract : option (S -> completion S);
  onMemoryRecall : option (S -> completion S);
  onNegativeToggle : S -> completion S;
  canUndo : bool;
  canRedo : bool
}.
Arguments onNumberPress {S} _.
Arguments onDecimalPress {S} _.
Arguments onOperatorPress {S} _.
Arguments onEqualsPress {S} _.
Arguments onClear {S} _.
Arguments onAllClear {S} _.
Arguments onBackspace {S} _.
Arguments onUndo {S} _.
Arguments onRedo {S} _.
Arguments onMemoryAdd {S} _.
Arguments onMemorySubtract {S} _.
Arguments onMemoryRecall {S} _.
Arguments onNegativeToggle {S} _.
Arguments canUndo {S} _.
Arguments canRedo {S} _.

(** [if (cb) cb()]. *)
Definition optionally {S : Type} (cb : option (S -> completion S)) (s : S)
  : completion S :=
  match cb with
  | Some f => f s
  | None => normal s
  end.

(** [handleButtonPress(label)]: a label that [parseInt] reads is handed to
    the number callback; the others go through the [switch], in which the
    operator callback receives the label, one of the four glyphs. *)
Definition handleButtonPress {S : Type} (p : Props S) (label : string)
    (s : S) : completion S :=
  let numValue := parseInt label in
  if negb (isNaN numValue) then onNumberPress p label s
  else if String.eqb label "." then onDecimalPress p s
  else if String.eqb label "+" then onOperatorPress p Plus s
  else if String.eqb label "-" then onOperatorPress p Minus s
  else if String.eqb label "×" then onOperatorPress p Times s
  else if String.eqb label "÷" then onOperatorPress p Divide s
  else if String.eqb label "=" then onEqualsPress p s
  else if String.eqb label "C" then onClear p s
  else if String.eqb label "AC" then onAllClear p s
  else if String.eqb label "←" then onBackspace p s
  else if String.eqb label "↶" then
    if canUndo p then onUndo p s else normal s
  else if String.eqb label "↷" then
    if canRedo p then onRedo p s else normal s
  else if String.eqb label "+/-" then onNegativeToggle p s
  else if String.eqb label "M+" then optionally (onMemoryAdd p) s
  else if String.eqb label "M-" then optionally (onMemorySubtract p) s
  else if String.eqb label "MR" then optionally (onMemoryRecall p) s
  else normal s.

End ButtonGrid.

(** ** The grid as the main screen renders it *)

Module ScreenButtons.

Import CalculatorScreen.

(** After a handler has run the screen renders again and the tracking
    effect runs, as in [dispatch]. *)
Definition rendered (r : completion Screen) : completion Screen :=
  match r with
  | normal s' => normal (trackEffect s')
  | throw => throw
  end.

(** A session handler as a callback on the screen. *)
Definition onSession (f : CalculatorState -> CalculatorState) (s : Screen)
  : completion Screen :=
  rendered (normal (setCalculatorState (f s.(calculatorState)) s)).

(** The properties [CalculatorScreen] passes to [ButtonGrid]; it passes no
    memory callback. *)
Definition props (mode : CalculatorMode) (s : Screen)
  : ButtonGrid.Props Screen :=
  {| ButtonGrid.onNumberPress := fun digit => onSession (handleNumberPress digit);
     ButtonGrid.onDecimalPress := onSession handleDecimal;
     ButtonGrid.onOperatorPress :=
       fun op => onSession (handleOperatorPress mode (Some op));
     ButtonGrid.onEqualsPress := onSession (handleEquals mode);
     ButtonGrid.onClear := onSession handleClear;
     ButtonGrid.onAllClear := onSession handleAllClear;
     ButtonGrid.onBackspace := onSession handleBackspace;
     ButtonGrid.onUndo := fun s => rendered (handleUndo s);
     ButtonGrid.onRedo := fun s => rendered (handleRedo s);
     ButtonGrid.onMemoryAdd := None;
     ButtonGrid.onMemorySubtract := None;
     ButtonGrid.onMemoryRecall := None;
     ButtonGrid.onNegativeToggle := onSession handleNegative;
     ButtonGrid.canUndo := useUndoRedo.canUndo s.(undoRedo);
     ButtonGrid.canRedo := useUndoRedo.canRedo s.(undoRedo) |}.

(** One press of the button [label]; a button for which the grid calls
    nothing leaves the screen as it is. *)
Definition press (mode : CalculatorMode) (label : string) (s : Screen)
  : completion Screen :=
  ButtonGrid.handleButtonPress (props mode s) label s.

(** A run of presses, each in the mode the settings hold at that time. *)
Fixpoint pressAll (presses : list (CalculatorMode * string)) (s : Screen)
  : completion Screen :=
  match presses with
  | [] => normal s
  | (mode, label) :: rest =>
      match press mode label s with
      | normal s' => pressAll rest s'
      | throw => throw
      end
  end.

End ScreenButtons.
(* ================================================================== *)
(** * Vocabulary of the statements *)
(* ================================================================== *)

(** The candidate display of a digit press: the digit replaces a lone
    ["0"], otherwise it is appended. *)
Definition candidateDisplay (digit : string) (prev : CalculatorState)
  : string :=
  if (String.eqb prev.(display) "0" && negb (String.eqb digit "."))%bool
  then digit
  else (prev.(display) ++ digit)%string.

(** The session after the nine digits of 999999999 have been typed. *)
Definition nine_nines : CalculatorState :=
  Session.set_display "999999999" INITIAL_STATE.

(** The session after 1, 0, ÷, 0, = in Checkbook mode. *)
Definition after_division_by_zero : CalculatorState :=
  fold_left (fun s i => CalculatorScreen.handle checkbook i s)
    [CalculatorScreen.Digit "1"; CalculatorScreen.Digit "0";
     CalculatorScreen.Op Divide; CalculatorScreen.Digit "0";
     CalculatorScreen.Equals]
    INITIAL_STATE.

(** An error state shows ["0"]. *)
Definition error_shows_zero (s : CalculatorState) : Prop :=
  s.(error) = true -> s.(display) = "0"%string.

(** The number of entries of the undo/redo stack. *)
Definition size (u : useUndoRedo.UndoRedoState) : Z :=
  Z.of_nat (List.length u.(useUndoRedo.stack)).

(** The current position is a position of the stack. *)
Definition in_bounds (u : useUndoRedo.UndoRedoState) : Prop :=
  0 <= u.(useUndoRedo.currentIndex) < size u.

Definition well_formed (u : useUndoRedo.UndoRedoState) : Prop :=
  in_bounds u /\ size u <= UNDO_REDO_STACK_SIZE.

(** What every [push] leaves behind, whatever it started from. *)
Definition capped (u : useUndoRedo.UndoRedoState) : Prop :=
  0 <= u.(useUndoRedo.currentIndex) <= UNDO_REDO_STACK_SIZE - 1
  /\ u.(useUndoRedo.currentIndex) < size u.

(** [pushState] for each state of a list, in order. *)
Definition pushAll (sts : list CalculatorState) (m : useUndoRedo.Manager)
  : useUndoRedo.Manager :=
  fold_left (fun m s => useUndoRedo.pushState s m) sts m.

(** No entry of the undo/redo stack is an error state. *)
Definition error_free (u : useUndoRedo.UndoRedoState) : Prop :=
  Forall (fun c => c.(error) = false) u.(useUndoRedo.stack).

(** What holds of the screen between any two events. *)
Definition screen_ok (s : CalculatorScreen.Screen) : Prop :=
  well_formed s.(CalculatorScreen.undoRedo).(useUndoRedo.undoRedo)
  /\ error_free s.(CalculatorScreen.undoRedo).(useUndoRedo.undoRedo).

(** The events 1, ÷, 0, = on the screen. *)
Definition division_by_zero_events : list CalculatorScreen.Event :=
  [CalculatorScreen.Press (CalculatorScreen.Digit "1");
   CalculatorScreen.Press (CalculatorScreen.Op Divide);
   CalculatorScreen.Press (CalculatorScreen.Digit "0");
   CalculatorScreen.Press CalculatorScreen.Equals].

(** The screen a run of events ends in, the mounted screen on a fault. *)
Definition screen_after (mode : CalculatorMode)
    (evs : list CalculatorScreen.Event) : CalculatorScreen.Screen :=
  match CalculatorScreen.play mode evs CalculatorScreen.mounted with
  | normal s => s
  | throw => CalculatorScreen.mounted
  end.

(** The screen showing the division-by-zero error. *)
Definition failed_screen : CalculatorScreen.Screen :=
  screen_after checkbook division_by_zero_events.

(** ** Rounding, as the specification words it *)

(** Rounding to the nearest integer with a tie going away from zero:
    [sign(x) * floor(|x| + 1/2)]. *)
Definition round_half_away_from_zero (x : number) : number :=
  match x with
  | S754_finite s m e =>
      if 0 <=? e then x
      else
        binary_normalize prec emax
          (cond_Zopp s ((2 * Zpos m + 2 ^ (- e)) / 2 ^ (1 - e))) 0 s
  | _ => x
  end.

(** [roundToMode] with that rounding in place of [Math.round]. *)
Definition roundToMode_half_away_from_zero (value : number)
    (mode : CalculatorMode) : number :=
  let factor :=
    Math_pow10 (Z.of_nat (CalculatorEngine.decimalPlaces mode)) in
  div (round_half_away_from_zero (mul value factor)) factor.

(** [r] is [v] rounded to the nearest integer, a tie going up (towards
    +Infinity): for a finite [v] with a fractional part, [r] is the integer
    [n] with [n - 1/2 <= v < n + 1/2], carrying the sign of [v] when it is
    zero. *)
Definition nearest_integer_ties_up (v r : number) : Prop :=
  match v with
  | S754_finite s m e =>
      if 0 <=? e then r = v
      else
        exists n : Z,
          (2 * n - 1) * 2 ^ (- e) <= 2 * cond_Zopp s (Zpos m)
          /\ 2 * cond_Zopp s (Zpos m) < (2 * n + 1) * 2 ^ (- e)
          /\ r = binary_normalize prec emax n 0 s
  | _ => r = v
  end.

(** [v] is negative and exactly half-way between two integers. *)
Definition negative_tie (v : number) : bool :=
  match v with
  | S754_finite true m e =>
      (e <? 0) && ((2 * Zpos m) mod 2 ^ (1 - e) =? 2 ^ (- e))
  | _ => false
  end.

(** ** Vocabulary of the rounding analysis *)

(** The record holds the quotient of [T] by [U], whether the remainder is
    at least half of [U], and whether it is neither zero nor the half. *)
Definition located (T U : Z) (mrs : shr_record) : Prop :=
  shr_m mrs = T / U
  /\ shr_r mrs = (U <=? 2 * (T mod U))
  /\ shr_s mrs = negb (T mod U =? 0) && negb (2 * (T mod U) =? U).

(** The canonical binary64 form of an integer [0 < N < 2^53]. *)
Definition canonical (s : bool) (N : Z) : number :=
  S754_finite s (Z.to_pos (N * 2 ^ (53 - Zdigits2 N))) (Zdigits2 N - 53).


(** ** Vocabulary of the further properties *)

(** The last [n] elements of a list, all of it when it is shorter. *)
Definition lastn {A : Type} (n : nat) (l : list A) : list A :=
  skipn (List.length l - n) l.

(** A manager with one entry [a] under the current entry [b]. *)
Definition two_entries (a b : CalculatorState) : useUndoRedo.Manager :=
  useUndoRedo.pushState b (useUndoRedo.init a).

(** What the fields of a session state tell about each other: a pending
    operator has its left operand, a state without an error carries no
    message, and an error state has an empty expression and one of the two
    messages of the engine. *)
Definition session_consistent (s : CalculatorState) : Prop :=
  (s.(operation) <> None -> s.(previousValue) <> None)
  /\ (s.(error) = false -> s.(errorMessage) = ""%string)
  /\ (s.(error) = true ->
      s.(expression) = ""%string
      /\ (s.(errorMessage)
          = CalculatorEngine.divideByZero.(CalculatorEngine.errorMessage)
          \/ s.(errorMessage)
             = CalculatorEngine.tooLarge.(CalculatorEngine.errorMessage))).

(** The session after 1, 2 and [+] in Checkbook mode. *)
Definition twelve_plus : CalculatorState :=
  fold_left (fun s i => CalculatorScreen.handle checkbook i s)
    [CalculatorScreen.Digit "1"; CalculatorScreen.Digit "2";
     CalculatorScreen.Op Plus]
    INITIAL_STATE.

(** The session after 1 and 2. *)
Definition twelve : CalculatorState :=
  Session.set_display "12" INITIAL_STATE.

(** The display of a session state holds some text. *)
Definition shows_text (c : CalculatorState) : Prop :=
  c.(display) <> ""%string.

(** The screen is sound, it shows some text, and so does every entry of
    its history. *)
Definition screen_shows (s : CalculatorScreen.Screen) : Prop :=
  screen_ok s
  /\ shows_text s.(CalculatorScreen.calculatorState)
  /\ Forall shows_text
       s.(CalculatorScreen.undoRedo).(useUndoRedo.undoRedo)
        .(useUndoRedo.stack).

(** The screen after the digit 5 has been typed. *)
Definition typed_five : CalculatorScreen.Screen :=
  screen_after checkbook
    [CalculatorScreen.Press (CalculatorScreen.Digit "5")].

(** ** Vocabulary of the display round trip *)

(** The number a text of decimal digits stands for, read on top of the
    value [acc] of the digits before it. *)
Fixpoint digits_value (acc : Z) (s : string) : Z :=
  match s with
  | EmptyString => acc
  | String c r => digits_value (10 * acc + (Str.code c - 48)) r
  end.

(** Every character of the text is a decimal digit. *)
Fixpoint all_digits (s : string) : bool :=
  match s with
  | EmptyString => true
  | String c r => (Str.is_digit c && all_digits r)%bool
  end.

(** The text does not start with a decimal digit. *)
Definition no_digit_ahead (s : string) : Prop :=
  match s with
  | EmptyString => True
  | String c _ => Str.is_digit c = false
  end.

(** The session after 1, 2, [+] and 5 in Checkbook mode. *)
Definition twelve_plus_five : CalculatorState :=
  fold_left (fun s i => CalculatorScreen.handle checkbook i s)
    [CalculatorScreen.Digit "1"; CalculatorScreen.Digit "2";
     CalculatorScreen.Op Plus; CalculatorScreen.Digit "5"]
    INITIAL_STATE.

(** ** The state machine of the hook *)

(** One input handled by [useCalculator]: its own [handleNumberPress] and
    the handlers it shares with the screen. *)
Definition hook_handle (mode : CalculatorMode) (i : CalculatorScreen.Input)
    (prev : CalculatorState) : CalculatorState :=
  match i with
  | CalculatorScreen.Digit d => useCalculator.handleNumberPress d prev
  | CalculatorScreen.Decimal => useCalculator.handleDecimal prev
  | CalculatorScreen.Negative => useCalculator.handleNegative prev
  | CalculatorScreen.Op op =>
      useCalculator.handleOperatorPress mode (Some op) prev
  | CalculatorScreen.Equals => useCalculator.handleEquals mode prev
  | CalculatorScreen.Backspace => useCalculator.handleBackspace prev
  | CalculatorScreen.Clear => useCalculator.handleClear prev
  | CalculatorScreen.AllClear => useCalculator.handleAllClear prev
  end.

(** The state of the hook after a run of inputs, each in the mode the
    hook was given at that time. *)
Definition hook_run (presses : list (CalculatorMode * CalculatorScreen.Input))
    (s : CalculatorState) : CalculatorState :=
  fold_left (fun s p => hook_handle (fst p) (snd p) s) presses s.

(** The text does not start with the [e] or [E] of an exponent. *)
Definition no_exponent_ahead (s : string) : Prop :=
  match s with
  | EmptyString => True
  | String c _ => ((Str.code c =? 101) || (Str.code c =? 69))%bool = false
  end.

(** A decimal text: an optional minus sign, digits, a point, digits. *)
Definition decimal_text (negative : bool) (whole fraction : string)
  : string :=
  ((if negative then "-" else "") ++ whole ++ "." ++ fraction)%string.

(** ** What the tracking effect tells apart *)

(** Two previous values the tracking effect takes for the same: both
    absent, or the same number, or numbers equal under [===]. *)
Definition same_value (a b : option number) : Prop :=
  match a, b with
  | None, None => True
  | Some x, Some y => x = y \/ Num.strict_eq x y = true
  | _, _ => False
  end.

(** Two session states with the same display, the same operation and the
    same previous value: the three fields the tracking effect compares. *)
Definition same_tracked (a b : CalculatorState) : Prop :=
  a.(display) = b.(display)
  /\ a.(operation) = b.(operation)
  /\ same_value a.(previousValue) b.(previousValue).

(** The current entry of the history agrees, on the tracked fields, with
    the state the effect recorded last, and that one with the session
    state unless the session shows an error. *)
Definition history_tracks (s : CalculatorScreen.Screen) : Prop :=
  exists recorded current,
    s.(CalculatorScreen.prevStateRef) = Some recorded
    /\ useUndoRedo.at_index
         s.(CalculatorScreen.undoRedo).(useUndoRedo.undoRedo)
          .(useUndoRedo.stack)
         s.(CalculatorScreen.undoRedo).(useUndoRedo.undoRedo)
          .(useUndoRedo.currentIndex)
       = Some current
    /\ same_tracked current recorded
    /\ (s.(CalculatorScreen.calculatorState).(error) = false ->
        same_tracked recorded s.(CalculatorScreen.calculatorState)).
(* ================================================================== *)
(** * The calculation engine: errors and range check *)
(* ================================================================== *)

Section EngineFacts.

Import CalculatorEngine.
Local Open Scope string_scope.

Lemma divideByZero_not_too_large :
  Str.includes divideByZero.(errorMessage) "too large" = false.
Proof. vm_compute. reflexivity. Qed.

Lemma tooLarge_too_large :
  Str.includes tooLarge.(errorMessage) "too large" = true.
Proof. vm_compute. reflexivity. Qed.

Lemma dispatch_divide_zero a s :
  dispatch a Divide (S754_zero s) = inl divideByZero.
Proof. destruct s; reflexivity. Qed.

Lemma calculate_raw a op b mode raw :
  dispatch a op b = inr raw ->
  calculate a (Some op) b mode =
    if gt (Math_abs (roundToMode raw mode)) MAX_VALUE then tooLarge
    else {| result := roundToMode raw mode;
            error := false;
            errorMessage := "" |}.
Proof.
  intros H. unfold calculate, try_body. rewrite H.
  destruct (gt _ _); reflexivity.
Qed.

Lemma calculate_early a op b mode early :
  dispatch a op b = inl early ->
  calculate a (Some op) b mode = divideByZero.
Proof.
  intros H. unfold calculate, try_body. rewrite H.
  destruct op; simpl in H; try discriminate.
  destruct (strict_eq b zero); congruence.
Qed.

End EngineFacts.

(** C1. For every first operand [a] and every mode, dividing by zero (of
    either sign) returns [error = true], [result = 0] and a message that
    contains "divide by zero"; the body of the [try] block completes
    normally, so nothing is thrown. *)
Theorem calculate_divide_by_zero :
  forall (a : number) (s : bool) (mode : CalculatorMode),
    let r := CalculatorEngine.calculate a (Some Divide) (S754_zero s) mode in
    r.(CalculatorEngine.error) = true
    /\ r.(CalculatorEngine.result) = zero
    /\ Str.includes r.(CalculatorEngine.errorMessage) "divide by zero" = true
    /\ CalculatorEngine.try_body a Divide (S754_zero s) mode = normal r.
Proof.
  intros a s mode r. subst r.
  unfold CalculatorEngine.calculate, CalculatorEngine.try_body.
  rewrite dispatch_divide_zero.
  repeat split; vm_compute; reflexivity.
Qed.

(** C2. Mode rounding is applied to the raw result before the range check:
    whenever the operator produces a raw result, [calculate] fails with the
    "too large" error (result 0) exactly when the absolute value of the
    rounded result exceeds 999,999,999.99, and succeeds with the rounded
    result otherwise.  In both modes 999999999 + 0.99 succeeds with
    999999999.99 and 999999999 + 1 is too large; 999999999.99 + 0.004 in
    Checkbook mode succeeds although the unrounded sum exceeds the bound. *)
Theorem calculate_rounds_then_checks_range :
  (forall a op b mode raw,
      CalculatorEngine.dispatch a op b = inr raw ->
      let rounded := CalculatorEngine.roundToMode raw mode in
      let r := CalculatorEngine.calculate a (Some op) b mode in
      (gt (Math_abs rounded) MAX_VALUE = true ->
       r = CalculatorEngine.tooLarge /\ r.(CalculatorEngine.result) = zero)
      /\ (gt (Math_abs rounded) MAX_VALUE = false ->
          r = {| CalculatorEngine.result := rounded;
                 CalculatorEngine.error := false;
                 CalculatorEngine.errorMessage := "" |}))
  /\ (forall a op b mode,
         let r := CalculatorEngine.calculate a (Some op) b mode in
         (r.(CalculatorEngine.error) = true
          /\ Str.includes r.(CalculatorEngine.errorMessage) "too large" = true)
         <-> exists raw,
             CalculatorEngine.dispatch a op b = inr raw
             /\ gt (Math_abs (CalculatorEngine.roundToMode raw mode))
                  MAX_VALUE = true)
  /\ (forall mode,
         CalculatorEngine.calculate (Num.of_Z 999999999) (Some Plus)
           (of_decimal false 99 (-2)) mode
         = {| CalculatorEngine.result := of_decimal false 99999999999 (-2);
              CalculatorEngine.error := false;
              CalculatorEngine.errorMessage := "" |})
  /\ (forall mode,
         CalculatorEngine.calculate (Num.of_Z 999999999) (Some Plus)
           (Num.of_Z 1) mode
         = CalculatorEngine.tooLarge)
  /\ (gt (Math_abs (add MAX_VALUE (of_decimal false 4 (-3)))) MAX_VALUE = true
      /\ CalculatorEngine.calculate MAX_VALUE (Some Plus)
           (of_decimal false 4 (-3)) checkbook
         = {| CalculatorEngine.result := MAX_VALUE;
              CalculatorEngine.error := false;
              CalculatorEngine.errorMessage := "" |}).
Proof.
  split; [| split; [| split; [| split]]].
  - intros a op b mode raw H rounded r. subst rounded r.
    rewrite (calculate_raw _ _ _ mode _ H).
    split; intros G; rewrite G; [split|]; reflexivity.
  - intros a op b mode r. subst r.
    destruct (CalculatorEngine.dispatch a op b) as [early | raw] eqn:H.
    + rewrite (calculate_early _ _ _ mode _ H).
      rewrite divideByZero_not_too_large.
      split; [intros [_ G]; discriminate | intros [raw [G _]]; discriminate].
    + rewrite (calculate_raw _ _ _ mode _ H).
      destruct (gt _ _) eqn:G.
      * split; [intros _; exists raw; split; [reflexivity | exact G] |].
        intros _. split; [reflexivity | exact tooLarge_too_large].
      * split; [intros [E _]; discriminate E |].
        intros [raw' [E G']]. inversion E; subst raw'. congruence.
  - intros []; vm_compute; reflexivity.
  - intros []; vm_compute; reflexivity.
  - split; vm_compute; reflexivity.
Qed.

Lemma calculate_rounds_then_checks_range_witness :
  CalculatorEngine.calculate (Num.of_Z 10) (Some Divide) (Num.of_Z 3) checkbook
  = {| CalculatorEngine.result := of_decimal false 333 (-2);
       CalculatorEngine.error := false;
       CalculatorEngine.errorMessage := "" |}.
Proof.
  destruct calculate_rounds_then_checks_range as [H _].
  apply (H (Num.of_Z 10) Divide (Num.of_Z 3) checkbook
           (div (Num.of_Z 10) (Num.of_Z 3))).
  - vm_compute. reflexivity.
  - vm_compute. reflexivity.
Defined.

(* ================================================================== *)
(** * The session state machine *)
(* ================================================================== *)

(** The guard of the screen.  On a digit press while accumulating an
    operand (no error, not waiting for an operand) the screen's handler
    parses the candidate display with [getDisplayValue]; when the absolute
    value of the parsed candidate exceeds 999,999,999.99 the keystroke is
    rejected and the session state is returned unchanged. *)
Lemma handleNumberPress_rejects_beyond_maximum :
  forall (digit : string) (prev : CalculatorState),
    prev.(error) = false ->
    prev.(waitingForOperand) = false ->
    gt (Math_abs (CalculatorEngine.getDisplayValue
                    (candidateDisplay digit prev))) MAX_VALUE = true ->
    CalculatorScreen.handleNumberPress digit prev = prev.
Proof.
  intros digit prev He Hw Hgt.
  unfold CalculatorScreen.handleNumberPress.
  rewrite He, Hw. unfold candidateDisplay in Hgt.
  rewrite Hgt. reflexivity.
Qed.

(** The hook's handler never looks at the value of the candidate: while
    accumulating an operand it makes the candidate the display. *)
Lemma useCalculator_handleNumberPress_accumulates :
  forall (digit : string) (prev : CalculatorState),
    prev.(error) = false ->
    prev.(waitingForOperand) = false ->
    useCalculator.handleNumberPress digit prev
    = Session.set_display (candidateDisplay digit prev) prev.
Proof.
  intros digit prev He Hw.
  unfold useCalculator.handleNumberPress, candidateDisplay.
  rewrite He, Hw.
  destruct (String.eqb (display prev) "0" && negb (String.eqb digit "."))%bool;
    reflexivity.
Qed.

(** C3.  The guard on the candidate is in the screen's handler, not in the
    hook's.  On a digit press while accumulating an operand (no error, not
    waiting for an operand), when the absolute value of the candidate
    parsed with [getDisplayValue] exceeds 999,999,999.99, the
    [handleNumberPress] of the screen rejects the keystroke and returns
    the session state unchanged; the [handleNumberPress] of the hook
    [useCalculator] makes the candidate the display all the same, and so
    changes the session state whenever the candidate is not the display
    already. *)
Theorem handleNumberPress_guard_missing_in_hook :
  forall (digit : string) (prev : CalculatorState),
    prev.(error) = false ->
    prev.(waitingForOperand) = false ->
    gt (Math_abs (CalculatorEngine.getDisplayValue
                    (candidateDisplay digit prev))) MAX_VALUE = true ->
    CalculatorScreen.handleNumberPress digit prev = prev
    /\ useCalculator.handleNumberPress digit prev
       = Session.set_display (candidateDisplay digit prev) prev
    /\ (candidateDisplay digit prev <> prev.(display) ->
        useCalculator.handleNumberPress digit prev <> prev).
Proof.
  intros digit prev He Hw Hgt.
  split; [exact (handleNumberPress_rejects_beyond_maximum digit prev He Hw Hgt) |].
  pose proof (useCalculator_handleNumberPress_accumulates digit prev He Hw)
    as Hacc.
  split; [exact Hacc |].
  intros Hne Heq. rewrite Hacc in Heq.
  apply Hne. rewrite <- Heq at 2. reflexivity.
Qed.

Lemma handleNumberPress_guard_missing_in_hook_witness :
  CalculatorScreen.handleNumberPress "9" nine_nines = nine_nines
  /\ useCalculator.handleNumberPress "9" nine_nines
     = Session.set_display "9999999999" nine_nines
  /\ useCalculator.handleNumberPress "9" nine_nines <> nine_nines.
Proof.
  destruct (handleNumberPress_guard_missing_in_hook "9" nine_nines)
    as (Hscreen & Hhook & Hchanged).
  - reflexivity.
  - reflexivity.
  - vm_compute. reflexivity.
  - split; [exact Hscreen |]. split; [exact Hhook |].
    apply Hchanged. vm_compute. discriminate.
Defined.

(** When the guard does not fire the candidate becomes the display. *)
Lemma handleNumberPress_accepts_within_maximum :
  forall (digit : string) (prev : CalculatorState),
    prev.(error) = false ->
    prev.(waitingForOperand) = false ->
    gt (Math_abs (CalculatorEngine.getDisplayValue
                    (candidateDisplay digit prev))) MAX_VALUE = false ->
    CalculatorScreen.handleNumberPress digit prev
    = Session.set_display (candidateDisplay digit prev) prev.
Proof.
  intros digit prev He Hw Hgt.
  unfold CalculatorScreen.handleNumberPress.
  rewrite He, Hw. unfold candidateDisplay in *.
  rewrite Hgt. reflexivity.
Qed.

(** C10. The hook's digit handler and the screen's differ: after 999999999
    a further digit 9 is rejected by the screen and appended by the hook,
    which has no guard on the candidate value. *)
Theorem useCalculator_handleNumberPress_lacks_guard :
  CalculatorScreen.handleNumberPress "9" nine_nines = nine_nines
  /\ useCalculator.handleNumberPress "9" nine_nines
     = Session.set_display "9999999999" INITIAL_STATE
  /\ useCalculator.handleNumberPress "9" nine_nines
     <> CalculatorScreen.handleNumberPress "9" nine_nines.
Proof.
  assert (S : CalculatorScreen.handleNumberPress "9" nine_nines = nine_nines)
    by (vm_compute; reflexivity).
  split; [exact S |].
  split; [vm_compute; reflexivity |].
  rewrite S. vm_compute. discriminate.
Qed.

(** The two digit handlers agree wherever the screen's guard lets the
    keystroke through. *)
Lemma handleNumberPress_agree_within_maximum :
  forall (digit : string) (prev : CalculatorState),
    gt (Math_abs (CalculatorEngine.getDisplayValue
                    (candidateDisplay digit prev))) MAX_VALUE = false ->
    useCalculator.handleNumberPress digit prev
    = CalculatorScreen.handleNumberPress digit prev.
Proof.
  intros digit prev Hgt.
  unfold useCalculator.handleNumberPress, CalculatorScreen.handleNumberPress.
  destruct (error prev); [reflexivity |].
  destruct (waitingForOperand prev); [reflexivity |].
  unfold candidateDisplay in Hgt. rewrite Hgt.
  destruct (String.eqb (display prev) "0" && negb (String.eqb digit "."))%bool;
    reflexivity.
Qed.

Section SessionInvariant.

Import CalculatorScreen.

Lemma handle_error_shows_zero mode i s :
  error_shows_zero s -> error_shows_zero (handle mode i s).
Proof.
  unfold error_shows_zero. intros IH.
  destruct i; simpl.
  - unfold handleNumberPress.
    destruct (error s) eqn:E; [simpl; discriminate |].
    destruct (waitingForOperand s); [simpl; congruence |].
    match goal with |- context [if ?c then _ else _] => destruct c end;
      simpl; congruence.
  - unfold handleDecimal, Session.handleDecimal.
    destruct (error s) eqn:E; [simpl; discriminate |].
    destruct (waitingForOperand s); [simpl; congruence |].
    destruct (Str.includes _ _); simpl; congruence.
  - unfold handleNegative, Session.handleNegative.
    destruct (error s) eqn:E;
      [intros _; apply IH; reflexivity | simpl; congruence].
  - unfold handleOperatorPress, Session.handleOperatorPress.
    destruct (error s) eqn:E; [intros _; apply IH; reflexivity |].
    destruct (previousValue s), (operation s), (waitingForOperand s);
      simpl; try discriminate.
    destruct (CalculatorEngine.error _); simpl; [reflexivity | discriminate].
  - unfold handleEquals, Session.handleEquals.
    destruct (error s) eqn:E; [intros _; apply IH; reflexivity |].
    destruct (operation s), (previousValue s); try congruence.
    destruct (CalculatorEngine.error _); simpl; [reflexivity | discriminate].
  - unfold handleBackspace, Session.handleBackspace.
    destruct (error s) eqn:E; [intros _; apply IH; reflexivity |].
    destruct (waitingForOperand s); simpl; congruence.
  - discriminate.
  - discriminate.
Qed.

End SessionInvariant.

(** C6. In every session state reachable from the initial state by digit,
    decimal, sign-toggle, operator, equals, backspace, clear and all-clear
    inputs, an error flag that is set comes with the display ["0"]. *)
Theorem reachable_error_shows_zero :
  forall s : CalculatorState,
    CalculatorScreen.reachable s ->
    s.(error) = true -> s.(display) = "0"%string.
Proof.
  intros s R. change (error_shows_zero s).
  induction R.
  - intros E. discriminate E.
  - apply handle_error_shows_zero. exact IHR.
Qed.

Lemma reachable_error_shows_zero_witness :
  after_division_by_zero.(error) = true
  /\ after_division_by_zero.(display) = "0"%string.
Proof.
  split; [vm_compute; reflexivity |].
  apply reachable_error_shows_zero.
  - cbv beta iota delta [after_division_by_zero fold_left].
    repeat apply CalculatorScreen.reachable_handle.
    apply CalculatorScreen.reachable_initial.
  - vm_compute. reflexivity.
Defined.

(* ================================================================== *)
(** * The undo/redo history manager *)
(* ================================================================== *)

Section HistoryFacts.

Import useUndoRedo.

Lemma well_formed_capped u : well_formed u -> capped u.
Proof. unfold well_formed, in_bounds, capped, UNDO_REDO_STACK_SIZE. lia. Qed.

Lemma slice_0_length {A : Type} (l : list A) (e : Z) :
  Z.of_nat (List.length (slice_0 l e))
  = if e <? 0 then Z.max (Z.of_nat (List.length l) + e) 0
    else Z.min e (Z.of_nat (List.length l)).
Proof.
  unfold slice_0. rewrite length_firstn.
  destruct (e <? 0) eqn:E; lia.
Qed.

Lemma slice_0_firstn {A : Type} (l : list A) (i : Z) :
  0 <= i < Z.of_nat (List.length l) ->
  slice_0 l (i + 1) = firstn (Z.to_nat (i + 1)) l.
Proof.
  intros H. unfold slice_0.
  destruct (i + 1 <? 0) eqn:E; [lia |].
  f_equal. lia.
Qed.

Lemma tl_app_nonempty {A : Type} (l : list A) (x : A) :
  l <> [] -> tl (l ++ [x]) = tl l ++ [x].
Proof. destruct l; [congruence | reflexivity]. Qed.

(** The shape of the stack after [push], from any state. *)
Lemma push_shape s u :
  let kept := slice_0 u.(stack) (u.(currentIndex) + 1) in
  let k := Z.of_nat (List.length kept) in
  (k + 1 <= UNDO_REDO_STACK_SIZE
   /\ stack (push s u) = kept ++ [s]
   /\ currentIndex (push s u) = k)
  \/ (UNDO_REDO_STACK_SIZE < k + 1
      /\ stack (push s u) = tl kept ++ [s]
      /\ currentIndex (push s u) = UNDO_REDO_STACK_SIZE - 1).
Proof.
  intros kept k. unfold push. fold kept.
  rewrite length_app. simpl List.length.
  replace (Z.of_nat (List.length kept + 1)) with (k + 1) by (subst k; lia).
  destruct (UNDO_REDO_STACK_SIZE <? k + 1) eqn:E.
  - right. simpl. split; [lia |]. split; [| reflexivity].
    apply tl_app_nonempty. intros N. subst k. rewrite N in E.
    simpl in E. discriminate.
  - left. simpl. split; [lia |]. split; [reflexivity | lia].
Qed.

Lemma push_capped s u : capped (push s u).
Proof.
  destruct (push_shape s u) as [(H & S & I) | (H & S & I)];
    unfold capped, size; rewrite S, I, length_app; simpl List.length.
  - unfold UNDO_REDO_STACK_SIZE in *. lia.
  - rewrite length_tl. unfold UNDO_REDO_STACK_SIZE in *. lia.
Qed.

(** From a capped state, [push] keeps the entries up to the current one,
    appends the new one, evicts the oldest entry when there would be more
    than twenty, and makes the new entry the current and last one. *)
Lemma push_from_capped s u :
  capped u ->
  let kept := firstn (Z.to_nat (u.(currentIndex) + 1)) u.(stack) in
  stack (push s u)
  = (if UNDO_REDO_STACK_SIZE <? u.(currentIndex) + 2
     then tl kept ++ [s] else kept ++ [s])
  /\ currentIndex (push s u) = size (push s u) - 1
  /\ size (push s u) = Z.min (u.(currentIndex) + 2) UNDO_REDO_STACK_SIZE.
Proof.
  intros [C1 C2] kept. unfold size in *.
  assert (K : slice_0 (stack u) (currentIndex u + 1) = kept)
    by (apply slice_0_firstn; lia).
  assert (L : Z.of_nat (List.length kept) = currentIndex u + 1).
  { subst kept. rewrite length_firstn. lia. }
  destruct (push_shape s u) as [(H & S & I) | (H & S & I)];
    rewrite K in *; rewrite S, I, length_app; simpl List.length;
    unfold UNDO_REDO_STACK_SIZE in *.
  - destruct (20 <? currentIndex u + 2) eqn:E; [lia |].
    split; [reflexivity | lia].
  - destruct (20 <? currentIndex u + 2) eqn:E; [| lia].
    rewrite length_tl. split; [reflexivity | lia].
Qed.

Lemma push_well_formed s u : capped u -> well_formed (push s u).
Proof.
  intros C. destruct (push_from_capped s u C) as (_ & I & S).
  pose proof (push_capped s u) as [P1 P2].
  unfold well_formed, in_bounds, UNDO_REDO_STACK_SIZE in *. lia.
Qed.

Lemma at_index_in_bounds {A : Type} (l : list A) (i : Z) :
  0 <= i < Z.of_nat (List.length l) -> exists a, at_index l i = Some a.
Proof.
  intros H. unfold at_index. destruct (i <? 0) eqn:E; [lia |].
  destruct (nth_error l (Z.to_nat i)) eqn:N; [eauto |].
  apply nth_error_None in N. lia.
Qed.

Lemma undo_steps m :
  in_bounds m.(undoRedo) -> canUndo m = true ->
  exists previousState fb,
    at_index m.(undoRedo).(stack) (m.(undoRedo).(currentIndex) - 1)
    = Some previousState
    /\ undo m
       = normal ({| undoRedo :=
                      {| stack := m.(undoRedo).(stack);
                         currentIndex := m.(undoRedo).(currentIndex) - 1 |};
                    feedback := Some fb |},
                 Some previousState).
Proof.
  intros B C. unfold canUndo in C. apply Z.ltb_lt in C.
  destruct (at_index_in_bounds (stack (undoRedo m))
              (currentIndex (undoRedo m) - 1)) as [a Ha].
  { unfold in_bounds, size in B. lia. }
  exists a. eexists. split; [exact Ha |].
  unfold undo. destruct (currentIndex (undoRedo m) <=? 0) eqn:E; [lia |].
  rewrite Ha. reflexivity.
Qed.

Lemma undo_stays m :
  canUndo m = false -> undo m = normal (m, None).
Proof.
  unfold canUndo, undo. intros C. apply Z.ltb_ge in C.
  destruct (currentIndex (undoRedo m) <=? 0) eqn:E; [reflexivity | lia].
Qed.

Lemma redo_steps m :
  in_bounds m.(undoRedo) -> canRedo m = true ->
  exists nextState fb,
    at_index m.(undoRedo).(stack) (m.(undoRedo).(currentIndex) + 1)
    = Some nextState
    /\ redo m
       = normal ({| undoRedo :=
                      {| stack := m.(undoRedo).(stack);
                         currentIndex := m.(undoRedo).(currentIndex) + 1 |};
                    feedback := Some fb |},
                 Some nextState).
Proof.
  intros B C. unfold canRedo in C. apply Z.ltb_lt in C.
  destruct (at_index_in_bounds (stack (undoRedo m))
              (currentIndex (undoRedo m) + 1)) as [a Ha].
  { unfold in_bounds, size in B. lia. }
  exists a. eexists. split; [exact Ha |].
  unfold redo.
  destruct (Z.of_nat (List.length (stack (undoRedo m))) - 1
            <=? currentIndex (undoRedo m)) eqn:E; [lia |].
  rewrite Ha. reflexivity.
Qed.

Lemma redo_stays m :
  canRedo m = false -> redo m = normal (m, None).
Proof.
  unfold canRedo, redo. intros C. apply Z.ltb_ge in C.
  destruct (Z.of_nat (List.length (stack (undoRedo m))) - 1
            <=? currentIndex (undoRedo m)) eqn:E; [reflexivity | lia].
Qed.

Lemma undo_well_formed m :
  well_formed m.(undoRedo) ->
  exists m' r, undo m = normal (m', r) /\ well_formed m'.(undoRedo).
Proof.
  intros W. destruct (canUndo m) eqn:C.
  - destruct (undo_steps m (proj1 W) C) as (p & fb & _ & U).
    eexists; eexists; split; [exact U |].
    unfold canUndo in C. apply Z.ltb_lt in C.
    unfold well_formed, in_bounds, size in *. simpl. lia.
  - exists m, None. split; [apply undo_stays; exact C | exact W].
Qed.

Lemma redo_well_formed m :
  well_formed m.(undoRedo) ->
  exists m' r, redo m = normal (m', r) /\ well_formed m'.(undoRedo).
Proof.
  intros W. destruct (canRedo m) eqn:C.
  - destruct (redo_steps m (proj1 W) C) as (p & fb & _ & U).
    eexists; eexists; split; [exact U |].
    unfold canRedo in C. apply Z.ltb_lt in C.
    unfold well_formed, in_bounds, size in *. simpl. lia.
  - exists m, None. split; [apply redo_stays; exact C | exact W].
Qed.

Lemma init_well_formed i : well_formed (init i).(undoRedo).
Proof.
  unfold well_formed, in_bounds, size, UNDO_REDO_STACK_SIZE. simpl. lia.
Qed.

Lemma call_well_formed c m :
  well_formed m.(undoRedo) ->
  exists m', call c m = normal m' /\ well_formed m'.(undoRedo).
Proof.
  intros W. destruct c; simpl.
  - eexists; split; [reflexivity |]. simpl.
    apply push_well_formed, well_formed_capped, W.
  - destruct (undo_well_formed m W) as (m' & r & U & W').
    rewrite U. eauto.
  - destruct (redo_well_formed m W) as (m' & r & U & W').
    rewrite U. eauto.
  - eexists; split; [reflexivity | apply init_well_formed].
  - eexists; split; [reflexivity | exact W].
Qed.

Lemma run_well_formed cs : forall m,
  well_formed m.(undoRedo) ->
  exists m', run cs m = normal m' /\ well_formed m'.(undoRedo).
Proof.
  induction cs as [| c cs IH]; intros m W; simpl.
  - eauto.
  - destruct (call_well_formed c m W) as (m1 & C & W1).
    rewrite C. apply IH, W1.
Qed.

(** The loop that counts undos makes exactly [currentIndex] turns. *)
Lemma undoLoop_counts fuel : forall m n,
  in_bounds m.(undoRedo) ->
  m.(undoRedo).(currentIndex) <= Z.of_nat fuel ->
  undoLoop fuel m n
  = normal ((n + Z.to_nat m.(undoRedo).(currentIndex))%nat, true).
Proof.
  induction fuel as [| fuel IH]; intros m n B F.
  - assert (E : currentIndex (undoRedo m) = 0)
      by (unfold in_bounds in B; lia).
    simpl. unfold canUndo. rewrite E. simpl. f_equal. f_equal. lia.
  - simpl. destruct (canUndo m) eqn:C.
    + destruct (undo_steps m B C) as (p & fb & _ & U). rewrite U.
      unfold canUndo in C. apply Z.ltb_lt in C.
      rewrite IH; simpl.
      * f_equal. f_equal. lia.
      * unfold in_bounds, size in *. simpl. lia.
      * lia.
    + unfold canUndo in C. apply Z.ltb_ge in C.
      assert (E : currentIndex (undoRedo m) = 0)
        by (unfold in_bounds in B; lia).
      rewrite E. f_equal. f_equal. lia.
Qed.

(** After [n] pushes onto a fresh manager the stack holds [min (n+1) 20]
    entries and the last one is current. *)
Lemma pushes_size sts : forall m,
  well_formed m.(undoRedo) ->
  m.(undoRedo).(currentIndex) = size m.(undoRedo) - 1 ->
  let m' := fold_left (fun m s => pushState s m) sts m in
  well_formed m'.(undoRedo)
  /\ m'.(undoRedo).(currentIndex) = size m'.(undoRedo) - 1
  /\ size m'.(undoRedo)
     = Z.min (size m.(undoRedo) + Z.of_nat (List.length sts))
         UNDO_REDO_STACK_SIZE.
Proof.
  induction sts as [| s sts IH]; intros m W T; simpl.
  - split; [exact W |]. split; [exact T |].
    destruct W as [_ W]. lia.
  - pose proof (well_formed_capped _ W) as C.
    destruct (push_from_capped s _ C) as (_ & I & S).
    destruct (IH (pushState s m)) as (W' & T' & S').
    + simpl. apply push_well_formed, C.
    + simpl. exact I.
    + split; [exact W' |]. split; [exact T' |].
      rewrite S'. simpl. rewrite S, T.
      destruct W as [_ W]. unfold UNDO_REDO_STACK_SIZE in *. lia.
Qed.

End HistoryFacts.

Section HistoryScenarios.

Import useUndoRedo.

(** Pushing onto a well-formed stack leaves the new entry last and
    current. *)
Lemma push_appends s u :
  well_formed u ->
  exists pre,
    stack (push s u) = pre ++ [s]
    /\ currentIndex (push s u) = Z.of_nat (List.length pre)
    /\ Z.of_nat (List.length pre) + 1 <= UNDO_REDO_STACK_SIZE.
Proof.
  intros W. pose proof (well_formed_capped _ W) as C.
  destruct (push_from_capped s u C) as (S & I & Z).
  unfold size in *.
  destruct (UNDO_REDO_STACK_SIZE <? currentIndex u + 2);
    eexists; (split; [exact S |]);
    rewrite S, length_app in *; simpl List.length in *;
    unfold UNDO_REDO_STACK_SIZE in *; lia.
Qed.

(** Pushing when the last entry [a] is current keeps [a] just before the
    new entry. *)
Lemma push_after_last s a pre u :
  stack u = pre ++ [a] ->
  currentIndex u = Z.of_nat (List.length pre) ->
  Z.of_nat (List.length pre) + 1 <= UNDO_REDO_STACK_SIZE ->
  exists pre',
    stack (push s u) = pre' ++ [a; s]
    /\ currentIndex (push s u) = Z.of_nat (List.length pre') + 1
    /\ Z.of_nat (List.length pre') + 2 <= UNDO_REDO_STACK_SIZE.
Proof.
  intros S I L.
  assert (C : capped u).
  { unfold capped, size. rewrite S, I, length_app. simpl List.length.
    unfold UNDO_REDO_STACK_SIZE in *. lia. }
  destruct (push_from_capped s u C) as (S' & I' & _).
  rewrite S, I in S'.
  replace (Z.to_nat (Z.of_nat (List.length pre) + 1))
    with (List.length (pre ++ [a])) in S'
    by (rewrite length_app; simpl; lia).
  rewrite firstn_all in S'. unfold size in I'.
  destruct (UNDO_REDO_STACK_SIZE <? Z.of_nat (List.length pre) + 2) eqn:E.
  - destruct pre as [| x pre'].
    + simpl in E. discriminate.
    + exists pre'. rewrite I', S'. simpl. rewrite <- app_assoc. simpl.
      split; [reflexivity |]. rewrite length_app.
      simpl List.length in *. unfold UNDO_REDO_STACK_SIZE in *. lia.
  - exists pre. rewrite I', S'. rewrite <- app_assoc. simpl.
    split; [reflexivity |]. apply Z.ltb_ge in E. rewrite length_app.
    simpl List.length. unfold UNDO_REDO_STACK_SIZE in *. lia.
Qed.

Lemma at_index_middle {A : Type} (pre : list A) (a : A) (post : list A) :
  at_index (pre ++ a :: post) (Z.of_nat (List.length pre)) = Some a.
Proof.
  unfold at_index.
  destruct (Z.of_nat (List.length pre) <? 0) eqn:E;
    [apply Z.ltb_lt in E; lia |].
  rewrite Nat2Z.id, nth_error_app2 by lia.
  rewrite Nat.sub_diag. reflexivity.
Qed.

End HistoryScenarios.

(** C4. [pushState] discards the redo branch.  From any manager, after
    [pushState(A); pushState(B); undo(); pushState(C)] the undo completes,
    [canRedo()] is false and [canUndo()] is true; from a well-formed manager
    the undo hands [A] to its callback and the stack then ends with [A]
    followed by [C], the current entry.  In general [pushState] keeps the
    positions [0 .. currentIndex], appends the new state (dropping the
    oldest entry beyond twenty) and makes the new last position current. *)
Theorem pushState_discards_redo_branch :
  (forall m A B C,
      exists m1 restored,
        useUndoRedo.undo (useUndoRedo.pushState B (useUndoRedo.pushState A m))
        = normal (m1, Some restored)
        /\ useUndoRedo.canRedo (useUndoRedo.pushState C m1) = false
        /\ useUndoRedo.canUndo (useUndoRedo.pushState C m1) = true)
  /\ (forall m A B C,
         well_formed m.(useUndoRedo.undoRedo) ->
         exists m1 pre,
           useUndoRedo.undo
             (useUndoRedo.pushState B (useUndoRedo.pushState A m))
           = normal (m1, Some A)
           /\ (useUndoRedo.pushState C m1).(useUndoRedo.undoRedo)
                .(useUndoRedo.stack) = pre ++ [A; C]
           /\ (useUndoRedo.pushState C m1).(useUndoRedo.undoRedo)
                .(useUndoRedo.currentIndex)
              = Z.of_nat (List.length pre) + 1)
  /\ (forall m s,
         well_formed m.(useUndoRedo.undoRedo) ->
         let u := m.(useUndoRedo.undoRedo) in
         let u' := (useUndoRedo.pushState s m).(useUndoRedo.undoRedo) in
         let kept :=
           firstn (Z.to_nat (u.(useUndoRedo.currentIndex) + 1))
             u.(useUndoRedo.stack) in
         u'.(useUndoRedo.stack)
         = (if UNDO_REDO_STACK_SIZE <? u.(useUndoRedo.currentIndex) + 2
            then tl kept ++ [s] else kept ++ [s])
         /\ u'.(useUndoRedo.currentIndex) = size u' - 1).
Proof.
  split; [| split].
  - intros m A B C.
    set (m2 := useUndoRedo.pushState B (useUndoRedo.pushState A m)).
    set (u2 := useUndoRedo.push B
                 (useUndoRedo.push A (useUndoRedo.undoRedo m))).
    assert (M2 : useUndoRedo.undoRedo m2 = u2) by reflexivity.
    pose proof (push_capped A (useUndoRedo.undoRedo m)) as C1.
    destruct (push_from_capped B _ C1) as (_ & I2 & S2).
    pose proof (push_well_formed B _ C1) as W2.
    fold u2 in I2, S2, W2. rewrite <- M2 in I2, S2, W2.
    assert (P : 1 <= useUndoRedo.currentIndex (useUndoRedo.undoRedo m2)).
    { destruct C1 as [C1 _]. unfold UNDO_REDO_STACK_SIZE in *. lia. }
    assert (U : useUndoRedo.canUndo m2 = true).
    { unfold useUndoRedo.canUndo. apply Z.ltb_lt. lia. }
    destruct (undo_steps m2 (proj1 W2) U) as (p & fb & _ & E).
    eexists; eexists; split; [exact E |].
    match goal with
    | |- useUndoRedo.canRedo (useUndoRedo.pushState C ?m1) = _ /\ _ =>
        set (m3 := m1)
    end.
    assert (C3 : capped (useUndoRedo.undoRedo m3)).
    { subst m3. unfold capped, size.
      cbn [useUndoRedo.undoRedo useUndoRedo.stack useUndoRedo.currentIndex].
      destruct W2 as [[B1 B2] B3]. unfold size in *.
      unfold UNDO_REDO_STACK_SIZE in *. lia. }
    destruct (push_from_capped C _ C3) as (_ & I4 & S4).
    assert (I3 : useUndoRedo.currentIndex (useUndoRedo.undoRedo m3)
                 = useUndoRedo.currentIndex (useUndoRedo.undoRedo m2) - 1)
      by reflexivity.
    unfold useUndoRedo.canRedo, useUndoRedo.canUndo.
    change (useUndoRedo.undoRedo (useUndoRedo.pushState C m3))
      with (useUndoRedo.push C (useUndoRedo.undoRedo m3)).
    unfold size in *.
    split; [apply Z.ltb_ge | apply Z.ltb_lt];
      unfold UNDO_REDO_STACK_SIZE in *; lia.
  - intros m A B C W.
    destruct (push_appends A _ W) as (pre1 & S1 & I1 & L1).
    destruct (push_after_last B A pre1 _ S1 I1 L1) as (pre2 & S2 & I2 & L2).
    set (m2 := useUndoRedo.pushState B (useUndoRedo.pushState A m)).
    change (useUndoRedo.stack (useUndoRedo.undoRedo m2) = pre2 ++ [A; B]) in S2.
    change (useUndoRedo.currentIndex (useUndoRedo.undoRedo m2)
            = Z.of_nat (List.length pre2) + 1) in I2.
    assert (E : useUndoRedo.undo m2
                = normal
                    ({| useUndoRedo.undoRedo :=
                          {| useUndoRedo.stack := pre2 ++ [A; B];
                             useUndoRedo.currentIndex :=
                               Z.of_nat (List.length pre2) |};
                        useUndoRedo.feedback :=
                          Some {| useUndoRedo.message :=
                                    useUndoRedo.undoMessage A;
                                  useUndoRedo.isUndo := true |} |},
                     Some A)).
    { unfold useUndoRedo.undo. rewrite S2, I2.
      destruct (Z.of_nat (List.length pre2) + 1 <=? 0) eqn:N;
        [apply Z.leb_le in N; lia |].
      replace (Z.of_nat (List.length pre2) + 1 - 1)
        with (Z.of_nat (List.length pre2)) by lia.
      rewrite at_index_middle. reflexivity. }
    eexists; exists pre2; split; [exact E |].
    assert (F : firstn (Z.to_nat (Z.of_nat (List.length pre2) + 1))
                  (pre2 ++ [A; B]) = pre2 ++ [A]).
    { replace (Z.to_nat (Z.of_nat (List.length pre2) + 1))
        with (List.length pre2 + 1)%nat by lia.
      rewrite firstn_app, firstn_all2 by lia.
      replace (List.length pre2 + 1 - List.length pre2)%nat with 1%nat by lia.
      reflexivity. }
    assert (C3 : capped {| useUndoRedo.stack := pre2 ++ [A; B];
                           useUndoRedo.currentIndex :=
                             Z.of_nat (List.length pre2) |}).
    { unfold capped, size.
      cbn [useUndoRedo.stack useUndoRedo.currentIndex].
      rewrite length_app. simpl List.length.
      unfold UNDO_REDO_STACK_SIZE in *. lia. }
    destruct (push_from_capped C _ C3) as (S4 & I4 & Z4).
    cbn [useUndoRedo.stack useUndoRedo.currentIndex] in S4.
    unfold useUndoRedo.pushState. cbn [useUndoRedo.undoRedo].
    destruct (UNDO_REDO_STACK_SIZE <? Z.of_nat (List.length pre2) + 2) eqn:N;
      [apply Z.ltb_lt in N; unfold UNDO_REDO_STACK_SIZE in *; lia |].
    rewrite F, <- app_assoc in S4.
    split; [exact S4 |].
    rewrite I4. unfold size. rewrite S4, length_app. simpl List.length. lia.
  - intros m s W u u' kept. subst u u' kept.
    change (useUndoRedo.undoRedo (useUndoRedo.pushState s m))
      with (useUndoRedo.push s (useUndoRedo.undoRedo m)).
    destruct (push_from_capped s _ (well_formed_capped _ W)) as (S & I & _).
    split; [exact S | exact I].
Qed.

Lemma pushState_discards_redo_branch_witness :
  exists m1 pre,
    useUndoRedo.undo
      (useUndoRedo.pushState (Session.set_display "50" INITIAL_STATE)
         (useUndoRedo.pushState (Session.set_display "5" INITIAL_STATE)
            (useUndoRedo.init INITIAL_STATE)))
    = normal (m1, Some (Session.set_display "5" INITIAL_STATE))
    /\ (useUndoRedo.pushState (Session.set_display "7" INITIAL_STATE) m1)
         .(useUndoRedo.undoRedo).(useUndoRedo.stack)
       = pre ++ [Session.set_display "5" INITIAL_STATE;
                 Session.set_display "7" INITIAL_STATE]
    /\ (useUndoRedo.pushState (Session.set_display "7" INITIAL_STATE) m1)
         .(useUndoRedo.undoRedo).(useUndoRedo.currentIndex)
       = Z.of_nat (List.length pre) + 1.
Proof.
  destruct pushState_discards_redo_branch as (_ & H & _).
  apply H.
  unfold well_formed, in_bounds, size, UNDO_REDO_STACK_SIZE. simpl. lia.
Defined.

(** C5. Along every run of [pushState], [undo], [redo] and [clear] calls
    on a fresh manager no call faults, the stack never holds more than
    twenty entries and the current position stays inside the stack.  A push
    onto a full stack evicts the entry at position 0 and leaves the current
    position at 19.  After twenty-five pushes onto a fresh manager the loop
    [while (canUndo()) undo()] makes nineteen turns, hence at most twenty,
    and ends with [canUndo()] false. *)
Theorem undo_redo_stack_bounded :
  (forall initialState calls,
      exists m,
        useUndoRedo.run calls (useUndoRedo.init initialState) = normal m
        /\ size m.(useUndoRedo.undoRedo) <= 20
        /\ 0 <= m.(useUndoRedo.undoRedo).(useUndoRedo.currentIndex)
           < size m.(useUndoRedo.undoRedo))
  /\ (forall m s,
         well_formed m.(useUndoRedo.undoRedo) ->
         20 < m.(useUndoRedo.undoRedo).(useUndoRedo.currentIndex) + 2 ->
         let u' := (useUndoRedo.pushState s m).(useUndoRedo.undoRedo) in
         u'.(useUndoRedo.stack)
         = tl m.(useUndoRedo.undoRedo).(useUndoRedo.stack) ++ [s]
         /\ u'.(useUndoRedo.currentIndex) = 19
         /\ size u' = 20)
  /\ (forall initialState states fuel,
         List.length states = 25%nat ->
         (20 <= fuel)%nat ->
         exists undoCount,
           useUndoRedo.undoLoop fuel
             (pushAll states (useUndoRedo.init initialState)) 0
           = normal (undoCount, true)
           /\ undoCount = 19%nat
           /\ (undoCount <= 20)%nat).
Proof.
  split; [| split].
  - intros i calls.
    destruct (run_well_formed calls _ (init_well_formed i)) as (m & R & W).
    exists m. split; [exact R |].
    unfold well_formed, in_bounds, UNDO_REDO_STACK_SIZE in W. lia.
  - intros m s W F u'. subst u'.
    destruct (push_from_capped s _ (well_formed_capped _ W)) as (S & I & Z).
    change (useUndoRedo.undoRedo (useUndoRedo.pushState s m))
      with (useUndoRedo.push s (useUndoRedo.undoRedo m)).
    assert (E : (UNDO_REDO_STACK_SIZE
                 <? useUndoRedo.currentIndex (useUndoRedo.undoRedo m) + 2)
                = true) by (apply Z.ltb_lt; unfold UNDO_REDO_STACK_SIZE; lia).
    rewrite E in S.
    rewrite firstn_all2 in S.
    + split; [exact S |].
      unfold well_formed, in_bounds, UNDO_REDO_STACK_SIZE in *. lia.
    + unfold well_formed, in_bounds, size, UNDO_REDO_STACK_SIZE in W. lia.
  - intros i states fuel L F.
    destruct (pushes_size states (useUndoRedo.init i) (init_well_formed i))
      as (W & T & S); [reflexivity |].
    fold (pushAll states (useUndoRedo.init i)) in W, T, S.
    rewrite L in S. unfold size at 2 in S. simpl in S.
    unfold UNDO_REDO_STACK_SIZE in S.
    exists 19%nat. split; [| split; [reflexivity | lia]].
    rewrite undoLoop_counts.
    + rewrite T, S. reflexivity.
    + exact (proj1 W).
    + rewrite T, S. lia.
Qed.

Lemma undo_redo_stack_bounded_witness :
  let full :=
    pushAll (repeat INITIAL_STATE 19) (useUndoRedo.init INITIAL_STATE) in
  let s := Session.set_display "7" INITIAL_STATE in
  List.length full.(useUndoRedo.undoRedo).(useUndoRedo.stack) = 20%nat
  /\ (useUndoRedo.pushState s full).(useUndoRedo.undoRedo)
       .(useUndoRedo.stack)
     = repeat INITIAL_STATE 19 ++ [s]
  /\ (useUndoRedo.pushState s full).(useUndoRedo.undoRedo)
       .(useUndoRedo.currentIndex) = 19.
Proof.
  intros full s.
  destruct undo_redo_stack_bounded as (_ & H & _).
  destruct (H full s) as (S & I & _).
  - unfold well_formed, in_bounds, size, UNDO_REDO_STACK_SIZE.
    vm_compute. repeat split; discriminate.
  - vm_compute. reflexivity.
  - split; [reflexivity |]. split; [exact S | exact I].
Defined.


(* ================================================================== *)
(** * The screen: which states reach the undo/redo history *)
(* ================================================================== *)

Section ScreenFacts.

Import CalculatorScreen.

Lemma Forall_firstn_keeps {A : Type} (P : A -> Prop) (n : nat) (l : list A) :
  Forall P l -> Forall P (firstn n l).
Proof.
  intros H. rewrite <- (firstn_skipn n l) in H.
  apply Forall_app in H. exact (proj1 H).
Qed.

Lemma Forall_tl_keeps {A : Type} (P : A -> Prop) (l : list A) :
  Forall P l -> Forall P (tl l).
Proof. destruct l; [trivial | apply Forall_inv_tail]. Qed.

Lemma push_error_free c u :
  error_free u -> c.(error) = false -> error_free (useUndoRedo.push c u).
Proof.
  unfold error_free. intros F E.
  destruct (push_shape c u) as [(_ & S & _) | (_ & S & _)]; rewrite S;
    apply Forall_app; (split; [| repeat constructor; exact E]).
  - apply Forall_firstn_keeps, F.
  - apply Forall_tl_keeps, Forall_firstn_keeps, F.
Qed.

Lemma at_index_Forall {A : Type} (P : A -> Prop) (l : list A) i a :
  Forall P l -> useUndoRedo.at_index l i = Some a -> P a.
Proof.
  unfold useUndoRedo.at_index. intros F H.
  destruct (i <? 0); [discriminate |].
  apply nth_error_In in H. rewrite Forall_forall in F. apply F, H.
Qed.

Lemma trackEffect_ok s : screen_ok s -> screen_ok (trackEffect s).
Proof.
  intros [W F]. unfold trackEffect.
  destruct (prevStateRef s) as [before |]; [| split; assumption].
  destruct (stateChanged before (calculatorState s)); simpl;
    [| split; assumption].
  destruct (error (calculatorState s)) eqn:E; simpl; [split; assumption |].
  split.
  - apply push_well_formed, well_formed_capped, W.
  - apply push_error_free; assumption.
Qed.

Lemma trackEffect_calculatorState s :
  calculatorState (trackEffect s) = calculatorState s.
Proof.
  unfold trackEffect. destruct (prevStateRef s); [| reflexivity].
  destruct (_ && _); reflexivity.
Qed.

(** [handleUndo] never faults on a sound screen; when it can undo, the
    session state it restores is an entry of the stack. *)
Lemma handleUndo_ok s :
  screen_ok s ->
  exists s',
    handleUndo s = normal s' /\ screen_ok s'
    /\ (useUndoRedo.canUndo s.(undoRedo) = true ->
        error (calculatorState s') = false).
Proof.
  intros [W F]. unfold handleUndo.
  destruct (useUndoRedo.canUndo (undoRedo s)) eqn:C.
  - destruct (undo_steps _ (proj1 W) C) as (p & fb & A & U).
    rewrite U. eexists. split; [reflexivity |]. simpl.
    split; [| intros _; exact (at_index_Forall _ _ _ _ F A)].
    split; [| exact F].
    unfold useUndoRedo.canUndo in C. apply Z.ltb_lt in C.
    unfold well_formed, in_bounds, size in *. simpl. lia.
  - exists s. split; [reflexivity |]. split; [split; assumption |].
    discriminate.
Qed.

Lemma handleRedo_ok s :
  screen_ok s -> exists s', handleRedo s = normal s' /\ screen_ok s'.
Proof.
  intros [W F]. unfold handleRedo.
  destruct (useUndoRedo.canRedo (undoRedo s)) eqn:C.
  - destruct (redo_steps _ (proj1 W) C) as (p & fb & A & U).
    rewrite U. eexists. split; [reflexivity |]. simpl.
    split; [| exact F].
    unfold useUndoRedo.canRedo in C. apply Z.ltb_lt in C.
    unfold well_formed, in_bounds, size in *. simpl. lia.
  - exists s. split; [reflexivity |]. split; assumption.
Qed.

(** No event faults on a sound screen, and the screen stays sound. *)
Lemma dispatch_ok mode ev s :
  screen_ok s -> exists s', dispatch mode ev s = normal s' /\ screen_ok s'.
Proof.
  intros K. unfold dispatch. destruct ev.
  - eexists. split; [reflexivity |]. apply trackEffect_ok. exact K.
  - destruct (handleUndo_ok s K) as (s' & U & K' & _). rewrite U.
    eexists. split; [reflexivity |]. apply trackEffect_ok, K'.
  - destruct (handleRedo_ok s K) as (s' & U & K'). rewrite U.
    eexists. split; [reflexivity |]. apply trackEffect_ok, K'.
  - eexists. split; [reflexivity |]. apply trackEffect_ok. exact K.
Qed.

Lemma mounted_ok : screen_ok mounted.
Proof.
  split.
  - apply init_well_formed.
  - repeat constructor.
Qed.

Lemma reachableScreen_ok s : reachableScreen s -> screen_ok s.
Proof.
  induction 1 as [| mode ev s s' R IH D].
  - exact mounted_ok.
  - destruct (dispatch_ok mode ev s IH) as (s2 & D2 & K). congruence.
Qed.

Lemma play_reachable mode evs : forall s s',
  reachableScreen s -> play mode evs s = normal s' -> reachableScreen s'.
Proof.
  induction evs as [| ev evs IH]; intros s s' R P; simpl in P.
  - congruence.
  - destruct (dispatch mode ev s) as [s1 |] eqn:D; [| discriminate].
    apply (IH s1 s'); [| exact P].
    exact (screen_dispatch mode ev s s1 R D).
Qed.

Lemma failed_screen_played :
  play checkbook division_by_zero_events mounted = normal failed_screen.
Proof. vm_compute. reflexivity. Qed.

End ScreenFacts.

(** C8, as the code has it.  The effect that feeds the history skips every
    state whose error flag is set: in every reachable screen no entry of
    the undo/redo stack is an error state, no event faults, and when the
    session shows an error and an undo is possible, the first undo restores
    a state without error. *)
Theorem error_state_is_never_pushed :
  forall s : CalculatorScreen.Screen,
    CalculatorScreen.reachableScreen s ->
    Forall (fun c => c.(error) = false)
      s.(CalculatorScreen.undoRedo).(useUndoRedo.undoRedo)
       .(useUndoRedo.stack)
    /\ (forall mode ev,
           exists s', CalculatorScreen.dispatch mode ev s = normal s')
    /\ (forall mode,
           s.(CalculatorScreen.calculatorState).(error) = true ->
           useUndoRedo.canUndo s.(CalculatorScreen.undoRedo) = true ->
           exists s',
             CalculatorScreen.dispatch mode CalculatorScreen.Undo s = normal s'
             /\ s'.(CalculatorScreen.calculatorState).(error) = false).
Proof.
  intros s R. pose proof (reachableScreen_ok s R) as K.
  split; [exact (proj2 K) |]. split.
  - intros mode ev. destruct (dispatch_ok mode ev s K) as (s' & D & _).
    exists s'. exact D.
  - intros mode _ C.
    destruct (handleUndo_ok s K) as (s1 & U & _ & E).
    exists (CalculatorScreen.trackEffect s1). split.
    + unfold CalculatorScreen.dispatch. rewrite U. reflexivity.
    + rewrite trackEffect_calculatorState. exact (E C).
Qed.

Lemma error_state_is_never_pushed_witness :
  failed_screen.(CalculatorScreen.calculatorState).(error) = true
  /\ Forall (fun c => c.(error) = false)
       failed_screen.(CalculatorScreen.undoRedo).(useUndoRedo.undoRedo)
         .(useUndoRedo.stack).
Proof.
  split; [vm_compute; reflexivity |].
  apply error_state_is_never_pushed.
  apply (play_reachable checkbook division_by_zero_events
           CalculatorScreen.mounted).
  - apply CalculatorScreen.screen_mounted.
  - exact failed_screen_played.
Defined.

(** C8, as the claim has it, fails.  After 1, ÷, 0, = the session shows the
    division-by-zero error, the error state is not an entry of the undo/redo
    stack, and the first undo restores a state that is not the error state:
    the state after the operator press, with display 1 and no error. *)
Lemma error_state_not_in_history :
  CalculatorScreen.play checkbook division_by_zero_events
    CalculatorScreen.mounted = normal failed_screen
  /\ failed_screen.(CalculatorScreen.calculatorState).(error) = true
  /\ ~ In failed_screen.(CalculatorScreen.calculatorState)
         failed_screen.(CalculatorScreen.undoRedo).(useUndoRedo.undoRedo)
           .(useUndoRedo.stack)
  /\ exists s',
      CalculatorScreen.dispatch checkbook CalculatorScreen.Undo failed_screen
      = normal s'
      /\ s'.(CalculatorScreen.calculatorState)
         <> failed_screen.(CalculatorScreen.calculatorState)
      /\ s'.(CalculatorScreen.calculatorState).(error) = false
      /\ s'.(CalculatorScreen.calculatorState).(display) = "1"%string.
Proof.
  split; [exact failed_screen_played |].
  split; [vm_compute; reflexivity |].
  split.
  - intros I.
    assert (F : forallb (fun c => negb c.(error))
                  failed_screen.(CalculatorScreen.undoRedo)
                    .(useUndoRedo.undoRedo).(useUndoRedo.stack) = true)
      by (vm_compute; reflexivity).
    rewrite forallb_forall in F. specialize (F _ I).
    revert F. vm_compute. discriminate.
  - eexists. split; [vm_compute; reflexivity |].
    split; [vm_compute; discriminate |].
    split; vm_compute; reflexivity.
Qed.


(* ================================================================== *)
(** * Rounding to the mode's decimal places *)
(* ================================================================== *)

Section RoundingFacts.

Lemma pow2_succ k : 0 <= k -> 2 ^ (1 + k) = 2 * 2 ^ k.
Proof. intros H. rewrite Z.pow_add_r by lia. reflexivity. Qed.

(** [floor ((a + h) / 2h)] is the integer nearest to [a / 2h], ties up. *)
Lemma floor_half_up a h :
  0 < h ->
  let n := (a + h) / (2 * h) in
  (2 * n - 1) * h <= a < (2 * n + 1) * h.
Proof.
  intros H n.
  pose proof (Z.div_mod (a + h) (2 * h) ltac:(lia)) as D.
  pose proof (Z.mod_pos_bound (a + h) (2 * h) ltac:(lia)) as B.
  fold n in D. nia.
Qed.

(** Away from an exact tie, rounding [-a / 2h] half up is the opposite of
    rounding [a / 2h] half up. *)
Lemma floor_half_up_opp a h :
  0 < h -> a mod (2 * h) <> h ->
  (- a + h) / (2 * h) = - ((a + h) / (2 * h)).
Proof.
  intros H T.
  pose proof (Z.div_mod (a + h) (2 * h) ltac:(lia)) as D.
  pose proof (Z.mod_pos_bound (a + h) (2 * h) ltac:(lia)) as B.
  set (q := (a + h) / (2 * h)) in *. set (r := (a + h) mod (2 * h)) in *.
  assert (R : r <> 0).
  { intros R0. apply T.
    replace a with (h + (q - 1) * (2 * h)) by lia.
    rewrite Z.mod_add by lia. apply Z.mod_small. lia. }
  symmetry. apply (Z.div_unique _ _ _ (2 * h - r)); lia.
Qed.

Lemma Math_round_nearest v : nearest_integer_ties_up v (Math_round v).
Proof.
  destruct v as [s | s | | s m e]; try reflexivity.
  cbv beta iota delta [nearest_integer_ties_up Math_round].
  destruct (0 <=? e) eqn:E; [reflexivity |].
  apply Z.leb_gt in E.
  exists ((2 * cond_Zopp s (Zpos m) + 2 ^ (- e)) / 2 ^ (1 - e)).
  replace (1 - e) with (1 + (- e)) by lia.
  rewrite pow2_succ by lia.
  pose proof (floor_half_up (2 * cond_Zopp s (Zpos m)) (2 ^ (- e))
                ltac:(apply Z.pow_pos_nonneg; lia)) as H.
  cbv zeta in H. split; [| split]; [lia | lia | reflexivity].
Qed.

Lemma Math_round_away v :
  negative_tie v = false -> Math_round v = round_half_away_from_zero v.
Proof.
  destruct v as [s | s | | s m e]; try reflexivity.
  cbv beta iota delta [Math_round round_half_away_from_zero negative_tie].
  destruct (0 <=? e) eqn:E; [reflexivity |].
  apply Z.leb_gt in E. intros T. f_equal.
  destruct s; unfold cond_Zopp; [| reflexivity].
  apply Z.ltb_lt in E. rewrite E in T.
  rewrite andb_true_l in T. apply Z.eqb_neq in T.
  replace (1 - e) with (1 + (- e)) in * by lia.
  rewrite pow2_succ in * by lia.
  replace (2 * - Z.pos m) with (- (2 * Z.pos m)) by lia.
  apply floor_half_up_opp; [apply Z.pow_pos_nonneg; lia | exact T].
Qed.

End RoundingFacts.

(** C7, as the code has it.  [roundToMode(x, mode)] is [x] scaled by
    [10^d] ([d] is 2 for Checkbook, 8 for Scientific), rounded to the
    nearest integer with a tie going up, towards +Infinity, then divided
    back by [10^d].  It agrees with rounding ties away from zero unless the
    scaled value is a negative exact tie, so in particular for every
    non-negative [x]; [roundToMode(3.145, Checkbook)] is 3.15 and
    [roundToMode(-0.125, Checkbook)] is -0.12. *)
Theorem roundToMode_rounds_ties_up :
  (forall x mode,
      let factor :=
        Math_pow10 (Z.of_nat (CalculatorEngine.decimalPlaces mode)) in
      exists r,
        nearest_integer_ties_up (mul x factor) r
        /\ CalculatorEngine.roundToMode x mode = div r factor)
  /\ (CalculatorEngine.decimalPlaces checkbook = 2%nat
      /\ CalculatorEngine.decimalPlaces scientific = 8%nat)
  /\ (forall x mode,
         negative_tie
           (mul x (Math_pow10
                     (Z.of_nat (CalculatorEngine.decimalPlaces mode))))
         = false ->
         CalculatorEngine.roundToMode x mode
         = roundToMode_half_away_from_zero x mode)
  /\ CalculatorEngine.roundToMode (of_decimal false 3145 (-3)) checkbook
     = of_decimal false 315 (-2)
  /\ CalculatorEngine.roundToMode (of_decimal true 125 (-3)) checkbook
     = of_decimal true 12 (-2).
Proof.
  split; [| split; [| split; [| split]]].
  - intros x mode factor. eexists. split; [apply Math_round_nearest |].
    reflexivity.
  - split; reflexivity.
  - intros x mode T.
    unfold CalculatorEngine.roundToMode, roundToMode_half_away_from_zero.
    rewrite (Math_round_away _ T). reflexivity.
  - vm_compute. reflexivity.
  - vm_compute. reflexivity.
Qed.

Lemma roundToMode_rounds_ties_up_witness :
  CalculatorEngine.roundToMode (of_decimal false 3145 (-3)) checkbook
  = roundToMode_half_away_from_zero (of_decimal false 3145 (-3)) checkbook.
Proof.
  destruct roundToMode_rounds_ties_up as (_ & _ & H & _).
  apply H. vm_compute. reflexivity.
Defined.

(** C7, as the claim has it, fails on a negative tie: -0.125 scaled by 100
    is exactly -12.5, which [Math.round] takes to -12 and rounding away
    from zero takes to -13. *)
Lemma roundToMode_negative_tie_not_away_from_zero :
  mul (of_decimal true 125 (-3)) (Math_pow10 2) = of_decimal true 125 (-1)
  /\ CalculatorEngine.roundToMode (of_decimal true 125 (-3)) checkbook
     = of_decimal true 12 (-2)
  /\ roundToMode_half_away_from_zero (of_decimal true 125 (-3)) checkbook
     = of_decimal true 13 (-2)
  /\ CalculatorEngine.roundToMode (of_decimal true 125 (-3)) checkbook
     <> roundToMode_half_away_from_zero (of_decimal true 125 (-3)) checkbook.
Proof.
  repeat split; try (vm_compute; reflexivity).
  vm_compute. discriminate.
Qed.


(* ================================================================== *)
(** * Correctly rounded division and multiplication, and idempotence *)
(* ================================================================== *)

Section BinaryRounding.

(** ** Number of binary digits *)

Lemma digits2_pos_bounds p :
  2 ^ (Zpos (digits2_pos p) - 1) <= Zpos p < 2 ^ Zpos (digits2_pos p).
Proof.
  induction p as [p IH | p IH |]; cbn [digits2_pos].
  - rewrite Pos2Z.inj_succ.
    replace (Z.succ (Zpos (digits2_pos p)) - 1)
      with (Z.succ (Zpos (digits2_pos p) - 1)) by lia.
    rewrite !Z.pow_succ_r by lia. lia.
  - rewrite Pos2Z.inj_succ.
    replace (Z.succ (Zpos (digits2_pos p)) - 1)
      with (Z.succ (Zpos (digits2_pos p) - 1)) by lia.
    rewrite !Z.pow_succ_r by lia. lia.
  - simpl. lia.
Qed.

Lemma Zdigits2_unique z d :
  0 < d -> 2 ^ (d - 1) <= z < 2 ^ d -> Zdigits2 z = d.
Proof.
  intros D [L H].
  assert (P : 0 < z) by (pose proof (Z.pow_pos_nonneg 2 (d - 1)); lia).
  destruct z as [| p | p]; try lia. cbn [Zdigits2].
  pose proof (digits2_pos_bounds p) as [L' H'].
  set (k := Zpos (digits2_pos p)) in *.
  assert (K : 0 < k) by (subst k; lia).
  destruct (Z.lt_trichotomy k d) as [C | [C | C]]; [| exact C |].
  - assert (2 ^ k <= 2 ^ (d - 1)) by (apply Z.pow_le_mono_r; lia). lia.
  - assert (2 ^ d <= 2 ^ (k - 1)) by (apply Z.pow_le_mono_r; lia). lia.
Qed.

Lemma Zdigits2_bounds z :
  0 < z -> 2 ^ (Zdigits2 z - 1) <= z < 2 ^ Zdigits2 z /\ 0 < Zdigits2 z.
Proof.
  destruct z as [| p | p]; try lia. intros _. cbn [Zdigits2].
  split; [apply digits2_pos_bounds | lia].
Qed.

(** ** Shifting right with round and sticky bits *)


Lemma div_mod_double T U :
  0 < U ->
  T / (2 * U) = T / U / 2
  /\ T mod (2 * U) = T mod U + U * ((T / U) mod 2).
Proof.
  intros H. split.
  - rewrite Z.div_div by lia. f_equal. lia.
  - rewrite (Z.mul_comm 2 U). apply Z.rem_mul_r; lia.
Qed.

Lemma shr_1_located T U mrs :
  0 <= T -> 0 < U -> located T U mrs -> located T (2 * U) (shr_1 mrs).
Proof.
  intros HT HU (M & R & S).
  destruct (div_mod_double T U HU) as [Q E].
  pose proof (Z.mod_pos_bound T U HU) as B.
  assert (P : 0 <= T / U) by (apply Z.div_pos; lia).
  destruct mrs as [m r s]. cbn [shr_m shr_r shr_s] in *.
  unfold located. rewrite Q, E, <- M.
  assert (RS : r || s = negb (T mod U =? 0)).
  { rewrite R, S.
    destruct (Z.leb_spec U (2 * (T mod U)));
      destruct (Z.eqb_spec (T mod U) 0);
      destruct (Z.eqb_spec (2 * (T mod U)) U); simpl; try reflexivity; lia. }
  destruct m as [| [p | p |] | p]; cbn [shr_1 shr_m shr_r shr_s];
    try lia; rewrite RS.
  - (* 0 *)
    change (0 / 2) with 0. change (0 mod 2) with 0.
    split; [reflexivity |]. split.
    + symmetry. apply Z.leb_gt. lia.
    + destruct (Z.eqb_spec (T mod U) 0);
        destruct (Z.eqb_spec (T mod U + U * 0) 0);
        destruct (Z.eqb_spec (2 * (T mod U + U * 0)) (2 * U));
        simpl; try reflexivity; lia.
  - (* 2p+1 *)
    replace (Z.pos p~1 / 2) with (Z.pos p)
      by (apply (Z.div_unique _ _ _ 1); lia).
    replace (Z.pos p~1 mod 2) with 1
      by (apply (Z.mod_unique _ _ (Z.pos p)); lia).
    split; [reflexivity |]. split.
    + symmetry. apply Z.leb_le. lia.
    + destruct (Z.eqb_spec (T mod U) 0);
        destruct (Z.eqb_spec (T mod U + U * 1) 0);
        destruct (Z.eqb_spec (2 * (T mod U + U * 1)) (2 * U));
        simpl; try reflexivity; lia.
  - (* 2p *)
    replace (Z.pos p~0 / 2) with (Z.pos p)
      by (apply (Z.div_unique _ _ _ 0); lia).
    replace (Z.pos p~0 mod 2) with 0
      by (apply (Z.mod_unique _ _ (Z.pos p)); lia).
    split; [reflexivity |]. split.
    + symmetry. apply Z.leb_gt. lia.
    + destruct (Z.eqb_spec (T mod U) 0);
        destruct (Z.eqb_spec (T mod U + U * 0) 0);
        destruct (Z.eqb_spec (2 * (T mod U + U * 0)) (2 * U));
        simpl; try reflexivity; lia.
  - (* 1 *)
    change (1 / 2) with 0. change (1 mod 2) with 1.
    split; [reflexivity |]. split.
    + symmetry. apply Z.leb_le. lia.
    + destruct (Z.eqb_spec (T mod U) 0);
        destruct (Z.eqb_spec (T mod U + U * 1) 0);
        destruct (Z.eqb_spec (2 * (T mod U + U * 1)) (2 * U));
        simpl; try reflexivity; lia.
Qed.

Lemma iter_pos_shr_1_located T p : forall U mrs,
  0 <= T -> 0 < U -> located T U mrs ->
  located T (U * 2 ^ Zpos p) (iter_pos shr_1 p mrs).
Proof.
  induction p as [p IH | p IH |]; intros U mrs HT HU L; cbn [iter_pos].
  - replace (U * 2 ^ Z.pos p~1) with (2 * U * 2 ^ Z.pos p * 2 ^ Z.pos p).
    + apply IH; [lia | | apply IH; [lia | lia | apply shr_1_located; assumption]].
      pose proof (Z.pow_pos_nonneg 2 (Z.pos p)). nia.
    + replace (Z.pos p~1) with (1 + Z.pos p + Z.pos p) by lia.
      rewrite !Z.pow_add_r by lia. change (2 ^ 1) with 2. ring.
  - replace (U * 2 ^ Z.pos p~0) with (U * 2 ^ Z.pos p * 2 ^ Z.pos p).
    + apply IH; [lia | | apply IH; assumption].
      pose proof (Z.pow_pos_nonneg 2 (Z.pos p)). nia.
    + replace (Z.pos p~0) with (Z.pos p + Z.pos p) by lia.
      rewrite !Z.pow_add_r by lia. ring.
  - change (2 ^ 1) with 2. rewrite Z.mul_comm.
    apply shr_1_located; assumption.
Qed.

Lemma shr_located T U mrs e n :
  0 <= T -> 0 < U -> 0 <= n -> located T U mrs ->
  located T (U * 2 ^ n) (fst (shr mrs e n)) /\ snd (shr mrs e n) = e + n.
Proof.
  intros HT HU HN L. destruct n as [| p | p]; try lia; cbn [shr fst snd].
  - rewrite Z.mul_1_r. split; [exact L | lia].
  - split; [apply iter_pos_shr_1_located; assumption | reflexivity].
Qed.


Lemma fexp_binary64 x : fexp prec emax x = Z.max (x - 53) (-1074).
Proof. reflexivity. Qed.

Lemma shr_m_record_of_loc m l : shr_m (shr_record_of_loc m l) = m.
Proof. destruct l as [| []]; reflexivity. Qed.

Lemma exact_located m : 0 <= m -> located m 1 (shr_record_of_loc m loc_Exact).
Proof.
  intros H. unfold located. cbn [shr_record_of_loc shr_m shr_r shr_s].
  rewrite Z.div_1_r, Z.mod_1_r. repeat split.
Qed.

(** Rounding the located quotient to nearest, ties to even. *)
Lemma round_nearest_even_located T U mrs :
  0 <= T -> 0 < U -> located T U mrs ->
  let mr := round_nearest_even (shr_m mrs) (loc_of_shr_record mrs) in
  shr_m mrs <= mr <= shr_m mrs + 1
  /\ Z.abs (2 * (mr * U - T)) <= U
  /\ (T mod U = 0 -> mr = shr_m mrs /\ mr * U = T).
Proof.
  intros HT HU (M & R & S) mr. subst mr.
  pose proof (Z.div_mod T U ltac:(lia)) as D.
  pose proof (Z.mod_pos_bound T U HU) as B.
  destruct mrs as [m r s]. cbn [shr_m shr_r shr_s] in *.
  rewrite <- M in D.
  destruct (Z.leb_spec U (2 * (T mod U)));
    destruct (Z.eqb_spec (T mod U) 0);
    destruct (Z.eqb_spec (2 * (T mod U)) U);
    subst r s; cbn [negb andb loc_of_shr_record round_nearest_even];
    try lia; try nia.
  destruct (Z.even m); nia.
Qed.

Lemma binary_round_aux_located s T U mx ex l :
  0 < T -> 0 < U ->
  located T U (shr_record_of_loc mx l) ->
  53 <= Zdigits2 mx ->
  -1074 <= ex ->
  exists my ey,
    binary_round_aux prec emax s mx ex l
    = (if ey <=? 971 then S754_finite s my ey else S754_infinity s)
    /\ 2 ^ 52 <= Zpos my < 2 ^ 53
    /\ ex + (Zdigits2 mx - 53) <= ey <= ex + (Zdigits2 mx - 53) + 1
    /\ Z.abs (2 * (Zpos my * 2 ^ (ey - ex) * U - T)) <= U * 2 ^ (ey - ex)
    /\ (T mod (U * 2 ^ (Zdigits2 mx - 53)) = 0 ->
        ey = ex + (Zdigits2 mx - 53)
        /\ Zpos my * 2 ^ (Zdigits2 mx - 53) * U = T).
Proof.
  intros HT HU L HD HE.
  assert (MX : mx = T / U).
  { destruct L as (M & _). rewrite shr_m_record_of_loc in M. exact M. }
  assert (HX : 0 < mx).
  { assert (0 <= mx) by (rewrite MX; apply Z.div_pos; lia).
    destruct mx as [| p | p]; cbn in HD; lia. }
  set (d := Zdigits2 mx) in *.
  set (n := d - 53).
  destruct (Zdigits2_bounds mx HX) as [[DL DH] _]. fold d in DL, DH.
  assert (P2n : 0 < 2 ^ n) by (apply Z.pow_pos_nonneg; lia).
  assert (Pd : 2 ^ (d - 1) = 2 ^ 52 * 2 ^ n).
  { rewrite <- Z.pow_add_r by lia. f_equal. lia. }
  assert (Pd' : 2 ^ d = 2 ^ 53 * 2 ^ n).
  { rewrite <- Z.pow_add_r by lia. f_equal. lia. }
  unfold binary_round_aux, shr_fexp.
  fold d. rewrite fexp_binary64.
  replace (Z.max (d + ex - 53) (-1074) - ex) with n by lia.
  destruct (shr_located T U (shr_record_of_loc mx l) ex n
              ltac:(lia) HU ltac:(lia) L) as [L1 E1].
  destruct (shr (shr_record_of_loc mx l) ex n) as [mrs1 e1].
  cbn [fst snd] in L1, E1. subst e1.
  destruct (round_nearest_even_located T (U * 2 ^ n) mrs1
              ltac:(lia) ltac:(nia) L1) as (RB & RE & RX).
  set (mr := round_nearest_even (shr_m mrs1) (loc_of_shr_record mrs1)) in *.
  assert (M1 : 2 ^ 52 <= shr_m mrs1 < 2 ^ 53).
  { destruct L1 as (M1 & _). rewrite M1, <- Z.div_div, <- MX by lia.
    split.
    - apply Z.div_le_lower_bound; lia.
    - apply Z.div_lt_upper_bound; lia. }
  destruct (Z.eq_dec mr (2 ^ 53)) as [C | C].
  - (* the rounding carried into a 54th bit *)
    rewrite C.
    exists (Z.to_pos (2 ^ 52)), (ex + n + 1).
    split; [| split; [change (Z.pos (Z.to_pos (2 ^ 52))) with (2 ^ 52); lia |
                     split; [lia | split]]].
    + change (Zdigits2 (2 ^ 53)) with 54. rewrite fexp_binary64.
      replace (Z.max (54 + (ex + n) - 53) (-1074) - (ex + n)) with 1 by lia.
      reflexivity.
    + change (Z.pos (Z.to_pos (2 ^ 52))) with (2 ^ 52).
      replace (ex + n + 1 - ex) with (1 + n) by lia.
      rewrite Z.pow_add_r by lia. change (2 ^ 1) with 2.
      rewrite C in RE.
      change (2 ^ 53) with (2 ^ 52 * 2) in RE.
      replace (2 ^ 52 * (2 * 2 ^ n) * U) with (2 ^ 52 * 2 * (U * 2 ^ n)) by ring.
      nia.
    + intros X. destruct (RX X) as [X1 _]. lia.
  - assert (MR : 2 ^ 52 <= mr < 2 ^ 53) by lia.
    exists (Z.to_pos mr), (ex + n).
    rewrite Z2Pos.id by lia.
    split; [| split; [lia | split; [lia | split]]].
    + rewrite (Zdigits2_unique mr 53) by (change (53 - 1) with 52; lia).
      rewrite fexp_binary64.
      replace (Z.max (53 + (ex + n) - 53) (-1074) - (ex + n)) with 0 by lia.
      cbn [shr fst snd]. rewrite shr_m_record_of_loc.
      destruct mr as [| p | p]; try lia.
      change (Z.sub emax prec) with 971. reflexivity.
    + replace (ex + n - ex) with n by lia.
      replace (mr * 2 ^ n * U) with (mr * (U * 2 ^ n)) by ring. exact RE.
    + intros X. destruct (RX X) as [_ X2]. split; [reflexivity |].
      rewrite <- X2. ring.
Qed.

(** ** Integers as binary64 numbers *)


Lemma binary_round_integer s (p : positive) :
  (Zpos p < 2 ^ 53 -> binary_round prec emax s p 0 = canonical s (Zpos p))
  /\ (2 ^ 53 <= Zpos p ->
      exists my ey,
        1 <= ey
        /\ binary_round prec emax s p 0
           = if ey <=? 971 then S754_finite s my ey else S754_infinity s).
Proof.
  destruct (Zdigits2_bounds (Zpos p) ltac:(lia)) as [[DL DH] DP].
  set (d := Zdigits2 (Zpos p)) in *.
  unfold binary_round. change (Z.pos (digits2_pos p)) with d.
  rewrite fexp_binary64, Z.add_0_r.
  split; intros H.
  - assert (D : d <= 53).
    { destruct (Z.le_gt_cases d 53) as [C | C]; [exact C |].
      assert (2 ^ 53 <= 2 ^ (d - 1)) by (apply Z.pow_le_mono_r; lia). lia. }
    unfold canonical. fold d.
    assert (SA : shl_align p 0 (Z.max (d - 53) (-1074))
                 = (Z.to_pos (Zpos p * 2 ^ (53 - d)), d - 53)).
    { unfold shl_align. replace (Z.max (d - 53) (-1074) - 0) with (d - 53) by lia.
      destruct (d - 53) as [| q | q] eqn:E; try lia.
      - replace (53 - d) with 0 by lia. rewrite Z.mul_1_r. reflexivity.
      - f_equal; [| lia].
        apply Pos2Z.inj. pose proof (Zpower.shift_pos_correct q p) as SP.
        unfold Zpower.shift_pos in SP. rewrite SP.
        replace (53 - d) with (Zpos q) by lia.
        rewrite Z2Pos.id by (pose proof (Z.pow_pos_nonneg 2 (Zpos q)); nia).
        change (Z.pow_pos 2 q) with (2 ^ Zpos q). ring. }
    rewrite SA.
    set (mz := Zpos p * 2 ^ (53 - d)).
    assert (P2 : 0 < 2 ^ (53 - d)) by (apply Z.pow_pos_nonneg; lia).
    assert (MZ : 2 ^ 52 <= mz < 2 ^ 53).
    { subst mz. split.
      - replace 52 with ((d - 1) + (53 - d)) by lia.
        rewrite Z.pow_add_r by lia. nia.
      - replace 53 with (d + (53 - d)) at 2 by lia.
        rewrite Z.pow_add_r by lia. nia. }
    rewrite Z2Pos.id by lia.
    assert (DZ : Zdigits2 mz = 53)
      by (apply Zdigits2_unique; [lia | change (53 - 1) with 52; lia]).
    destruct (binary_round_aux_located s mz 1 mz (d - 53) loc_Exact)
      as (my & ey & R & MY & EY & _ & X);
      [lia | lia | apply exact_located; lia | lia | lia |].
    rewrite DZ, Z.sub_diag in X, EY.
    destruct X as [X1 X2]; [rewrite Z.mod_1_r; reflexivity |].
    rewrite R. subst ey.
    destruct (Z.leb_spec (d - 53 + 0) 971); [| lia].
    rewrite Z.add_0_r. f_equal.
    apply Pos2Z.inj. rewrite Z2Pos.id by lia. lia.
  - assert (D : 54 <= d).
    { destruct (Z.le_gt_cases 54 d) as [C | C]; [exact C |].
      assert (2 ^ d <= 2 ^ 53) by (apply Z.pow_le_mono_r; lia). lia. }
    assert (SA : shl_align p 0 (Z.max (d - 53) (-1074)) = (p, 0)).
    { unfold shl_align. replace (Z.max (d - 53) (-1074) - 0) with (d - 53) by lia.
      destruct (d - 53) as [| q | q] eqn:E; try lia. reflexivity. }
    rewrite SA.
    destruct (binary_round_aux_located s (Zpos p) 1 (Zpos p) 0 loc_Exact)
      as (my & ey & R & MY & EY & _);
      [lia | lia | apply exact_located; lia | fold d; lia | lia |].
    fold d in EY. exists my, ey. split; [lia | exact R].
Qed.


(** ** Division and multiplication of two normal numbers *)

Lemma new_location_located T U :
  0 <= T -> 0 < U ->
  located T U (shr_record_of_loc (T / U) (new_location U (T mod U))).
Proof.
  intros HT HU. pose proof (Z.mod_pos_bound T U HU) as B.
  unfold located. rewrite shr_m_record_of_loc. split; [reflexivity |].
  unfold new_location, new_location_even, new_location_odd.
  destruct (Z.even U) eqn:EV.
  - destruct (Z.eqb_spec (T mod U) 0) as [Z0 | Z0].
    + cbn [shr_record_of_loc shr_r shr_s negb andb].
      split; [symmetry; apply Z.leb_gt; lia | reflexivity].
    + destruct (Z.compare_spec (2 * (T mod U)) U);
        cbn [shr_record_of_loc shr_r shr_s negb andb];
        destruct (Z.leb_spec U (2 * (T mod U)));
        destruct (Z.eqb_spec (2 * (T mod U)) U);
        try lia; split; reflexivity.
  - assert (OD : Z.odd U = true) by (rewrite <- Z.negb_even, EV; reflexivity).
    apply Z.odd_spec in OD. destruct OD as [u OD].
    destruct (Z.eqb_spec (T mod U) 0) as [Z0 | Z0].
    + cbn [shr_record_of_loc shr_r shr_s negb andb].
      split; [symmetry; apply Z.leb_gt; lia | reflexivity].
    + destruct (Z.compare_spec (2 * (T mod U) + 1) U);
        cbn [shr_record_of_loc shr_r shr_s negb andb];
        destruct (Z.leb_spec U (2 * (T mod U)));
        destruct (Z.eqb_spec (2 * (T mod U)) U);
        try lia; split; reflexivity.
Qed.

Lemma Zdigits2_lower z d : 0 < z -> 2 ^ d <= z -> d + 1 <= Zdigits2 z.
Proof.
  intros P H. destruct (Zdigits2_bounds z P) as [[_ DH] DP].
  destruct (Z.le_gt_cases (d + 1) (Zdigits2 z)) as [C | C]; [exact C |].
  assert (2 ^ Zdigits2 z <= 2 ^ d) by (apply Z.pow_le_mono_r; lia). lia.
Qed.

Lemma Zdigits2_upper z d : 0 < z -> 0 <= d -> z < 2 ^ d -> Zdigits2 z <= d.
Proof.
  intros P D H. destruct (Zdigits2_bounds z P) as [[DL _] DP].
  destruct (Z.le_gt_cases (Zdigits2 z) d) as [C | C]; [exact C |].
  assert (2 ^ d <= 2 ^ (Zdigits2 z - 1)) by (apply Z.pow_le_mono_r; lia). lia.
Qed.

(** The quotient of two numbers with 53-bit mantissas: a normal number
    within half a unit in the last place of the exact quotient. *)
Lemma div_normal s ma ea mf ef :
  2 ^ 52 <= Zpos ma < 2 ^ 53 ->
  2 ^ 52 <= Zpos mf < 2 ^ 53 ->
  -1000 <= ea - ef <= 900 ->
  exists my ey,
    div (S754_finite s ma ea) (S754_finite false mf ef) = S754_finite s my ey
    /\ 2 ^ 52 <= Zpos my < 2 ^ 53
    /\ 0 <= ey - (ea - ef - 53) <= 2
    /\ Z.abs (2 * (Zpos my * 2 ^ (ey - (ea - ef - 53)) * Zpos mf
                   - Zpos ma * 2 ^ 53))
       <= Zpos mf * 2 ^ (ey - (ea - ef - 53)).
Proof.
  intros MA MF EE.
  set (A := Zpos ma * 2 ^ 53).
  assert (CORE : SFdiv_core_binary prec emax (Zpos ma) ea (Zpos mf) ef
                 = (A / Zpos mf, ea - ef - 53,
                    new_location (Zpos mf) (A mod Zpos mf))).
  { unfold SFdiv_core_binary.
    rewrite (Zdigits2_unique (Zpos ma) 53), (Zdigits2_unique (Zpos mf) 53)
      by (change (53 - 1) with 52; lia).
    rewrite fexp_binary64.
    replace (Z.min (Z.max (53 + ea - (53 + ef) - 53) (-1074)) (ea - ef))
      with (ea - ef - 53) by lia.
    replace (ea - ef - (ea - ef - 53)) with 53 by lia.
    change (Z.shiftl (Z.pos ma) 53) with (Z.shiftl (Z.pos ma) (Z.pos 53)).
    rewrite Z.shiftl_mul_pow2 by lia. fold A.
    unfold Z.div, Z.modulo.
    destruct (Z.div_eucl A (Zpos mf)) as [q r]. reflexivity. }
  assert (HA : 2 ^ 105 <= A < 2 ^ 106).
  { subst A. change (2 ^ 105) with (2 ^ 52 * 2 ^ 53).
    change (2 ^ 106) with (2 ^ 53 * 2 ^ 53). lia. }
  assert (Q : 2 ^ 52 <= A / Zpos mf < 2 ^ 54).
  { split.
    - apply Z.div_le_lower_bound; [lia |].
      change (2 ^ 105) with (2 ^ 53 * 2 ^ 52) in HA. nia.
    - apply Z.div_lt_upper_bound; [lia |].
      change (2 ^ 106) with (2 ^ 52 * 2 ^ 54) in HA. nia. }
  assert (DQ : 53 <= Zdigits2 (A / Zpos mf) <= 54).
  { split.
    - apply (Zdigits2_lower _ 52); lia.
    - apply Zdigits2_upper; lia. }
  unfold div, SFdiv. rewrite CORE, xorb_false_r.
  destruct (binary_round_aux_located s A (Zpos mf) (A / Zpos mf)
              (ea - ef - 53) (new_location (Zpos mf) (A mod Zpos mf)))
    as (my & ey & R & MY & EY & B & _);
    [lia | lia | apply new_location_located; lia | lia | lia |].
  exists my, ey. rewrite R.
  destruct (Z.leb_spec ey 971); [| lia].
  split; [reflexivity |]. split; [exact MY |]. split; [lia | exact B].
Qed.

(** The product of two numbers with 53-bit mantissas, when it is normal. *)
Lemma mul_normal s my ey mf ef :
  2 ^ 52 <= Zpos my < 2 ^ 53 ->
  2 ^ 52 <= Zpos mf < 2 ^ 53 ->
  -1000 <= ey + ef <= 800 ->
  exists mw ew,
    mul (S754_finite s my ey) (S754_finite false mf ef) = S754_finite s mw ew
    /\ 2 ^ 52 <= Zpos mw < 2 ^ 53
    /\ 52 <= ew - (ey + ef) <= 54
    /\ Z.abs (2 * (Zpos mw * 2 ^ (ew - (ey + ef)) - Zpos my * Zpos mf))
       <= 2 ^ (ew - (ey + ef)).
Proof.
  intros MY MF EE.
  set (P := Zpos my * Zpos mf).
  assert (HP : 2 ^ 104 <= P < 2 ^ 106).
  { subst P. change (2 ^ 104) with (2 ^ 52 * 2 ^ 52).
    change (2 ^ 106) with (2 ^ 53 * 2 ^ 53). nia. }
  assert (DP : 105 <= Zdigits2 P <= 106).
  { split.
    - apply (Zdigits2_lower _ 104); lia.
    - apply Zdigits2_upper; lia. }
  unfold mul, SFmul. rewrite xorb_false_r.
  change (Z.pos (my * mf)) with P.
  destruct (binary_round_aux_located s P 1 P (ey + ef) loc_Exact)
    as (mw & ew & R & MW & EW & B & _);
    [lia | lia | apply exact_located; lia | lia | lia |].
  exists mw, ew. rewrite R.
  destruct (Z.leb_spec ew 971); [| lia].
  split; [reflexivity |]. split; [exact MW |]. split; [lia |].
  rewrite Z.mul_1_r, Z.mul_1_l in B. exact B.
Qed.


(** ** Scaling an integer down and up again *)

(** Dividing an integer of magnitude below [2^51] by a normal factor and
    multiplying the quotient by the same factor gives a number that
    [Math.round] takes back to the integer. *)
Lemma round_mul_div s N mf ef :
  0 < N < 2 ^ 51 ->
  2 ^ 52 <= Zpos mf < 2 ^ 53 ->
  -100 <= ef <= 0 ->
  let f := S754_finite false mf ef in
  Math_round (mul (div (canonical s N) f) f) = canonical s N.
Proof.
  intros HN MF EF f. subst f.
  destruct (Zdigits2_bounds N ltac:(lia)) as [[DL DH] DP].
  set (d := Zdigits2 N) in *.
  assert (D : d <= 51) by (apply Zdigits2_upper; lia).
  set (ma := N * 2 ^ (53 - d)).
  assert (P2 : 0 < 2 ^ (53 - d)) by (apply Z.pow_pos_nonneg; lia).
  assert (MA : 2 ^ 52 <= ma < 2 ^ 53).
  { subst ma. split.
    - replace 52 with ((d - 1) + (53 - d)) by lia.
      rewrite Z.pow_add_r by lia. nia.
    - replace 53 with (d + (53 - d)) at 2 by lia.
      rewrite Z.pow_add_r by lia. nia. }
  unfold canonical at 1. fold d. fold ma.
  destruct (div_normal s (Z.to_pos ma) (d - 53) mf ef)
    as (my & ey & Y & MY & GY & BY);
    [rewrite Z2Pos.id by lia; exact MA | exact MF | lia |].
  rewrite Z2Pos.id in BY by lia.
  rewrite Y.
  destruct (mul_normal s my ey mf ef MY MF ltac:(lia))
    as (mw & ew & W & MW & HW & BW).
  rewrite W.
  set (g := ey - (d - 53 - ef - 53)) in *.
  set (h := ew - (ey + ef)) in *.
  set (S := 107 - d - g - h).
  assert (S0 : 0 <= S) by (subst S; lia).
  assert (PG : 0 < 2 ^ g) by (apply Z.pow_pos_nonneg; lia).
  assert (PH : 2 ^ 52 <= 2 ^ h) by (apply Z.pow_le_mono_r; lia).
  assert (PS : 0 < 2 ^ S) by (apply Z.pow_pos_nonneg; lia).
  assert (A2 : 2 * (ma * 2 ^ 53) = N * 2 ^ S * (2 ^ g * 2 ^ h)).
  { subst ma. rewrite <- !Z.mul_assoc, <- !Z.pow_add_r by lia.
    replace (S + (g + h)) with (1 + (53 - d + 53)) by (subst S; lia).
    rewrite (Z.pow_add_r 2 1) by lia. change (2 ^ 1) with 2. ring. }
  (* the two rounding errors add up to less than three units *)
  assert (C : Z.abs (2 * Zpos mw - N * 2 ^ S) <= 2).
  { assert (C1 : Z.abs (2 * Zpos mw - N * 2 ^ S) * (2 ^ g * 2 ^ h)
                 < 3 * (2 ^ g * 2 ^ h)).
    { rewrite <- (Z.abs_eq (2 ^ g * 2 ^ h)) at 1 by nia.
      rewrite <- Z.abs_mul.
      assert (EQ : (2 * Zpos mw - N * 2 ^ S) * (2 ^ g * 2 ^ h)
                   = 2 ^ g * (2 * (Zpos mw * 2 ^ h - Zpos my * Zpos mf))
                     + 2 * (Zpos my * 2 ^ g * Zpos mf - ma * 2 ^ 53)).
      { transitivity (2 * Zpos mw * (2 ^ g * 2 ^ h) - 2 * (ma * 2 ^ 53));
          [rewrite A2; ring | ring]. }
      rewrite EQ.
      eapply Z.le_lt_trans; [apply Z.abs_triangle |].
      rewrite Z.abs_mul, (Z.abs_eq (2 ^ g)) by lia.
      assert (2 ^ g * Z.abs (2 * (Zpos mw * 2 ^ h - Zpos my * Zpos mf))
              <= 2 ^ g * 2 ^ h) by (apply Z.mul_le_mono_nonneg_l; lia).
      assert (Zpos mf * 2 ^ g < 2 * (2 ^ g * 2 ^ h)).
      { change (2 ^ 53) with (2 * 2 ^ 52) in MF.
        replace (2 * (2 ^ g * 2 ^ h)) with (2 * 2 ^ h * 2 ^ g) by ring.
        apply Z.mul_lt_mono_pos_r; lia. }
      lia. }
    assert (PGH : 0 < 2 ^ g * 2 ^ h) by (apply Z.mul_pos_pos; lia).
    apply Z.mul_lt_mono_pos_r in C1; [lia | exact PGH]. }
  (* hence the product has at least two fractional bits *)
  assert (S3 : 3 <= S).
  { destruct (Z.le_gt_cases 3 S) as [K | K]; [exact K |].
    assert (2 ^ S <= 2 ^ 2) by (apply Z.pow_le_mono_r; lia).
    change (2 ^ 2) with 4 in *.
    change (2 ^ 52) with (2 * 2 ^ 51) in MW.
    assert (N * 2 ^ S <= (2 ^ 51 - 1) * 4)
      by (apply Z.mul_le_mono_nonneg; lia).
    lia. }
  assert (EW : ew = - (S - 1)) by (subst S g h; lia).
  set (k := S - 1) in *.
  assert (PK : 4 <= 2 ^ k).
  { change 4 with (2 ^ 2). apply Z.pow_le_mono_r; lia. }
  assert (SK : 2 ^ S = 2 * 2 ^ k).
  { replace S with (1 + k) by (subst k; lia).
    rewrite Z.pow_add_r by lia. reflexivity. }
  rewrite SK in C.
  unfold Math_round. rewrite EW.
  destruct (Z.leb_spec 0 (- k)); [lia |].
  replace (- - k) with k by lia.
  replace (1 - - k) with (1 + k) by lia.
  rewrite (Z.pow_add_r 2 1 k) by lia. change (2 ^ 1) with 2.
  destruct (binary_round_integer s (Z.to_pos N)) as [BR _].
  rewrite Z2Pos.id in BR by lia.
  assert (N53 : N < 2 ^ 53).
  { change (2 ^ 53) with (4 * 2 ^ 51). lia. }
  destruct s; unfold cond_Zopp.
  - replace ((2 * - Zpos mw + 2 ^ k) / (2 * 2 ^ k)) with (- N).
    + destruct N as [| n | n]; try lia. cbn [Z.opp binary_normalize].
      rewrite <- BR by exact N53. rewrite Pos2Z.id. reflexivity.
    + apply (Z.div_unique _ _ _ (2 * - Zpos mw + 2 ^ k + N * (2 * 2 ^ k))); lia.
  - replace ((2 * Zpos mw + 2 ^ k) / (2 * 2 ^ k)) with N.
    + destruct N as [| n | n]; try lia. cbn [binary_normalize].
      rewrite <- BR by exact N53. rewrite Pos2Z.id. reflexivity.
    + apply (Z.div_unique _ _ _ (2 * Zpos mw + 2 ^ k - N * (2 * 2 ^ k))); lia.
Qed.

End BinaryRounding.

Section IdempotenceFacts.

Lemma of_Z_2_51 :
  Num.of_Z (2 ^ 51) = S754_finite false 4503599627370496 (-1).
Proof. vm_compute. reflexivity. Qed.

Lemma not_below_2_51 (m : positive) (e : Z) :
  0 <= e -> gt (Num.of_Z (2 ^ 51)) (S754_finite false m e) = false.
Proof.
  intros H. rewrite of_Z_2_51.
  unfold gt, SFltb, SFcompare.
  destruct (Z.compare_spec e (-1)); try lia; reflexivity.
Qed.

Lemma gt_finite m1 e1 m2 e2 :
  gt (S754_finite false m1 e1) (S754_finite false m2 e2) = true ->
  e2 < e1 \/ (e2 = e1 /\ Zpos m2 < Zpos m1).
Proof.
  unfold gt, SFltb, SFcompare. rewrite Pos.compare_cont_spec.
  destruct (Z.compare_spec e2 e1) as [E | E | E]; try discriminate.
  - destruct (Pos.compare_spec m2 m1) as [K | K | K];
      cbn [Pos.switch_Eq]; try discriminate.
    intros _. right. split; [exact E | apply Pos2Z.pos_lt_pos, K].
  - intros _. left. exact E.
Qed.

(** An integer whose binary64 form is below [2^51] is below [2^51], and
    its binary64 form is the canonical one. *)
Lemma binary_round_below s (p : positive) :
  gt (Num.of_Z (2 ^ 51)) (Math_abs (binary_round prec emax s p 0)) = true ->
  Zpos p < 2 ^ 51
  /\ binary_round prec emax s p 0 = canonical s (Zpos p).
Proof.
  intros H. destruct (binary_round_integer s p) as [SM LG].
  destruct (Z.lt_ge_cases (Zpos p) (2 ^ 53)) as [C | C].
  - specialize (SM C). split; [| exact SM].
    rewrite SM, of_Z_2_51 in H. unfold canonical in H.
    cbn [Math_abs SFabs] in H. apply gt_finite in H.
    destruct (Zdigits2_bounds (Zpos p) ltac:(lia)) as [[DL DH] DP].
    set (d := Zdigits2 (Zpos p)) in *.
    destruct H as [H | [H1 H2]].
    + assert (2 ^ d <= 2 ^ 51) by (apply Z.pow_le_mono_r; lia). lia.
    + assert (E : 53 - d = 1) by lia. rewrite E in H2.
      rewrite Z2Pos.id in H2 by lia.
      change (2 ^ 1) with 2 in H2.
      change (2 ^ 51) with 2251799813685248. lia.
  - destruct (LG C) as (my & ey & EY & R). rewrite R in H.
    destruct (ey <=? 971).
    + cbn [Math_abs SFabs] in H. rewrite not_below_2_51 in H by lia.
      discriminate.
    + rewrite of_Z_2_51 in H. discriminate H.
Qed.

Lemma factor_normal mode :
  exists mf ef,
    Math_pow10 (Z.of_nat (CalculatorEngine.decimalPlaces mode))
    = S754_finite false mf ef
    /\ 2 ^ 52 <= Zpos mf < 2 ^ 53 /\ -100 <= ef <= 0.
Proof.
  destruct mode; eexists; eexists; (split; [vm_compute; reflexivity |]);
    vm_compute; repeat split; discriminate.
Qed.

End IdempotenceFacts.

(** C9, as the code has it.  [roundToMode] is idempotent at every [x]
    whose scaled and rounded value [Math.round(x * 10^d)] is below [2^51]
    in absolute value: there [roundToMode(roundToMode(x, mode), mode)] is
    [roundToMode(x, mode)]. *)
Theorem roundToMode_idempotent_below_2_51 :
  forall (x : number) (mode : CalculatorMode),
    gt (Num.of_Z (2 ^ 51))
       (Math_abs
          (Math_round
             (mul x (Math_pow10
                       (Z.of_nat (CalculatorEngine.decimalPlaces mode))))))
    = true ->
    CalculatorEngine.roundToMode (CalculatorEngine.roundToMode x mode) mode
    = CalculatorEngine.roundToMode x mode.
Proof.
  intros x mode H.
  destruct (factor_normal mode) as (mf & ef & F & MF & EF).
  unfold CalculatorEngine.roundToMode. rewrite F in *.
  set (f := S754_finite false mf ef) in *.
  assert (Z0 : forall s, div (Math_round (mul (div (S754_zero s) f) f)) f
                         = div (S754_zero s) f)
    by (intros []; reflexivity).
  assert (K : forall s N, 0 < N < 2 ^ 51 ->
              div (Math_round (mul (div (canonical s N) f) f)) f
              = div (canonical s N) f).
  { intros s N HN. subst f. rewrite round_mul_div; [reflexivity | | |];
      assumption. }
  destruct (mul x f) as [s | s | | s m e] eqn:X.
  - cbn [Math_round]. apply Z0.
  - cbn [Math_round Math_abs SFabs] in H. rewrite of_Z_2_51 in H.
    discriminate H.
  - cbn [Math_round Math_abs SFabs] in H. rewrite of_Z_2_51 in H.
    discriminate H.
  - unfold Math_round in *.
    destruct (Z.leb_spec 0 e) as [E | E].
    + cbn [Math_abs SFabs] in H. rewrite not_below_2_51 in H by lia.
      discriminate.
    + destruct ((2 * cond_Zopp s (Z.pos m) + 2 ^ (- e)) / 2 ^ (1 - e))
        as [| p | p]; cbn [binary_normalize] in *.
      * apply Z0.
      * destruct (binary_round_below false p H) as [B R].
        rewrite R. apply K. lia.
      * destruct (binary_round_below true p H) as [B R].
        rewrite R. apply K. lia.
Qed.

Lemma roundToMode_idempotent_below_2_51_witness :
  CalculatorEngine.roundToMode
    (CalculatorEngine.roundToMode (of_decimal false 3145 (-3)) checkbook)
    checkbook
  = CalculatorEngine.roundToMode (of_decimal false 3145 (-3)) checkbook.
Proof.
  apply roundToMode_idempotent_below_2_51.
  vm_compute. reflexivity.
Defined.

(** C9, as the claim has it, fails for finite values in both modes.  In
    Scientific mode 40544286.283962116 rounds to 40544286.28396212, which
    rounds again to 40544286.28396213; in Checkbook mode 44532923943253.266
    rounds to 44532923943253.27, which rounds again to 44532923943253.28. *)
Lemma roundToMode_not_idempotent :
  (let x := of_decimal false 40544286283962116 (-9) in
   is_finite x = true
   /\ CalculatorEngine.roundToMode x scientific
      = of_decimal false 4054428628396212 (-8)
   /\ CalculatorEngine.roundToMode
        (CalculatorEngine.roundToMode x scientific) scientific
      = of_decimal false 4054428628396213 (-8)
   /\ CalculatorEngine.roundToMode
        (CalculatorEngine.roundToMode x scientific) scientific
      <> CalculatorEngine.roundToMode x scientific)
  /\ (let x := of_decimal false 44532923943253266 (-3) in
      is_finite x = true
      /\ CalculatorEngine.roundToMode x checkbook
         = of_decimal false 4453292394325327 (-2)
      /\ CalculatorEngine.roundToMode
           (CalculatorEngine.roundToMode x checkbook) checkbook
         = of_decimal false 4453292394325328 (-2)
      /\ CalculatorEngine.roundToMode
           (CalculatorEngine.roundToMode x checkbook) checkbook
         <> CalculatorEngine.roundToMode x checkbook).
Proof.
  split; cbv zeta; repeat split; try (vm_compute; reflexivity);
    vm_compute; discriminate.
Qed.

(* ================================================================== *)
(** * Further properties of the undo/redo history *)
(* ================================================================== *)

Section HistoryRoundTrips.

Import useUndoRedo.

Lemma eta_UndoRedoState u :
  {| stack := u.(stack); currentIndex := u.(currentIndex) |} = u.
Proof. destruct u; reflexivity. Qed.

Lemma canUndo_positive m : canUndo m = true <-> 0 < m.(undoRedo).(currentIndex).
Proof. unfold canUndo. apply Z.ltb_lt. Qed.

Lemma canRedo_below m :
  canRedo m = true
  <-> m.(undoRedo).(currentIndex) < size m.(undoRedo) - 1.
Proof. unfold canRedo, size. apply Z.ltb_lt. Qed.

Lemma lastn_short {A : Type} (n : nat) (l : list A) :
  (List.length l <= n)%nat -> lastn n l = l.
Proof.
  intros H. unfold lastn.
  replace (List.length l - n)%nat with 0%nat by lia. reflexivity.
Qed.

Lemma lastn_length {A : Type} (n : nat) (l : list A) :
  List.length (lastn n l) = Nat.min n (List.length l).
Proof. unfold lastn. rewrite length_skipn. lia. Qed.

Lemma skipn_length_plus {A : Type} (a r : list A) (k : nat) :
  skipn (List.length a + k) (a ++ r) = skipn k r.
Proof. induction a as [| x a IH]; [reflexivity | exact IH]. Qed.

Lemma lastn_app {A : Type} (n : nat) (l l' : list A) :
  lastn n (lastn n l ++ l') = lastn n (l ++ l').
Proof.
  destruct (Nat.le_gt_cases (List.length l) n) as [H | H].
  - rewrite (lastn_short n l H). reflexivity.
  - assert (S : exists a b, l = a ++ b /\ List.length b = n /\ lastn n l = b).
    { exists (firstn (List.length l - n) l), (skipn (List.length l - n) l).
      split; [symmetry; apply firstn_skipn |].
      split; [rewrite length_skipn; lia | reflexivity]. }
    destruct S as (a & b & -> & Lb & ->).
    rewrite <- app_assoc. unfold lastn. rewrite !length_app, Lb.
    replace (List.length a + (n + List.length l') - n)%nat
      with (List.length a + (List.length l'))%nat by lia.
    replace (n + List.length l' - n)%nat with (List.length l') by lia.
    symmetry. apply skipn_length_plus.
Qed.

Lemma lastn_snoc_room {A : Type} (n : nat) (l : list A) (x : A) :
  (List.length l < n)%nat -> lastn n (l ++ [x]) = l ++ [x].
Proof.
  intros H. apply lastn_short. rewrite length_app. simpl. lia.
Qed.

Lemma lastn_snoc_full {A : Type} (n : nat) (l : list A) (x : A) :
  List.length l = n -> (0 < n)%nat -> lastn n (l ++ [x]) = tl l ++ [x].
Proof.
  intros H Hn. unfold lastn. rewrite length_app. simpl.
  replace (List.length l + 1 - n)%nat with 1%nat by lia.
  destruct l as [| a l]; [simpl in H; lia |]. reflexivity.
Qed.

(** A push onto a history whose current entry is the last one keeps the
    last twenty of the entries followed by the new state. *)
Lemma push_window s u :
  well_formed u ->
  u.(currentIndex) = size u - 1 ->
  stack (push s u)
  = lastn (Z.to_nat UNDO_REDO_STACK_SIZE) (u.(stack) ++ [s])
  /\ well_formed (push s u)
  /\ currentIndex (push s u) = size (push s u) - 1.
Proof.
  intros W T.
  pose proof (push_from_capped s u (well_formed_capped u W)) as (Hs & Hi & Hz).
  pose proof (push_well_formed s u (well_formed_capped u W)) as W'.
  split; [| split; assumption].
  rewrite Hs. destruct W as [[B1 B2] B3]. unfold size in *.
  assert (K : firstn (Z.to_nat (currentIndex u + 1)) (stack u) = stack u).
  { apply firstn_all2. lia. }
  rewrite K. unfold UNDO_REDO_STACK_SIZE in *.
  destruct (20 <? currentIndex u + 2) eqn:E.
  - apply Z.ltb_lt in E. symmetry. apply lastn_snoc_full; lia.
  - apply Z.ltb_ge in E. symmetry. apply lastn_snoc_room. lia.
Qed.

Lemma pushAll_window sts : forall m,
  well_formed m.(undoRedo) ->
  m.(undoRedo).(currentIndex) = size m.(undoRedo) - 1 ->
  stack (undoRedo (pushAll sts m))
  = lastn (Z.to_nat UNDO_REDO_STACK_SIZE) (m.(undoRedo).(stack) ++ sts)
  /\ currentIndex (undoRedo (pushAll sts m))
     = size (undoRedo (pushAll sts m)) - 1.
Proof.
  induction sts as [| s sts IH]; intros m W T.
  - unfold pushAll. cbn [fold_left]. rewrite app_nil_r. split; [| exact T].
    symmetry. apply lastn_short. destruct W as [_ W].
    unfold size, UNDO_REDO_STACK_SIZE in *. lia.
  - destruct (push_window s m.(undoRedo) W T) as (Hs & W' & T').
    change (pushAll (s :: sts) m) with (pushAll sts (pushState s m)).
    destruct (IH (pushState s m) W' T') as [IH1 IH2].
    split; [| exact IH2].
    rewrite IH1. cbn [pushState undoRedo]. rewrite Hs.
    rewrite lastn_app. rewrite <- app_assoc. reflexivity.
Qed.

End HistoryRoundTrips.

(** X1.  Redo undoes undo and undo undoes redo.  On a history whose
    current position is a position of the stack, an undo that is possible
    hands over the entry below the current one, and the redo that follows
    hands over the entry that was current and leaves the stack and the
    position as they were before the undo; symmetrically for a redo
    followed by an undo. *)
Theorem undo_redo_inverse :
  (forall m : useUndoRedo.Manager,
      in_bounds m.(useUndoRedo.undoRedo) ->
      useUndoRedo.canUndo m = true ->
      exists m1 m2 below current,
        useUndoRedo.undo m = normal (m1, Some below)
        /\ useUndoRedo.redo m1 = normal (m2, Some current)
        /\ useUndoRedo.at_index m.(useUndoRedo.undoRedo).(useUndoRedo.stack)
             (m.(useUndoRedo.undoRedo).(useUndoRedo.currentIndex) - 1)
           = Some below
        /\ useUndoRedo.at_index m.(useUndoRedo.undoRedo).(useUndoRedo.stack)
             m.(useUndoRedo.undoRedo).(useUndoRedo.currentIndex)
           = Some current
        /\ m2.(useUndoRedo.undoRedo) = m.(useUndoRedo.undoRedo))
  /\ (forall m : useUndoRedo.Manager,
         in_bounds m.(useUndoRedo.undoRedo) ->
         useUndoRedo.canRedo m = true ->
         exists m1 m2 above current,
           useUndoRedo.redo m = normal (m1, Some above)
           /\ useUndoRedo.undo m1 = normal (m2, Some current)
           /\ useUndoRedo.at_index
                m.(useUndoRedo.undoRedo).(useUndoRedo.stack)
                (m.(useUndoRedo.undoRedo).(useUndoRedo.currentIndex) + 1)
              = Some above
           /\ useUndoRedo.at_index
                m.(useUndoRedo.undoRedo).(useUndoRedo.stack)
                m.(useUndoRedo.undoRedo).(useUndoRedo.currentIndex)
              = Some current
           /\ m2.(useUndoRedo.undoRedo) = m.(useUndoRedo.undoRedo)).
Proof.
  split; intros m B C.
  - destruct (undo_steps m B C) as (below & fb & Ha & Hu).
    apply canUndo_positive in C.
    set (m1 := {| useUndoRedo.undoRedo :=
                    {| useUndoRedo.stack :=
                         m.(useUndoRedo.undoRedo).(useUndoRedo.stack);
                       useUndoRedo.currentIndex :=
                         m.(useUndoRedo.undoRedo).(useUndoRedo.currentIndex) - 1 |};
                  useUndoRedo.feedback := Some fb |}) in *.
    assert (B1 : in_bounds m1.(useUndoRedo.undoRedo)).
    { unfold in_bounds, size in *. subst m1. cbn. lia. }
    assert (C1 : useUndoRedo.canRedo m1 = true).
    { apply canRedo_below. unfold in_bounds, size in *. subst m1. cbn. lia. }
    destruct (redo_steps m1 B1 C1) as (current & fb' & Ha' & Hr).
    eexists m1, _, below, current.
    split; [exact Hu |]. split; [exact Hr |]. split; [exact Ha |].
    subst m1. cbn [useUndoRedo.undoRedo useUndoRedo.stack
                   useUndoRedo.currentIndex] in *.
    replace (useUndoRedo.currentIndex (useUndoRedo.undoRedo m) - 1 + 1)
      with (useUndoRedo.currentIndex (useUndoRedo.undoRedo m)) in * by lia.
    split; [exact Ha' |]. apply eta_UndoRedoState.
  - destruct (redo_steps m B C) as (above & fb & Ha & Hr).
    apply canRedo_below in C.
    set (m1 := {| useUndoRedo.undoRedo :=
                    {| useUndoRedo.stack :=
                         m.(useUndoRedo.undoRedo).(useUndoRedo.stack);
                       useUndoRedo.currentIndex :=
                         m.(useUndoRedo.undoRedo).(useUndoRedo.currentIndex) + 1 |};
                  useUndoRedo.feedback := Some fb |}) in *.
    assert (B1 : in_bounds m1.(useUndoRedo.undoRedo)).
    { unfold in_bounds, size in *. subst m1. cbn. lia. }
    assert (C1 : useUndoRedo.canUndo m1 = true).
    { apply canUndo_positive. unfold in_bounds, size in *. subst m1. cbn. lia. }
    destruct (undo_steps m1 B1 C1) as (current & fb' & Ha' & Hu).
    eexists m1, _, above, current.
    split; [exact Hr |]. split; [exact Hu |]. split; [exact Ha |].
    subst m1. cbn [useUndoRedo.undoRedo useUndoRedo.stack
                   useUndoRedo.currentIndex] in *.
    replace (useUndoRedo.currentIndex (useUndoRedo.undoRedo m) + 1 - 1)
      with (useUndoRedo.currentIndex (useUndoRedo.undoRedo m)) in * by lia.
    split; [exact Ha' |]. apply eta_UndoRedoState.
Qed.

Lemma undo_redo_inverse_witness :
  exists m1 m2 below current,
    useUndoRedo.undo (two_entries INITIAL_STATE (Session.set_display "5" INITIAL_STATE))
    = normal (m1, Some below)
    /\ useUndoRedo.redo m1 = normal (m2, Some current)
    /\ below = INITIAL_STATE
    /\ current = Session.set_display "5" INITIAL_STATE
    /\ m2.(useUndoRedo.undoRedo)
       = (two_entries INITIAL_STATE (Session.set_display "5" INITIAL_STATE))
           .(useUndoRedo.undoRedo).
Proof.
  destruct (proj1 undo_redo_inverse
              (two_entries INITIAL_STATE (Session.set_display "5" INITIAL_STATE)))
    as (m1 & m2 & below & current & H1 & H2 & H3 & H4 & H5).
  - unfold in_bounds, size. vm_compute. split; [discriminate | reflexivity].
  - reflexivity.
  - exists m1, m2, below, current.
    split; [exact H1 |]. split; [exact H2 |].
    split; [| split; [| exact H5]].
    + enough (E : Some below = Some INITIAL_STATE) by (injection E; trivial).
      rewrite <- H3. reflexivity.
    + enough (E : Some current = Some (Session.set_display "5" INITIAL_STATE))
        by (injection E; trivial).
      rewrite <- H4. reflexivity.
Defined.

(** X2.  The history is a sliding window.  After any states are pushed
    onto a fresh manager, its stack holds the last twenty of the initial
    state followed by the pushed states, in order, and the current entry is
    the last one pushed. *)
Theorem pushState_keeps_last_twenty :
  forall (initialState : CalculatorState) (states : list CalculatorState),
    let m := pushAll states (useUndoRedo.init initialState) in
    m.(useUndoRedo.undoRedo).(useUndoRedo.stack)
    = lastn 20 (initialState :: states)
    /\ m.(useUndoRedo.undoRedo).(useUndoRedo.currentIndex)
       = Z.of_nat (List.length (lastn 20 (initialState :: states))) - 1
    /\ useUndoRedo.at_index m.(useUndoRedo.undoRedo).(useUndoRedo.stack)
         m.(useUndoRedo.undoRedo).(useUndoRedo.currentIndex)
       = Some (last states initialState).
Proof.
  intros initialState states m.
  destruct (pushAll_window states (useUndoRedo.init initialState)
              (init_well_formed initialState) eq_refl) as [Hs Hi].
  fold m in Hs, Hi.
  change (Z.to_nat UNDO_REDO_STACK_SIZE) with 20%nat in Hs.
  cbn [useUndoRedo.init useUndoRedo.undoRedo useUndoRedo.stack app] in Hs.
  split; [exact Hs |].
  unfold size in Hi. rewrite Hs in Hi. split; [exact Hi |].
  rewrite Hi, Hs.
  set (l := initialState :: states).
  assert (Hl : last states initialState = last l initialState).
  { unfold l. clear. destruct states; reflexivity. }
  rewrite Hl.
  assert (Hn : l <> []) by (unfold l; discriminate).
  destruct (exists_last Hn) as (pre & x & Hx). rewrite Hx.
  rewrite last_last.
  assert (E : lastn 20 (pre ++ [x]) = lastn 19 pre ++ [x]).
  { unfold lastn. rewrite length_app. cbn [List.length].
    destruct (Nat.le_gt_cases (List.length pre) 19) as [H | H].
    - replace (List.length pre + 1 - 20)%nat with 0%nat by lia.
      replace (List.length pre - 19)%nat with 0%nat by lia. reflexivity.
    - replace (List.length pre + 1 - 20)%nat
        with (List.length pre - 19)%nat by lia.
      rewrite skipn_app.
      replace (List.length pre - 19 - List.length pre)%nat with 0%nat by lia.
      reflexivity. }
  rewrite E. rewrite length_app. cbn [List.length].
  replace (Z.of_nat (List.length (lastn 19 pre) + 1) - 1)
    with (Z.of_nat (List.length (lastn 19 pre))) by lia.
  apply at_index_middle.
Qed.

(* ================================================================== *)
(** * Further properties of the engine and of the session handlers *)
(* ================================================================== *)

Ltac fields :=
  unfold Session.set_display, Session.handleClear, Session.handleAllClear,
    CalculatorScreen.handleClear, CalculatorScreen.handleAllClear,
    CalculatorScreen.INITIAL_CALCULATOR_STATE, INITIAL_STATE in *;
  cbn [display expression previousValue operation waitingForOperand
       error errorMessage] in *.

Ltac consistency :=
  solve [ repeat split; intros; fields;
          repeat match goal with
                 | H : ?x = _ |- context [?x] => rewrite H
                 end;
          try discriminate; try congruence; try tauto; auto ].

Section SessionFacts.

Local Open Scope string_scope.

Lemma calculate_outcomes a operation b mode :
  let r := CalculatorEngine.calculate a operation b mode in
  r = CalculatorEngine.divideByZero
  \/ r = CalculatorEngine.tooLarge
  \/ (r.(CalculatorEngine.error) = false
      /\ r.(CalculatorEngine.errorMessage) = ""
      /\ gt (Math_abs r.(CalculatorEngine.result)) MAX_VALUE = false).
Proof.
  destruct operation as [op |]; cbv zeta.
  - destruct (CalculatorEngine.dispatch a op b) as [early | raw] eqn:D.
    + left. exact (calculate_early a op b mode early D).
    + rewrite (calculate_raw a op b mode raw D).
      destruct (gt (Math_abs (CalculatorEngine.roundToMode raw mode)) MAX_VALUE)
        eqn:G.
      * right. left. reflexivity.
      * right. right. cbn. auto.
  - right. right. repeat split.
Qed.

Lemma calculate_error_message a operation b mode :
  (CalculatorEngine.calculate a operation b mode).(CalculatorEngine.error)
  = true ->
  (CalculatorEngine.calculate a operation b mode).(CalculatorEngine.errorMessage)
  = CalculatorEngine.divideByZero.(CalculatorEngine.errorMessage)
  \/ (CalculatorEngine.calculate a operation b mode).(CalculatorEngine.errorMessage)
     = CalculatorEngine.tooLarge.(CalculatorEngine.errorMessage).
Proof.
  intros E.
  destruct (calculate_outcomes a operation b mode) as [H | [H | (H & _)]].
  - left. rewrite H. reflexivity.
  - right. rewrite H. reflexivity.
  - congruence.
Qed.

Lemma includes_snoc_dot (d : string) : Str.includes (d ++ ".") "." = true.
Proof.
  unfold Str.includes.
  enough (H : exists n, index 0 "." (d ++ ".") = Some n)
    by (destruct H as [n ->]; reflexivity).
  induction d as [| c d IH].
  - exists 0%nat. vm_compute. reflexivity.
  - destruct IH as [n IH]. cbn [append index].
    destruct (prefix "." (String c (d ++ "."))).
    + eexists. reflexivity.
    + rewrite IH. eexists. reflexivity.
Qed.

Lemma list_ascii_of_string_app (a b : string) :
  list_ascii_of_string (a ++ b)
  = (list_ascii_of_string a ++ list_ascii_of_string b)%list.
Proof.
  induction a as [| c a IH]; [reflexivity |].
  cbn [append list_ascii_of_string]. rewrite IH. reflexivity.
Qed.

(** Dropping the last character of a string that ends with a one-byte
    character. *)
Lemma slice_0_m1_snoc (s : string) (c : ascii) :
  Str.is_continuation c = false ->
  Str.slice_0_m1 (s ++ String c "") = s.
Proof.
  intros H. unfold Str.slice_0_m1.
  rewrite list_ascii_of_string_app. cbn [list_ascii_of_string].
  rewrite rev_app_distr. cbn [rev app Str.drop_first_char].
  rewrite H, rev_involutive.
  apply string_of_list_ascii_of_string.
Qed.

Lemma append_nonempty_l (a b : string) : a <> "" -> a ++ b <> "".
Proof. destruct a; [congruence | discriminate]. Qed.

Lemma eqb_false_of_neq (a b : string) : a <> b -> String.eqb a b = false.
Proof. intros H. apply String.eqb_neq. exact H. Qed.

Lemma handle_consistent mode i s :
  session_consistent s -> session_consistent (CalculatorScreen.handle mode i s).
Proof.
  intros (Hop & Hmsg & Herr).
  assert (I0 : session_consistent INITIAL_STATE).
  { consistency. }
  destruct i; cbn [CalculatorScreen.handle].
  - (* digit *)
    unfold CalculatorScreen.handleNumberPress.
    destruct (error s) eqn:E.
    + consistency.
    + destruct (waitingForOperand s) eqn:W.
      * consistency.
      * match goal with |- session_consistent (if ?c then _ else _) =>
          destruct c end.
        -- consistency.
        -- consistency.
  - (* decimal *)
    unfold CalculatorScreen.handleDecimal, Session.handleDecimal.
    destruct (error s) eqn:E.
    + consistency.
    + destruct (waitingForOperand s) eqn:W.
      * consistency.
      * destruct (Str.includes (display s) ".").
        -- consistency.
        -- consistency.
  - (* sign *)
    unfold CalculatorScreen.handleNegative, Session.handleNegative.
    destruct (error s) eqn:E.
    + consistency.
    + consistency.
  - (* operator *)
    unfold CalculatorScreen.handleOperatorPress, Session.handleOperatorPress.
    destruct (error s) eqn:E; [consistency |].
    destruct (previousValue s) as [previous |] eqn:P;
      [destruct (operation s) as [o |] eqn:O;
       [destruct (waitingForOperand s) eqn:W |] |];
      try (consistency).
    destruct (CalculatorEngine.error
                (CalculatorEngine.calculate previous (Some o)
                   (CalculatorEngine.getDisplayValue (display s)) mode)) eqn:R.
    + repeat split; intros; fields; try congruence.
      apply calculate_error_message. exact R.
    + consistency.
  - (* equals *)
    unfold CalculatorScreen.handleEquals, Session.handleEquals.
    destruct (error s) eqn:E; [consistency |].
    destruct (operation s) as [o |] eqn:O;
      [destruct (previousValue s) as [previous |] eqn:P |];
      try (consistency);
      try (exfalso; apply Hop; [discriminate | reflexivity]).
    destruct (CalculatorEngine.error
                (CalculatorEngine.calculate previous (Some o)
                   (CalculatorEngine.getDisplayValue (display s)) mode)) eqn:R.
    + repeat split; intros; fields; try congruence.
      apply calculate_error_message. exact R.
    + consistency.
  - (* backspace *)
    unfold CalculatorScreen.handleBackspace, Session.handleBackspace.
    destruct (error s || waitingForOperand s); [consistency |].
    consistency.
  - (* clear *)
    consistency.
  - (* all clear *)
    exact I0.
Qed.

Lemma handleEquals_nothing_pending mode s :
  error s = true \/ operation s = None \/ previousValue s = None ->
  Session.handleEquals mode s = s.
Proof.
  intros H. unfold Session.handleEquals.
  destruct (error s); [reflexivity |].
  destruct (operation s); [| reflexivity].
  destruct (previousValue s); [| reflexivity].
  destruct H as [H | [H | H]]; discriminate H.
Qed.

End SessionFacts.

(** X3.  The engine reports two failures only.  Whatever the operands, the
    operation and the mode, [calculate] returns the divide-by-zero outcome,
    the too-large outcome, or a success whose message is empty and whose
    result is not above 999,999,999.99 in absolute value; an error always
    comes with the result 0, and the message of the [catch] branch is never
    returned. *)
Theorem calculate_reports_two_failures_only :
  forall (a b : number) (operation : Operation) (mode : CalculatorMode),
    let r := CalculatorEngine.calculate a operation b mode in
    (r = CalculatorEngine.divideByZero
     \/ r = CalculatorEngine.tooLarge
     \/ (r.(CalculatorEngine.error) = false
         /\ r.(CalculatorEngine.errorMessage) = ""%string
         /\ gt (Math_abs r.(CalculatorEngine.result)) MAX_VALUE = false))
    /\ (r.(CalculatorEngine.error) = true -> r.(CalculatorEngine.result) = zero)
    /\ r <> CalculatorEngine.computationFailed.
Proof.
  intros a b operation mode r.
  pose proof (calculate_outcomes a operation b mode) as H.
  fold r in H. split; [exact H |]. split.
  - intros E. destruct H as [H | [H | (H & _)]].
    + rewrite H. reflexivity.
    + rewrite H. reflexivity.
    + congruence.
  - intros C. destruct H as [H | [H | (H & _)]].
    + rewrite H in C. discriminate C.
    + rewrite H in C. discriminate C.
    + rewrite C in H. discriminate H.
Qed.

Lemma calculate_reports_two_failures_only_witness :
  CalculatorEngine.result
    (CalculatorEngine.calculate (Num.of_Z 999999999) (Some Plus) (Num.of_Z 1)
       checkbook) = zero.
Proof.
  apply (calculate_reports_two_failures_only (Num.of_Z 999999999) (Num.of_Z 1)
           (Some Plus) checkbook).
  vm_compute. reflexivity.
Defined.

(** X4.  [getDisplayValue] is [parseFloat] with NaN replaced by 0: it never
    returns NaN, it is 0 on every text [parseFloat] cannot read, the empty
    text and a lone minus sign among them, and it is the parsed number on
    every text [isValidNumber] accepts. *)
Theorem getDisplayValue_is_parseFloat_or_zero :
  forall displayStr : string,
    CalculatorEngine.getDisplayValue displayStr
    = (if isNaN (Str.parseFloat displayStr) then zero
       else Str.parseFloat displayStr)
    /\ isNaN (CalculatorEngine.getDisplayValue displayStr) = false
    /\ (CalculatorEngine.isValidNumber displayStr = true ->
        CalculatorEngine.getDisplayValue displayStr
        = Str.parseFloat displayStr
        /\ is_finite (CalculatorEngine.getDisplayValue displayStr) = true).
Proof.
  intros displayStr.
  assert (E : CalculatorEngine.getDisplayValue displayStr
              = if isNaN (Str.parseFloat displayStr) then zero
                else Str.parseFloat displayStr).
  { unfold CalculatorEngine.getDisplayValue.
    destruct (String.eqb displayStr "") eqn:E1.
    - apply String.eqb_eq in E1. subst displayStr. reflexivity.
    - destruct (String.eqb displayStr "-") eqn:E2.
      + apply String.eqb_eq in E2. subst displayStr. reflexivity.
      + reflexivity. }
  split; [exact E |]. split.
  - rewrite E. destruct (Str.parseFloat displayStr); reflexivity.
  - unfold CalculatorEngine.isValidNumber. intros V.
    apply andb_prop in V. destruct V as [V1 V2].
    rewrite E. destruct (Str.parseFloat displayStr); try discriminate;
      split; reflexivity.
Qed.

Lemma getDisplayValue_is_parseFloat_or_zero_witness :
  CalculatorEngine.getDisplayValue "12.5"
  = Str.parseFloat "12.5"
  /\ is_finite (CalculatorEngine.getDisplayValue "12.5") = true.
Proof.
  apply (getDisplayValue_is_parseFloat_or_zero "12.5").
  vm_compute. reflexivity.
Defined.

(** X5.  A second decimal point is never entered: pressing the decimal
    point twice is the same as pressing it once, in every state. *)
Theorem handleDecimal_idempotent :
  forall prev : CalculatorState,
    Session.handleDecimal (Session.handleDecimal prev)
    = Session.handleDecimal prev
    /\ Str.includes (Session.handleDecimal prev).(display) "." = true.
Proof.
  intros prev.
  assert (P : error (Session.handleDecimal prev) = false
              /\ waitingForOperand (Session.handleDecimal prev) = false
              /\ Str.includes (Session.handleDecimal prev).(display) "." = true).
  { unfold Session.handleDecimal.
    destruct (error prev) eqn:E; [repeat split |].
    destruct (waitingForOperand prev) eqn:W; [repeat split; exact E |].
    destruct (Str.includes (display prev) ".") eqn:I; [repeat split; assumption |].
    unfold Session.set_display.
    cbn [display error waitingForOperand].
    repeat split; try assumption. apply includes_snoc_dot. }
  destruct P as (E & W & I). split; [| exact I].
  unfold Session.handleDecimal at 1. rewrite E, W, I. reflexivity.
Qed.

(** X6.  Pressing equals again does not repeat the calculation: after one
    press a second press, in either mode, changes nothing. *)
Theorem handleEquals_idempotent :
  forall (mode mode' : CalculatorMode) (prev : CalculatorState),
    Session.handleEquals mode' (Session.handleEquals mode prev)
    = Session.handleEquals mode prev.
Proof.
  intros mode mode' prev.
  apply handleEquals_nothing_pending.
  unfold Session.handleEquals.
  destruct (error prev) eqn:E; [left; exact E |].
  destruct (operation prev) as [o |] eqn:O; [| right; left; exact O].
  destruct (previousValue prev) as [previous |] eqn:P; [| right; right; exact P].
  destruct (CalculatorEngine.error
              (CalculatorEngine.calculate previous (Some o)
                 (CalculatorEngine.getDisplayValue (display prev)) mode)).
  - left. reflexivity.
  - right. left. reflexivity.
Qed.

(** X7.  Backspace takes back a digit.  In a state without an error that
    is not waiting for an operand and whose display is not empty, a
    one-byte digit the screen accepts (the candidate is within the
    maximum) is removed again by the backspace that follows: the state is
    the one before the digit. *)
Theorem handleBackspace_undoes_digit :
  forall (c : ascii) (prev : CalculatorState),
    prev.(error) = false ->
    prev.(waitingForOperand) = false ->
    prev.(display) <> ""%string ->
    Str.is_continuation c = false ->
    gt (Math_abs (CalculatorEngine.getDisplayValue
                    (candidateDisplay (String c "") prev))) MAX_VALUE = false ->
    Session.handleBackspace
      (CalculatorScreen.handleNumberPress (String c "") prev)
    = prev.
Proof.
  intros c prev E W D C G.
  rewrite (handleNumberPress_accepts_within_maximum (String c "") prev E W G).
  unfold Session.handleBackspace, Session.set_display.
  cbn [display expression previousValue operation waitingForOperand
       error errorMessage].
  rewrite E, W. cbn [orb].
  unfold candidateDisplay.
  destruct (String.eqb (display prev) "0"
            && negb (String.eqb (String c "") "."))%bool eqn:Z.
  - apply andb_prop in Z. destruct Z as [Z _]. apply String.eqb_eq in Z.
    pose proof (slice_0_m1_snoc "" c C) as K. cbn [append] in K.
    rewrite K. cbn [String.eqb].
    destruct prev as [d e p o w er em].
    cbn [display expression previousValue operation waitingForOperand
         error errorMessage] in *.
    subst. reflexivity.
  - rewrite (slice_0_m1_snoc (display prev) c C).
    rewrite (eqb_false_of_neq _ _ D).
    destruct prev as [d e p o w er em].
    cbn [display expression previousValue operation waitingForOperand
         error errorMessage] in *.
    subst. reflexivity.
Qed.

Lemma handleBackspace_undoes_digit_witness :
  Session.handleBackspace (CalculatorScreen.handleNumberPress "3" twelve)
  = twelve.
Proof.
  apply (handleBackspace_undoes_digit "3"%char twelve);
    try reflexivity; try discriminate.
Defined.

(** X8.  The fields of a reachable session state agree with each other: a
    pending operator always has its left operand, a state without an error
    carries no message, and an error state has an empty expression and the
    divide-by-zero or the too-large message of the engine. *)
Theorem reachable_state_consistent :
  forall s : CalculatorState,
    CalculatorScreen.reachable s ->
    (s.(operation) <> None -> s.(previousValue) <> None)
    /\ (s.(error) = false -> s.(errorMessage) = ""%string)
    /\ (s.(error) = true ->
        s.(expression) = ""%string
        /\ (s.(errorMessage)
            = CalculatorEngine.divideByZero.(CalculatorEngine.errorMessage)
            \/ s.(errorMessage)
               = CalculatorEngine.tooLarge.(CalculatorEngine.errorMessage))).
Proof.
  intros s R. change (session_consistent s).
  induction R as [| mode i s R IH].
  - consistency.
  - apply handle_consistent. exact IH.
Qed.

Lemma reachable_state_consistent_witness :
  after_division_by_zero.(expression) = ""%string
  /\ (after_division_by_zero.(errorMessage)
      = CalculatorEngine.divideByZero.(CalculatorEngine.errorMessage)
      \/ after_division_by_zero.(errorMessage)
         = CalculatorEngine.tooLarge.(CalculatorEngine.errorMessage)).
Proof.
  apply (reachable_state_consistent after_division_by_zero).
  - unfold after_division_by_zero. cbn [fold_left].
    repeat apply CalculatorScreen.reachable_handle.
    apply CalculatorScreen.reachable_initial.
  - vm_compute. reflexivity.
Defined.

(** X9.  While the session waits for an operand only the last operator
    pressed counts: a second operator press replaces the first and
    calculates nothing. *)
Theorem handleOperatorPress_last_operator_wins :
  forall (mode mode' : CalculatorMode) (first second : Operation)
         (prev : CalculatorState),
    prev.(error) = false ->
    prev.(waitingForOperand) = true ->
    Session.handleOperatorPress mode' second
      (Session.handleOperatorPress mode first prev)
    = Session.handleOperatorPress mode' second prev
    /\ (Session.handleOperatorPress mode' second prev).(display)
       = prev.(display)
    /\ (Session.handleOperatorPress mode' second prev).(operation) = second.
Proof.
  intros mode mode' first second prev E W.
  assert (H : forall m o,
             Session.handleOperatorPress m o prev
             = {| display := prev.(display);
                  expression :=
                    (prev.(display) ++ " " ++ Session.operatorSymbol o)%string;
                  previousValue :=
                    Some (CalculatorEngine.getDisplayValue prev.(display));
                  operation := o;
                  waitingForOperand := true;
                  error := false;
                  errorMessage := "" |}).
  { intros m o. unfold Session.handleOperatorPress. rewrite E, W.
    destruct (previousValue prev); [destruct (operation prev) |]; reflexivity. }
  rewrite (H mode first), (H mode' second).
  split; [| split; reflexivity].
  unfold Session.handleOperatorPress. cbn.
  destruct first; reflexivity.
Qed.

Lemma handleOperatorPress_last_operator_wins_witness :
  Session.handleOperatorPress checkbook (Some Minus)
    (Session.handleOperatorPress checkbook (Some Times) twelve_plus)
  = Session.handleOperatorPress checkbook (Some Minus) twelve_plus
  /\ (Session.handleOperatorPress checkbook (Some Minus) twelve_plus).(display)
     = twelve_plus.(display)
  /\ (Session.handleOperatorPress checkbook (Some Minus) twelve_plus).(operation)
     = Some Minus.
Proof.
  apply (handleOperatorPress_last_operator_wins checkbook checkbook
           (Some Times) (Some Minus) twelve_plus); vm_compute; reflexivity.
Defined.

(* ================================================================== *)
(** * Further properties of the screen and of its button grid *)
(* ================================================================== *)

Section DisplayFacts.

Local Open Scope string_scope.
Local Open Scope Z_scope.

Lemma append_cons_nonempty (a : string) (c : ascii) (b : string) :
  a ++ String c b <> "".
Proof. destruct a; discriminate. Qed.

Lemma append_nonempty_r (a b : string) : b <> "" -> a ++ b <> "".
Proof. destruct a; [trivial | discriminate]. Qed.

Lemma of_Z_nonempty z : Str.of_Z z <> "".
Proof.
  unfold Str.of_Z, NilZero.string_of_uint.
  destruct (N.to_uint (Z.to_N z)); discriminate.
Qed.

Lemma toString_positive_nonempty m e : Str.toString_positive m e <> "".
Proof.
  unfold Str.toString_positive.
  destruct (Str.shortest m e) as [s n].
  cbv zeta.
  destruct ((-5 <=? n) && (n <=? 21))%bool.
  - destruct (Str.len (Str.of_Z s) <=? n).
    + apply append_nonempty_l, of_Z_nonempty.
    + destruct (0 <? n).
      * apply append_cons_nonempty.
      * discriminate.
  - destruct (Str.len (Str.of_Z s) =? 1).
    + apply append_nonempty_l, of_Z_nonempty.
    + apply append_cons_nonempty.
Qed.

Lemma toString_nonempty x : Str.toString x <> "".
Proof.
  destruct x as [s | s | | s m e]; cbn [Str.toString].
  - discriminate.
  - destruct s; discriminate.
  - discriminate.
  - apply append_nonempty_r, toString_positive_nonempty.
Qed.

Lemma fixed_digits_nonempty n f : Str.fixed_digits n f <> "".
Proof.
  unfold Str.fixed_digits. destruct f.
  - apply of_Z_nonempty.
  - cbv zeta. apply append_cons_nonempty.
Qed.

Lemma toFixed_nonempty x f : Str.toFixed x f <> "".
Proof.
  destruct x as [s | s | | s m e]; unfold Str.toFixed.
  - apply fixed_digits_nonempty.
  - apply toString_nonempty.
  - apply toString_nonempty.
  - destruct (Str.ge_1e21 m e).
    + apply toString_nonempty.
    + apply append_nonempty_r, fixed_digits_nonempty.
Qed.

Lemma formatForDisplay_nonempty value mode :
  CalculatorEngine.formatForDisplay value mode "" <> "".
Proof.
  unfold CalculatorEngine.formatForDisplay. cbv zeta.
  assert (H : (if (MAX_DISPLAY_LENGTH
                   <? String.length
                        (Str.toFixed value
                           (CalculatorEngine.decimalPlaces mode)))%nat
               then Str.substring_0 MAX_DISPLAY_LENGTH
                      (Str.toFixed value (CalculatorEngine.decimalPlaces mode))
                    ++ "…"
               else Str.toFixed value (CalculatorEngine.decimalPlaces mode))
              <> "").
  { destruct (_ <? _)%nat.
    - apply append_cons_nonempty.
    - apply toFixed_nonempty. }
  exact H.
Qed.

Lemma handle_shows_text mode i s :
  shows_text s ->
  (forall d, i = CalculatorScreen.Digit d -> d <> "") ->
  shows_text (CalculatorScreen.handle mode i s).
Proof.
  unfold shows_text. intros S D.
  destruct i; cbn [CalculatorScreen.handle].
  - specialize (D d eq_refl).
    unfold CalculatorScreen.handleNumberPress.
    destruct (error s); [exact D |].
    destruct (waitingForOperand s); [exact D |].
    cbv zeta.
    match goal with |- display (if ?c then _ else _) <> _ => destruct c end;
      [exact S |].
    unfold Session.set_display. cbn [display].
    destruct (_ && _)%bool; [exact D | apply append_nonempty_l, S].
  - unfold CalculatorScreen.handleDecimal, Session.handleDecimal.
    destruct (error s); [discriminate |].
    destruct (waitingForOperand s); [discriminate |].
    destruct (Str.includes (display s) "."); [exact S |].
    apply append_nonempty_l, S.
  - unfold CalculatorScreen.handleNegative, Session.handleNegative.
    destruct (error s); [exact S |].
    cbv zeta. unfold Session.set_display. cbn [display].
    destruct (strict_eq _ _); [discriminate | apply toString_nonempty].
  - unfold CalculatorScreen.handleOperatorPress, Session.handleOperatorPress.
    destruct (error s); [exact S |].
    cbv zeta.
    destruct (previousValue s); [destruct (operation s);
                                 [destruct (waitingForOperand s) |] |];
      try exact S.
    destruct (CalculatorEngine.error _); cbn [display];
      [discriminate | apply formatForDisplay_nonempty].
  - unfold CalculatorScreen.handleEquals, Session.handleEquals.
    destruct (error s); [exact S |].
    destruct (operation s); [destruct (previousValue s) |]; try exact S.
    cbv zeta.
    destruct (CalculatorEngine.error _); cbn [display];
      [discriminate | apply formatForDisplay_nonempty].
  - unfold CalculatorScreen.handleBackspace, Session.handleBackspace.
    destruct (error s || waitingForOperand s)%bool; [exact S |].
    cbv zeta. unfold Session.set_display. cbn [display].
    destruct (String.eqb (Str.slice_0_m1 (display s)) "") eqn:E;
      [discriminate | apply String.eqb_neq, E].
  - discriminate.
  - discriminate.
Qed.

End DisplayFacts.

Section ButtonFacts.

Import CalculatorScreen.

Local Open Scope string_scope.

Lemma push_Forall (P : CalculatorState -> Prop) c u :
  Forall P u.(useUndoRedo.stack) -> P c ->
  Forall P (useUndoRedo.push c u).(useUndoRedo.stack).
Proof.
  intros F E.
  destruct (push_shape c u) as [(_ & S & _) | (_ & S & _)]; rewrite S;
    apply Forall_app; (split; [| repeat constructor; exact E]).
  - apply Forall_firstn_keeps, F.
  - apply Forall_tl_keeps, Forall_firstn_keeps, F.
Qed.

Lemma trackEffect_shows s : screen_shows s -> screen_shows (trackEffect s).
Proof.
  intros (K & S & F).
  split; [apply trackEffect_ok, K |].
  rewrite trackEffect_calculatorState. split; [exact S |].
  unfold trackEffect.
  destruct (prevStateRef s) as [before |]; [| exact F].
  destruct (stateChanged before (calculatorState s)
            && negb (error (calculatorState s)))%bool; [| exact F].
  cbn [undoRedo useUndoRedo.pushState useUndoRedo.undoRedo].
  apply push_Forall; assumption.
Qed.

Lemma handleUndo_shows s :
  screen_shows s -> exists s', handleUndo s = normal s' /\ screen_shows s'.
Proof.
  intros (K & S & F).
  destruct (handleUndo_ok s K) as (s' & U & K' & _).
  exists s'. split; [exact U |]. split; [exact K' |].
  unfold handleUndo in U.
  destruct (useUndoRedo.canUndo (undoRedo s)) eqn:C.
  - destruct (undo_steps _ (proj1 (proj1 K)) C) as (p & fb & A & U').
    rewrite U' in U. cbn [stepHistory] in U. injection U as <-.
    cbn [calculatorState undoRedo useUndoRedo.undoRedo useUndoRedo.stack].
    split; [| exact F]. exact (at_index_Forall _ _ _ _ F A).
  - injection U as <-. split; assumption.
Qed.

Lemma handleRedo_shows s :
  screen_shows s -> exists s', handleRedo s = normal s' /\ screen_shows s'.
Proof.
  intros (K & S & F).
  destruct (handleRedo_ok s K) as (s' & U & K').
  exists s'. split; [exact U |]. split; [exact K' |].
  unfold handleRedo in U.
  destruct (useUndoRedo.canRedo (undoRedo s)) eqn:C.
  - destruct (redo_steps _ (proj1 (proj1 K)) C) as (p & fb & A & U').
    rewrite U' in U. cbn [stepHistory] in U. injection U as <-.
    cbn [calculatorState undoRedo useUndoRedo.undoRedo useUndoRedo.stack].
    split; [| exact F]. exact (at_index_Forall _ _ _ _ F A).
  - injection U as <-. split; assumption.
Qed.

Lemma setCalculatorState_shows c s :
  screen_shows s -> shows_text c -> screen_shows (setCalculatorState c s).
Proof. intros (K & S & F) C. split; [exact K |]. split; assumption. Qed.

(** An event of the buttons: no history item is selected and a digit is
    not the empty text. *)
Lemma dispatch_shows mode ev s :
  screen_shows s ->
  (forall d e, ev <> SelectHistory d e) ->
  (forall d, ev = Press (Digit d) -> d <> "") ->
  exists s', dispatch mode ev s = normal s' /\ screen_shows s'.
Proof.
  intros K NS ND. unfold dispatch. destruct ev as [i | | | d e].
  - eexists. split; [reflexivity |]. apply trackEffect_shows.
    apply setCalculatorState_shows; [exact K |].
    apply handle_shows_text; [exact (proj1 (proj2 K)) |].
    intros d ->. apply ND. reflexivity.
  - destruct (handleUndo_shows s K) as (s' & U & K'). rewrite U.
    eexists. split; [reflexivity |]. apply trackEffect_shows, K'.
  - destruct (handleRedo_shows s K) as (s' & U & K'). rewrite U.
    eexists. split; [reflexivity |]. apply trackEffect_shows, K'.
  - exfalso. exact (NS d e eq_refl).
Qed.

Lemma parseInt_reads_text label :
  isNaN (ButtonGrid.parseInt label) = false -> label <> "".
Proof. intros H ->. vm_compute in H. discriminate H. Qed.

(** A press of a button is an event of the screen, or it calls nothing. *)
Lemma press_event mode label s :
  ScreenButtons.press mode label s = normal s
  \/ exists ev,
       ScreenButtons.press mode label s = dispatch mode ev s
       /\ (forall d e, ev <> SelectHistory d e)
       /\ (forall d, ev = Press (Digit d) -> d <> "").
Proof.
  unfold ScreenButtons.press, ButtonGrid.handleButtonPress.
  cbv zeta.
  destruct (isNaN (ButtonGrid.parseInt label)) eqn:N; cbn [negb].
  - destruct (String.eqb label ".");
      [right; exists (Press Decimal); split;
       [reflexivity | split; discriminate] |].
    destruct (String.eqb label "+");
      [right; exists (Press (Op Plus)); split;
       [reflexivity | split; discriminate] |].
    destruct (String.eqb label "-");
      [right; exists (Press (Op Minus)); split;
       [reflexivity | split; discriminate] |].
    destruct (String.eqb label "×");
      [right; exists (Press (Op Times)); split;
       [reflexivity | split; discriminate] |].
    destruct (String.eqb label "÷");
      [right; exists (Press (Op Divide)); split;
       [reflexivity | split; discriminate] |].
    destruct (String.eqb label "=");
      [right; exists (Press Equals); split;
       [reflexivity | split; discriminate] |].
    destruct (String.eqb label "C");
      [right; exists (Press Clear); split;
       [reflexivity | split; discriminate] |].
    destruct (String.eqb label "AC");
      [right; exists (Press AllClear); split;
       [reflexivity | split; discriminate] |].
    destruct (String.eqb label "←");
      [right; exists (Press Backspace); split;
       [reflexivity | split; discriminate] |].
    destruct (String.eqb label "↶").
    { cbn [ScreenButtons.props ButtonGrid.canUndo ButtonGrid.onUndo].
      destruct (useUndoRedo.canUndo (undoRedo s)); [| left; reflexivity].
      right. exists Undo. split; [reflexivity | split; discriminate]. }
    destruct (String.eqb label "↷").
    { cbn [ScreenButtons.props ButtonGrid.canRedo ButtonGrid.onRedo].
      destruct (useUndoRedo.canRedo (undoRedo s)); [| left; reflexivity].
      right. exists Redo. split; [reflexivity | split; discriminate]. }
    destruct (String.eqb label "+/-");
      [right; exists (Press Negative); split;
       [reflexivity | split; discriminate] |].
    destruct (String.eqb label "M+"); [left; reflexivity |].
    destruct (String.eqb label "M-"); [left; reflexivity |].
    destruct (String.eqb label "MR"); [left; reflexivity |].
    left. reflexivity.
  - right. exists (Press (Digit label)). split; [reflexivity |].
    split; [discriminate |].
    intros d E. injection E as <-. apply parseInt_reads_text, N.
Qed.

Lemma press_shows mode label s :
  screen_shows s ->
  exists s', ScreenButtons.press mode label s = normal s' /\ screen_shows s'.
Proof.
  intros K. destruct (press_event mode label s) as [E | (ev & E & NS & ND)];
    rewrite E.
  - exists s. split; [reflexivity | exact K].
  - apply dispatch_shows; assumption.
Qed.

Lemma mounted_shows : screen_shows mounted.
Proof.
  split; [exact mounted_ok |].
  split; [discriminate |]. repeat constructor. discriminate.
Qed.

Lemma pressAll_shows presses : forall s,
  screen_shows s ->
  exists s', ScreenButtons.pressAll presses s = normal s' /\ screen_shows s'.
Proof.
  induction presses as [| [mode label] rest IH]; intros s K.
  - exists s. split; [reflexivity | exact K].
  - cbn [ScreenButtons.pressAll].
    destruct (press_shows mode label s K) as (s1 & E & K1). rewrite E.
    apply IH, K1.
Qed.

Lemma pressAll_reachable presses : forall s s',
  reachableScreen s -> ScreenButtons.pressAll presses s = normal s' ->
  reachableScreen s'.
Proof.
  induction presses as [| [mode label] rest IH]; intros s s' R P.
  - cbn [ScreenButtons.pressAll] in P. congruence.
  - cbn [ScreenButtons.pressAll] in P.
    destruct (ScreenButtons.press mode label s) as [s1 |] eqn:E;
      [| discriminate P].
    apply (IH s1 s'); [| exact P].
    destruct (press_event mode label s) as [E' | (ev & E' & _)];
      rewrite E' in E.
    + injection E as <-. exact R.
    + exact (screen_dispatch mode ev s s1 R E).
Qed.

Lemma reachableScreen_prevStateRef s :
  reachableScreen s -> exists p, prevStateRef s = Some p.
Proof.
  assert (T : forall x, exists p, prevStateRef (trackEffect x) = Some p).
  { intros x. unfold trackEffect.
    destruct (prevStateRef x) as [before |] eqn:P.
    - destruct (_ && _)%bool; cbn [prevStateRef]; eauto.
    - cbn [prevStateRef]. eauto. }
  induction 1 as [| mode ev s s' R IH D].
  - apply T.
  - unfold dispatch in D.
    destruct (match ev with
              | Press i =>
                  normal (setCalculatorState (handle mode i (calculatorState s)) s)
              | Undo => handleUndo s
              | Redo => handleRedo s
              | SelectHistory d e =>
                  normal (setCalculatorState (handleHistoryItemSelect d e) s)
              end) as [x |]; [| discriminate].
    injection D as <-. apply T.
Qed.

End ButtonFacts.

(** X10.  No run of button presses breaks the screen.  Whatever labels
    are pressed through the grid, in whatever modes, starting from the
    mounted screen, no press faults; the screen reached is one the events
    of the screen reach, its display is never empty, its history holds
    between 1 and 20 entries with the current position among them, and no
    entry of the history is an error state or has an empty display. *)
Theorem buttons_keep_screen_sound :
  forall presses : list (CalculatorMode * string),
  exists s : CalculatorScreen.Screen,
    ScreenButtons.pressAll presses CalculatorScreen.mounted = normal s
    /\ CalculatorScreen.reachableScreen s
    /\ s.(CalculatorScreen.calculatorState).(display) <> ""%string
    /\ 0 <= s.(CalculatorScreen.undoRedo).(useUndoRedo.undoRedo)
             .(useUndoRedo.currentIndex)
         < size s.(CalculatorScreen.undoRedo).(useUndoRedo.undoRedo)
    /\ size s.(CalculatorScreen.undoRedo).(useUndoRedo.undoRedo) <= 20
    /\ Forall (fun c => c.(error) = false /\ c.(display) <> ""%string)
         s.(CalculatorScreen.undoRedo).(useUndoRedo.undoRedo)
          .(useUndoRedo.stack).
Proof.
  intros presses.
  destruct (pressAll_shows presses CalculatorScreen.mounted mounted_shows)
    as (s & E & ((B & Z) & F) & S & T).
  exists s. split; [exact E |].
  split; [exact (pressAll_reachable presses _ _
                   CalculatorScreen.screen_mounted E) |].
  split; [exact S |].
  split; [exact B |]. split; [exact Z |].
  unfold error_free in F. rewrite Forall_forall in *.
  intros c I. split; [apply F, I | apply T, I].
Qed.



(* ================================================================== *)
(** * Checkbook mode: results are amounts in hundredths *)
(* ================================================================== *)

Section AmountFacts.

Lemma gt_finite_intro m1 e1 m2 e2 :
  e2 < e1 \/ (e2 = e1 /\ Zpos m2 < Zpos m1) ->
  gt (S754_finite false m1 e1) (S754_finite false m2 e2) = true.
Proof.
  intros H. unfold gt, SFltb, SFcompare.
  destruct H as [H | [H1 H2]].
  - rewrite (proj2 (Z.compare_lt_iff e2 e1) H). reflexivity.
  - subst e2. rewrite Z.compare_refl.
    change (PosDef.Pos.compare_cont Eq m2 m1) with (Pos.compare m2 m1).
    rewrite (proj2 (Pos.compare_lt_iff m2 m1)); [reflexivity |].
    apply Pos2Z.pos_lt_pos. exact H2.
Qed.

Lemma Zdigits2_mul_pow2 m e :
  0 < m -> 0 <= e -> Zdigits2 (m * 2 ^ e) = Zdigits2 m + e.
Proof.
  intros M E. destruct (Zdigits2_bounds m M) as [[DL DH] DP].
  assert (P : 0 < 2 ^ e) by (apply Z.pow_pos_nonneg; lia).
  apply Zdigits2_unique; [lia |]. split.
  - replace (Zdigits2 m + e - 1) with (Zdigits2 m - 1 + e) by lia.
    rewrite Z.pow_add_r by lia. apply Z.mul_le_mono_nonneg_r; lia.
  - rewrite Z.pow_add_r by lia. apply Z.mul_lt_mono_pos_r; lia.
Qed.

(** [binary_round_aux_located] when the exponent of the quotient may be
    below the least exponent, as long as the rounded number is normal. *)
Lemma binary_round_aux_located_wide s T U mx ex l :
  0 < T -> 0 < U ->
  located T U (shr_record_of_loc mx l) ->
  53 <= Zdigits2 mx ->
  -1074 <= ex + (Zdigits2 mx - 53) ->
  exists my ey,
    binary_round_aux prec emax s mx ex l
    = (if ey <=? 971 then S754_finite s my ey else S754_infinity s)
    /\ 2 ^ 52 <= Zpos my < 2 ^ 53
    /\ ex + (Zdigits2 mx - 53) <= ey <= ex + (Zdigits2 mx - 53) + 1
    /\ Z.abs (2 * (Zpos my * 2 ^ (ey - ex) * U - T)) <= U * 2 ^ (ey - ex)
    /\ (T mod (U * 2 ^ (Zdigits2 mx - 53)) = 0 ->
        ey = ex + (Zdigits2 mx - 53)
        /\ Zpos my * 2 ^ (Zdigits2 mx - 53) * U = T).
Proof.
  intros HT HU L HD HE.
  assert (MX : mx = T / U).
  { destruct L as (M & _). rewrite shr_m_record_of_loc in M. exact M. }
  assert (HX : 0 < mx).
  { assert (0 <= mx) by (rewrite MX; apply Z.div_pos; lia).
    destruct mx as [| p | p]; cbn in HD; lia. }
  set (d := Zdigits2 mx) in *.
  set (n := d - 53).
  destruct (Zdigits2_bounds mx HX) as [[DL DH] _]. fold d in DL, DH.
  assert (P2n : 0 < 2 ^ n) by (apply Z.pow_pos_nonneg; lia).
  assert (Pd : 2 ^ (d - 1) = 2 ^ 52 * 2 ^ n).
  { rewrite <- Z.pow_add_r by lia. f_equal. lia. }
  assert (Pd' : 2 ^ d = 2 ^ 53 * 2 ^ n).
  { rewrite <- Z.pow_add_r by lia. f_equal. lia. }
  unfold binary_round_aux, shr_fexp.
  fold d. rewrite fexp_binary64.
  replace (Z.max (d + ex - 53) (-1074) - ex) with n by lia.
  destruct (shr_located T U (shr_record_of_loc mx l) ex n
              ltac:(lia) HU ltac:(lia) L) as [L1 E1].
  destruct (shr (shr_record_of_loc mx l) ex n) as [mrs1 e1].
  cbn [fst snd] in L1, E1. subst e1.
  destruct (round_nearest_even_located T (U * 2 ^ n) mrs1
              ltac:(lia) ltac:(nia) L1) as (RB & RE & RX).
  set (mr := round_nearest_even (shr_m mrs1) (loc_of_shr_record mrs1)) in *.
  assert (M1 : 2 ^ 52 <= shr_m mrs1 < 2 ^ 53).
  { destruct L1 as (M1 & _). rewrite M1, <- Z.div_div, <- MX by lia.
    split.
    - apply Z.div_le_lower_bound; lia.
    - apply Z.div_lt_upper_bound; lia. }
  destruct (Z.eq_dec mr (2 ^ 53)) as [C | C].
  - (* the rounding carried into a 54th bit *)
    rewrite C.
    exists (Z.to_pos (2 ^ 52)), (ex + n + 1).
    split; [| split; [change (Z.pos (Z.to_pos (2 ^ 52))) with (2 ^ 52); lia |
                     split; [lia | split]]].
    + change (Zdigits2 (2 ^ 53)) with 54. rewrite fexp_binary64.
      replace (Z.max (54 + (ex + n) - 53) (-1074) - (ex + n)) with 1 by lia.
      reflexivity.
    + change (Z.pos (Z.to_pos (2 ^ 52))) with (2 ^ 52).
      replace (ex + n + 1 - ex) with (1 + n) by lia.
      rewrite Z.pow_add_r by lia. change (2 ^ 1) with 2.
      rewrite C in RE.
      change (2 ^ 53) with (2 ^ 52 * 2) in RE.
      replace (2 ^ 52 * (2 * 2 ^ n) * U) with (2 ^ 52 * 2 * (U * 2 ^ n)) by ring.
      nia.
    + intros X. destruct (RX X) as [X1 _]. lia.
  - assert (MR : 2 ^ 52 <= mr < 2 ^ 53) by lia.
    exists (Z.to_pos mr), (ex + n).
    rewrite Z2Pos.id by lia.
    split; [| split; [lia | split; [lia | split]]].
    + rewrite (Zdigits2_unique mr 53) by (change (53 - 1) with 52; lia).
      rewrite fexp_binary64.
      replace (Z.max (53 + (ex + n) - 53) (-1074) - (ex + n)) with 0 by lia.
      cbn [shr fst snd]. rewrite shr_m_record_of_loc.
      destruct mr as [| p | p]; try lia.
      change (Z.sub emax prec) with 971. reflexivity.
    + replace (ex + n - ex) with n by lia.
      replace (mr * 2 ^ n * U) with (mr * (U * 2 ^ n)) by ring. exact RE.
    + intros X. destruct (RX X) as [_ X2]. split; [reflexivity |].
      rewrite <- X2. ring.
Qed.

(** ** The quotient by 100 of a small integer is the decimal literal *)

Lemma shr_record_of_loc_inj m l1 l2 :
  shr_record_of_loc m l1 = shr_record_of_loc m l2 -> l1 = l2.
Proof.
  destruct l1 as [| []], l2 as [| []]; cbn; intros H; congruence.
Qed.

Lemma located_unique T U r1 r2 : located T U r1 -> located T U r2 -> r1 = r2.
Proof.
  destruct r1, r2; unfold located; cbn.
  intros (A & B & C) (A' & B' & C'). congruence.
Qed.

Lemma leb_scale a b c : 0 < c -> (a * c <=? b * c) = (a <=? b).
Proof.
  intros C. destruct (Z.leb_spec a b).
  - apply Z.leb_le. apply Z.mul_le_mono_nonneg_r; lia.
  - apply Z.leb_gt. apply Z.mul_lt_mono_pos_r; lia.
Qed.

Lemma eqb_scale a b c : 0 < c -> (a * c =? b * c) = (a =? b).
Proof.
  intros C. destruct (Z.eqb_spec a b) as [E | E].
  - subst. apply Z.eqb_refl.
  - apply Z.eqb_neq. intros X. apply E. apply Z.mul_reg_r with c; lia.
Qed.

Lemma located_scale T U c mrs :
  0 < U -> 0 < c -> located (T * c) (U * c) mrs -> located T U mrs.
Proof.
  intros HU HC (M & R & S). unfold located.
  rewrite Z.div_mul_cancel_r in M by lia.
  rewrite Z.mul_mod_distr_r in R, S by lia.
  rewrite Z.mul_assoc, leb_scale in R by lia.
  rewrite Z.mul_assoc, (eqb_scale (2 * (T mod U)) U c) in S by lia.
  change 0 with (0 * c) in S at 1. rewrite eqb_scale in S by lia.
  repeat split; assumption.
Qed.

Lemma new_location_scale T U c :
  0 <= T -> 0 < U -> 0 < c ->
  new_location (U * c) ((T * c) mod (U * c)) = new_location U (T mod U).
Proof.
  intros HT HU HC. apply (shr_record_of_loc_inj (T / U)).
  apply (located_unique T U).
  - apply (located_scale T U c _ HU HC).
    pose proof (new_location_located (T * c) (U * c)) as L.
    rewrite Z.div_mul_cancel_r in L by lia.
    apply L.
    + apply Z.mul_nonneg_nonneg; lia.
    + apply Z.mul_pos_pos; lia.
  - apply new_location_located; lia.
Qed.

Lemma ratio_hundred_core N :
  0 < N -> Zdigits2 N <= 53 ->
  SFdiv_core_binary prec emax N 0 100 0
  = ((N * 2 ^ (60 - Zdigits2 N)) / 100, Zdigits2 N - 60,
     new_location 100 ((N * 2 ^ (60 - Zdigits2 N)) mod 100)).
Proof.
  intros HN HD. destruct (Zdigits2_bounds N HN) as [_ DP].
  unfold SFdiv_core_binary. change (Zdigits2 100) with 7.
  rewrite fexp_binary64.
  set (d := Zdigits2 N) in *.
  replace (Z.min (Z.max (d + 0 - (7 + 0) - 53) (-1074)) (0 - 0))
    with (d - 60) by lia.
  replace (0 - 0 - (d - 60)) with (60 - d) by lia.
  destruct (60 - d) as [| p | p] eqn:E; try lia.
  rewrite Z.shiftl_mul_pow2 by lia.
  unfold Z.div, Z.modulo.
  destruct (Z.div_eucl (N * 2 ^ Zpos p) 100) as [q r]. reflexivity.
Qed.

Lemma canonical_digits N :
  0 < N < 2 ^ 53 ->
  2 ^ 52 <= N * 2 ^ (53 - Zdigits2 N) < 2 ^ 53.
Proof.
  intros HN. destruct (Zdigits2_bounds N ltac:(lia)) as [[DL DH] DP].
  assert (D : Zdigits2 N <= 53) by (apply Zdigits2_upper; lia).
  set (d := Zdigits2 N) in *.
  assert (P2 : 0 < 2 ^ (53 - d)) by (apply Z.pow_pos_nonneg; lia).
  split.
  - replace 52 with ((d - 1) + (53 - d)) by lia.
    rewrite Z.pow_add_r by lia. apply Z.mul_le_mono_nonneg_r; lia.
  - replace 53 with (d + (53 - d)) at 2 by lia.
    rewrite Z.pow_add_r by lia. apply Z.mul_lt_mono_pos_r; lia.
Qed.

(** The literal [N / 100] for an amount below [10^11] hundredths: a
    normal number within half a unit in the last place. *)
Lemma ratio_hundred_rounds s N :
  0 < N < 10 ^ 11 ->
  exists my ey,
    of_ratio s (Z.to_pos N) 100 = S754_finite s my ey
    /\ 2 ^ 52 <= Zpos my < 2 ^ 53
    /\ -60 <= ey <= -21
    /\ Z.abs (2 * (100 * Zpos my - N * 2 ^ (- ey))) <= 100.
Proof.
  intros HN.
  destruct (Zdigits2_bounds N ltac:(lia)) as [[DL DH] DP].
  assert (D : Zdigits2 N <= 37) by (apply Zdigits2_upper; lia).
  set (d := Zdigits2 N) in *.
  unfold of_ratio. rewrite Z2Pos.id by lia.
  rewrite (ratio_hundred_core N) by (fold d; lia). fold d.
  set (T := N * 2 ^ (60 - d)).
  assert (P2 : 0 < 2 ^ (60 - d)) by (apply Z.pow_pos_nonneg; lia).
  assert (HT : 2 ^ 59 <= T < 2 ^ 60).
  { subst T. split.
    - replace 59 with ((d - 1) + (60 - d)) by lia.
      rewrite Z.pow_add_r by lia. apply Z.mul_le_mono_nonneg_r; lia.
    - replace 60 with (d + (60 - d)) at 2 by lia.
      rewrite Z.pow_add_r by lia. apply Z.mul_lt_mono_pos_r; lia. }
  assert (Q : 2 ^ 52 <= T / 100 < 2 ^ 54).
  { split.
    - apply Z.div_le_lower_bound; lia.
    - apply Z.div_lt_upper_bound; lia. }
  assert (DQ : 53 <= Zdigits2 (T / 100) <= 54).
  { split.
    - apply (Zdigits2_lower _ 52); lia.
    - apply Zdigits2_upper; lia. }
  destruct (binary_round_aux_located s T 100 (T / 100) (d - 60)
              (new_location 100 (T mod 100)))
    as (my & ey & R & MY & EY & B & _);
    [lia | lia | apply new_location_located; lia | lia | lia |].
  exists my, ey. rewrite R.
  destruct (Z.leb_spec ey 971); [| lia].
  split; [reflexivity |]. split; [exact MY |]. split; [lia |].
  set (k := ey - (d - 60)) in *.
  assert (PK : 0 < 2 ^ k) by (apply Z.pow_pos_nonneg; lia).
  assert (TE : T = N * 2 ^ (- ey) * 2 ^ k).
  { subst T. rewrite <- Z.mul_assoc, <- Z.pow_add_r by lia.
    do 2 f_equal. lia. }
  rewrite TE in B.
  replace (2 * (Zpos my * 2 ^ k * 100 - N * 2 ^ (- ey) * 2 ^ k))
    with (2 * (100 * Zpos my - N * 2 ^ (- ey)) * 2 ^ k) in B by ring.
  rewrite Z.abs_mul, (Z.abs_eq (2 ^ k)) in B by lia.
  apply Z.mul_le_mono_pos_r in B; [exact B | exact PK].
Qed.

(** [toFixed(2)] of an amount: its hundredths, never the exponent form. *)
Lemma toFixed_hundredths s N :
  0 < N < 10 ^ 11 ->
  Str.toFixed (of_ratio s (Z.to_pos N) 100) 2
  = ((if s then "-" else "") ++ Str.fixed_digits N 2)%string.
Proof.
  intros HN.
  destruct (ratio_hundred_rounds s N HN) as (my & ey & R & MY & EY & B).
  rewrite R. unfold Str.toFixed.
  set (Y := 2 ^ (- ey)) in *.
  assert (HY : 2 ^ 21 <= Y) by (apply Z.pow_le_mono_r; lia).
  assert (G : Str.ge_1e21 my ey = false).
  { unfold Str.ge_1e21. destruct (Z.leb_spec 0 ey); [lia |].
    fold Y. apply Z.leb_gt.
    assert (10 ^ 21 * 2 ^ 21 <= 10 ^ 21 * Y)
      by (apply Z.mul_le_mono_nonneg_l; lia).
    lia. }
  rewrite G. do 2 f_equal.
  unfold Str.scaled_round. destruct (Z.leb_spec 0 ey); [lia |].
  change (Z.of_nat 2) with 2. fold Y.
  replace (2 ^ (1 - ey)) with (2 * Y).
  - symmetry.
    apply (Z.div_unique _ _ _ (2 * Zpos my * 10 ^ 2 + Y - 2 * Y * N)); lia.
  - subst Y. replace (1 - ey) with (1 + - ey) by lia.
    rewrite Z.pow_add_r by lia. reflexivity.
Qed.

(** An integer of at least [2^53] rounds to a normal number with a
    positive exponent, or overflows. *)
Lemma binary_round_integer_large s (p : positive) :
  2 ^ 53 <= Zpos p ->
  exists my ey,
    1 <= ey /\ 2 ^ 52 <= Zpos my
    /\ binary_round prec emax s p 0
       = if ey <=? 971 then S754_finite s my ey else S754_infinity s.
Proof.
  intros H.
  destruct (Zdigits2_bounds (Zpos p) ltac:(lia)) as [[DL DH] DP].
  set (d := Zdigits2 (Zpos p)) in *.
  unfold binary_round. change (Z.pos (digits2_pos p)) with d.
  rewrite fexp_binary64, Z.add_0_r.
  assert (D : 54 <= d).
  { destruct (Z.le_gt_cases 54 d) as [C | C]; [exact C |].
    assert (2 ^ d <= 2 ^ 53) by (apply Z.pow_le_mono_r; lia). lia. }
  assert (SA : shl_align p 0 (Z.max (d - 53) (-1074)) = (p, 0)).
  { unfold shl_align. replace (Z.max (d - 53) (-1074) - 0) with (d - 53) by lia.
    destruct (d - 53) as [| q | q] eqn:E; try lia. reflexivity. }
  rewrite SA.
  destruct (binary_round_aux_located s (Zpos p) 1 (Zpos p) 0 loc_Exact)
    as (my & ey & R & MY & EY & _);
    [lia | lia | apply exact_located; lia | fold d; lia | lia |].
  fold d in EY. exists my, ey. split; [lia |]. split; [lia | exact R].
Qed.

End AmountFacts.

Section HundredthsFacts.

(** The mantissa of the factor [100 = mf * 2^-46] of Checkbook mode. *)
Variable mf : positive.
Hypothesis HF : Zpos mf = 100 * 2 ^ 46.

Lemma hundred_bounds : 2 ^ 52 <= Zpos mf < 2 ^ 53.
Proof. rewrite HF. lia. Qed.

Lemma hundred_digits : Zdigits2 (Zpos mf) = 53.
Proof.
  apply Zdigits2_unique; [lia |]. change (53 - 1) with 52.
  exact hundred_bounds.
Qed.

(** The quotient the division by 100 rounds. *)
Lemma div_hundred_core (m : positive) (e sh : Z) :
  sh = Z.max (106 - Zdigits2 (Zpos m)) 0 ->
  -1014 <= Zdigits2 (Zpos m) + e ->
  SFdiv_core_binary prec emax (Zpos m) e (Zpos mf) (-46)
  = ((Zpos m * 2 ^ sh) / Zpos mf, e + 46 - sh,
     new_location (Zpos mf) ((Zpos m * 2 ^ sh) mod Zpos mf)).
Proof.
  intros S H. unfold SFdiv_core_binary.
  rewrite hundred_digits, fexp_binary64.
  set (d1 := Zdigits2 (Zpos m)) in *.
  replace (Z.min (Z.max (d1 + e - (53 + -46) - 53) (-1074)) (e - -46))
    with (e + 46 - sh) by lia.
  replace (e - -46 - (e + 46 - sh)) with sh by lia.
  assert (M' : match sh with
               | 0 => Zpos m
               | Zpos _ => Z.shiftl (Zpos m) sh
               | Zneg _ => 0
               end = Zpos m * 2 ^ sh).
  { destruct sh as [| p | p] eqn:E.
    - rewrite Z.mul_1_r. reflexivity.
    - rewrite Z.shiftl_mul_pow2 by lia. reflexivity.
    - lia. }
  rewrite M'. unfold Z.div, Z.modulo.
  destruct (Z.div_eucl (Zpos m * 2 ^ sh) (Zpos mf)) as [q r]. reflexivity.
Qed.

Lemma div_hundred_rounds s (m : positive) (e sh : Z) :
  sh = Z.max (106 - Zdigits2 (Zpos m)) 0 ->
  -1014 <= Zdigits2 (Zpos m) + e ->
  exists my ey,
    div (S754_finite s m e) (S754_finite false mf (-46))
    = (if ey <=? 971 then S754_finite s my ey else S754_infinity s)
    /\ 2 ^ 52 <= Zpos my < 2 ^ 53
    /\ e + 46 - sh <= ey
    /\ Z.abs (2 * (Zpos my * 2 ^ (ey - (e + 46 - sh)) * Zpos mf
                   - Zpos m * 2 ^ sh))
       <= Zpos mf * 2 ^ (ey - (e + 46 - sh)).
Proof.
  intros S H.
  destruct (Zdigits2_bounds (Zpos m) ltac:(lia)) as [[DL DH] DP].
  set (d1 := Zdigits2 (Zpos m)) in *.
  set (T := Zpos m * 2 ^ sh).
  pose proof hundred_bounds as MF.
  assert (PS : 0 < 2 ^ sh) by (apply Z.pow_pos_nonneg; lia).
  assert (HT : 2 ^ (d1 + sh - 54) * 2 ^ 53 <= T).
  { subst T. rewrite <- Z.pow_add_r by lia.
    replace (d1 + sh - 54 + 53) with (d1 - 1 + sh) by lia.
    rewrite Z.pow_add_r by lia.
    apply Z.mul_le_mono_nonneg_r; lia. }
  assert (PQ : 2 ^ 52 <= 2 ^ (d1 + sh - 54))
    by (apply Z.pow_le_mono_r; lia).
  assert (Q : 2 ^ (d1 + sh - 54) <= T / Zpos mf).
  { apply Z.div_le_lower_bound; [lia |].
    assert (Zpos mf * 2 ^ (d1 + sh - 54) <= 2 ^ 53 * 2 ^ (d1 + sh - 54))
      by (apply Z.mul_le_mono_nonneg_r; lia).
    lia. }
  assert (DQ : d1 + sh - 53 <= Zdigits2 (T / Zpos mf)).
  { pose proof (Zdigits2_lower (T / Zpos mf) (d1 + sh - 54) ltac:(lia) Q).
    lia. }
  unfold div, SFdiv. rewrite (div_hundred_core m e sh S H), xorb_false_r.
  fold T.
  destruct (binary_round_aux_located_wide s T (Zpos mf) (T / Zpos mf)
              (e + 46 - sh) (new_location (Zpos mf) (T mod Zpos mf)))
    as (my & ey & R & MY & EY & B & _);
    [lia | lia | apply new_location_located; lia | lia | lia |].
  exists my, ey. split; [exact R |]. split; [exact MY |].
  split; [lia | exact B].
Qed.

(** A quotient of at least [10^9] is above the maximum [mM * 2^-23]. *)
Lemma div_hundred_large s (m mM : positive) (e : Z) :
  (0 <= e /\ 10 ^ 11 <= Zpos m * 2 ^ e)
  \/ (e < 0 /\ 10 ^ 11 * 2 ^ (- e) <= Zpos m) ->
  Zpos mM < 10 ^ 9 * 2 ^ 23 ->
  gt (Math_abs (div (S754_finite s m e) (S754_finite false mf (-46))))
     (S754_finite false mM (-23)) = true.
Proof.
  intros V HM.
  destruct (Zdigits2_bounds (Zpos m) ltac:(lia)) as [[DL DH] DP].
  set (d1 := Zdigits2 (Zpos m)) in *.
  assert (D1 : 1 <= d1 + e).
  { destruct V as [[E _] | [E V]]; [lia |].
    assert (P : 0 < 2 ^ (- e)) by (apply Z.pow_pos_nonneg; lia).
    assert (2 ^ (- e) <= Zpos m) by lia.
    pose proof (Zdigits2_lower (Zpos m) (- e) ltac:(lia) H). lia. }
  set (sh := Z.max (106 - d1) 0).
  destruct (div_hundred_rounds s m e sh eq_refl ltac:(fold d1; lia))
    as (my & ey & R & MY & EY & B).
  rewrite R. destruct (ey <=? 971); [| reflexivity].
  cbn [Math_abs SFabs]. apply gt_finite_intro.
  destruct (Z.lt_ge_cases (-23) ey) as [C | C]; [left; exact C | right].
  set (ex := e + 46 - sh) in *.
  set (k := ey - ex) in *.
  assert (K0 : 0 <= k) by lia.
  assert (PK : 0 < 2 ^ k) by (apply Z.pow_pos_nonneg; lia).
  pose proof hundred_bounds as MF.
  (* the exact quotient is at least 10^9 *)
  assert (VT : 10 ^ 9 * Zpos mf * 2 ^ (- ex) <= Zpos m * 2 ^ sh).
  { rewrite HF.
    replace (10 ^ 9 * (100 * 2 ^ 46) * 2 ^ (- ex))
      with (10 ^ 11 * (2 ^ 46 * 2 ^ (- ex))) by ring.
    rewrite <- Z.pow_add_r by lia.
    replace (46 + - ex) with (sh - e) by lia.
    destruct V as [[E V] | [E V]].
    - replace sh with (e + (sh - e)) at 2 by lia.
      rewrite Z.pow_add_r, Z.mul_assoc by lia.
      apply Z.mul_le_mono_nonneg_r; [apply Z.pow_nonneg; lia | exact V].
    - replace (sh - e) with (- e + sh) by lia.
      rewrite Z.pow_add_r, Z.mul_assoc by lia.
      apply Z.mul_le_mono_nonneg_r; [apply Z.pow_nonneg; lia | exact V]. }
  assert (XE : 2 ^ (- ex) = 2 ^ k * 2 ^ (- ey)).
  { rewrite <- Z.pow_add_r by lia. f_equal. lia. }
  set (Y := 2 ^ (- ey)) in *.
  assert (HY : 2 ^ 23 <= Y) by (apply Z.pow_le_mono_r; lia).
  set (G := 2 ^ k * Zpos mf).
  assert (PG : 0 < G) by (apply Z.mul_pos_pos; lia).
  assert (B' : (2 * 10 ^ 9 * Y - 1) * G <= 2 * Zpos my * G).
  { rewrite XE in VT.
    replace (2 * Zpos my * G) with (2 * (Zpos my * 2 ^ k * Zpos mf))
      by (subst G; ring).
    replace ((2 * 10 ^ 9 * Y - 1) * G)
      with (2 * (10 ^ 9 * Zpos mf * (2 ^ k * Y)) - Zpos mf * 2 ^ k)
      by (subst G; ring).
    lia. }
  apply Z.mul_le_mono_pos_r in B'; [| exact PG].
  destruct (Z.eq_dec ey (-23)) as [E23 | E23].
  - split; [symmetry; exact E23 |].
    assert (Y = 2 ^ 23) by (subst Y; rewrite E23; reflexivity). lia.
  - exfalso. assert (2 ^ 24 <= Y) by (apply Z.pow_le_mono_r; lia). lia.
Qed.

(** A number that stands for the integer [N]: its quotient by 100 is the
    number the literal [N / 100] denotes. *)
Lemma div_hundred_ratio s (m : positive) (e N : Z) :
  0 < N -> Zdigits2 N <= 53 ->
  Zdigits2 (Zpos m) + e = Zdigits2 N ->
  Zdigits2 (Zpos m) <= 106 ->
  Zpos m * 2 ^ (106 - Zdigits2 (Zpos m))
  = N * 2 ^ (60 - Zdigits2 N) * 2 ^ 46 ->
  div (S754_finite s m e) (S754_finite false mf (-46))
  = of_ratio s (Z.to_pos N) 100.
Proof.
  intros HN HD DE D1 V.
  destruct (Zdigits2_bounds N HN) as [_ DP].
  unfold div, SFdiv, of_ratio.
  rewrite (div_hundred_core m e (106 - Zdigits2 (Zpos m))) by lia.
  rewrite Z2Pos.id by lia.
  rewrite (ratio_hundred_core N HN HD).
  rewrite V, HF, xorb_false_r.
  set (T0 := N * 2 ^ (60 - Zdigits2 N)).
  assert (P0 : 0 <= T0).
  { subst T0. apply Z.mul_nonneg_nonneg; [lia | apply Z.pow_nonneg; lia]. }
  rewrite Z.div_mul_cancel_r by lia.
  rewrite (new_location_scale T0 100 (2 ^ 46)) by lia.
  replace (e + 46 - (106 - Zdigits2 (Zpos m))) with (Zdigits2 N - 60) by lia.
  reflexivity.
Qed.

Lemma div_hundred_ratio_integer s (m : positive) (e : Z) :
  0 <= e -> Zpos m * 2 ^ e < 2 ^ 53 ->
  div (S754_finite s m e) (S754_finite false mf (-46))
  = of_ratio s (Z.to_pos (Zpos m * 2 ^ e)) 100.
Proof.
  intros E B.
  assert (PE : 0 < 2 ^ e) by (apply Z.pow_pos_nonneg; lia).
  assert (HN : 0 < Zpos m * 2 ^ e) by (apply Z.mul_pos_pos; lia).
  pose proof (Zdigits2_mul_pow2 (Zpos m) e ltac:(lia) E) as DN.
  assert (HD : Zdigits2 (Zpos m * 2 ^ e) <= 53)
    by (apply Zdigits2_upper; lia).
  destruct (Zdigits2_bounds (Zpos m) ltac:(lia)) as [_ DP].
  apply div_hundred_ratio; try lia.
  rewrite DN. rewrite <- !Z.mul_assoc. f_equal.
  rewrite <- !Z.pow_add_r by lia. f_equal. lia.
Qed.

Lemma div_hundred_ratio_canonical s N :
  0 < N < 2 ^ 53 ->
  div (canonical s N) (S754_finite false mf (-46))
  = of_ratio s (Z.to_pos N) 100.
Proof.
  intros HN. pose proof (canonical_digits N HN) as C.
  destruct (Zdigits2_bounds N ltac:(lia)) as [_ DP].
  assert (D : Zdigits2 N <= 53) by (apply Zdigits2_upper; lia).
  unfold canonical.
  assert (DM : Zdigits2 (Zpos (Z.to_pos (N * 2 ^ (53 - Zdigits2 N)))) = 53).
  { rewrite Z2Pos.id by lia.
    apply Zdigits2_unique; [lia |]. change (53 - 1) with 52. exact C. }
  apply div_hundred_ratio; try lia.
  rewrite DM, Z2Pos.id by lia. change (106 - 53) with 53.
  rewrite <- !Z.mul_assoc. f_equal.
  rewrite <- !Z.pow_add_r by lia. f_equal. lia.
Qed.

(** The quotient by 100 of a rounded integer, when it is within the
    maximum [mM * 2^-23]: the integer is below [10^11] and the quotient is
    the number the literal denotes. *)
Lemma rounded_integer_quotient s (p mM : positive) :
  Zpos mM < 10 ^ 9 * 2 ^ 23 ->
  gt (Math_abs (div (binary_round prec emax s p 0)
                  (S754_finite false mf (-46))))
     (S754_finite false mM (-23)) = false ->
  Zpos p < 10 ^ 11
  /\ div (binary_round prec emax s p 0) (S754_finite false mf (-46))
     = of_ratio s p 100.
Proof.
  intros HM G.
  destruct (Z.lt_ge_cases (Zpos p) (2 ^ 53)) as [C | C].
  - destruct (binary_round_integer s p) as [BR _].
    rewrite (BR C) in *.
    destruct (Z.lt_ge_cases (Zpos p) (10 ^ 11)) as [C1 | C1].
    + split; [exact C1 |].
      rewrite (div_hundred_ratio_canonical s (Zpos p)) by lia.
      reflexivity.
    + exfalso. unfold canonical in G.
      pose proof (canonical_digits (Zpos p) ltac:(lia)) as CD.
      destruct (Zdigits2_bounds (Zpos p) ltac:(lia)) as [_ DP].
      assert (D : Zdigits2 (Zpos p) <= 53) by (apply Zdigits2_upper; lia).
      rewrite div_hundred_large in G; [discriminate G | | exact HM].
      rewrite Z2Pos.id by lia.
      destruct (Z.eq_dec (Zdigits2 (Zpos p)) 53) as [E | E].
      * left. rewrite E. change (53 - 53) with 0.
        rewrite Z.pow_0_r, !Z.mul_1_r. lia.
      * right. split; [lia |].
        replace (- (Zdigits2 (Zpos p) - 53)) with (53 - Zdigits2 (Zpos p))
          by lia.
        apply Z.mul_le_mono_nonneg_r; [apply Z.pow_nonneg; lia | exact C1].
  - exfalso.
    destruct (binary_round_integer_large s p C) as (my & ey & E1 & MY & R).
    rewrite R in G. destruct (ey <=? 971).
    + rewrite div_hundred_large in G; [discriminate G | | exact HM].
      left. split; [lia |].
      assert (2 ^ 1 <= 2 ^ ey) by (apply Z.pow_le_mono_r; lia).
      change (2 ^ 1) with 2 in *.
      assert (2 ^ 52 * 2 <= Zpos my * 2 ^ ey)
        by (apply Z.mul_le_mono_nonneg; lia).
      lia.
    + cbn in G. discriminate G.
Qed.

(** The quotient by 100 of what [Math.round] returns, when it is a number
    within the maximum: a zero, or the number a literal [N / 100] with
    [N] below [10^11] denotes. *)
Lemma rounded_quotient_shape (w : number) (mM : positive) :
  Zpos mM < 10 ^ 9 * 2 ^ 23 ->
  let r := div (Math_round w) (S754_finite false mf (-46)) in
  gt (Math_abs r) (S754_finite false mM (-23)) = false ->
  isNaN r = false ->
  (exists s, r = S754_zero s)
  \/ (exists s N, 0 < N < 10 ^ 11 /\ r = of_ratio s (Z.to_pos N) 100).
Proof.
  intros HM r G NN. subst r.
  destruct w as [s | s | | s m e].
  - left. exists (xorb s false). reflexivity.
  - cbn in G. discriminate G.
  - cbn in NN. discriminate NN.
  - unfold Math_round in *.
    destruct (Z.leb_spec 0 e) as [E | E].
    + destruct (Z.lt_ge_cases (Zpos m * 2 ^ e) (10 ^ 11)) as [C | C].
      * right. exists s, (Zpos m * 2 ^ e).
        assert (PE : 0 < 2 ^ e) by (apply Z.pow_pos_nonneg; lia).
        assert (0 < Zpos m * 2 ^ e) by (apply Z.mul_pos_pos; lia).
        split; [lia |].
        apply div_hundred_ratio_integer; lia.
      * exfalso.
        rewrite div_hundred_large in G; [discriminate G | | exact HM].
        left. split; assumption.
    + set (K := (2 * cond_Zopp s (Zpos m) + 2 ^ (- e)) / 2 ^ (1 - e)) in *.
      destruct K as [| p | p]; cbn [binary_normalize] in *.
      * left. exists (xorb s false). reflexivity.
      * destruct (rounded_integer_quotient false p mM HM G) as [B Q].
        right. exists false, (Zpos p). split; [lia |].
        rewrite Pos2Z.id. exact Q.
      * destruct (rounded_integer_quotient true p mM HM G) as [B Q].
        right. exists true, (Zpos p). split; [lia |].
        rewrite Pos2Z.id. exact Q.
Qed.

(** Scaling an amount up and rounding gives its hundredths back, so the
    amount is a fixed point of the rounding. *)
Lemma amount_round_trip s N :
  0 < N < 10 ^ 11 ->
  let r := of_ratio s (Z.to_pos N) 100 in
  div (Math_round (mul r (S754_finite false mf (-46))))
      (S754_finite false mf (-46)) = r.
Proof.
  intros HN r. subst r.
  assert (N51 : 0 < N < 2 ^ 51) by lia.
  rewrite <- (div_hundred_ratio_canonical s N) by lia.
  pose proof (round_mul_div s N mf (-46) N51 hundred_bounds ltac:(lia)) as RT.
  cbv zeta in RT. rewrite RT. reflexivity.
Qed.

End HundredthsFacts.

Section CheckbookResults.

Lemma hundred_factor :
  Math_pow10 (Z.of_nat (CalculatorEngine.decimalPlaces checkbook))
  = S754_finite false 7036874417766400 (-46).
Proof. vm_compute. reflexivity. Qed.

Lemma hundred_mantissa : Zpos 7036874417766400 = 100 * 2 ^ 46.
Proof. vm_compute. reflexivity. Qed.

Lemma MAX_VALUE_finite :
  MAX_VALUE = S754_finite false 8388607999916114 (-23).
Proof. vm_compute. reflexivity. Qed.

Lemma MAX_VALUE_mantissa : Zpos 8388607999916114 < 10 ^ 9 * 2 ^ 23.
Proof. vm_compute. reflexivity. Qed.

(** What Checkbook rounding returns within the maximum: a zero or an
    amount of less than [10^11] hundredths. *)
Lemma checkbook_rounded x :
  gt (Math_abs (CalculatorEngine.roundToMode x checkbook)) MAX_VALUE = false ->
  isNaN (CalculatorEngine.roundToMode x checkbook) = false ->
  (exists s, CalculatorEngine.roundToMode x checkbook = S754_zero s)
  \/ (exists s N,
         0 < N < 10 ^ 11
         /\ CalculatorEngine.roundToMode x checkbook
            = of_ratio s (Z.to_pos N) 100).
Proof.
  unfold CalculatorEngine.roundToMode. cbv zeta.
  rewrite hundred_factor, MAX_VALUE_finite.
  intros G NN.
  exact (rounded_quotient_shape _ hundred_mantissa _ _
           MAX_VALUE_mantissa G NN).
Qed.

Lemma roundToMode_amount s N :
  0 < N < 10 ^ 11 ->
  CalculatorEngine.roundToMode (of_ratio s (Z.to_pos N) 100) checkbook
  = of_ratio s (Z.to_pos N) 100.
Proof.
  intros HN. unfold CalculatorEngine.roundToMode. cbv zeta.
  rewrite hundred_factor.
  exact (amount_round_trip _ hundred_mantissa s N HN).
Qed.

Lemma roundToMode_zero s mode :
  CalculatorEngine.roundToMode (S754_zero s) mode = S754_zero s.
Proof. destruct s, mode; vm_compute; reflexivity. Qed.

Lemma roundToMode_NaN mode : CalculatorEngine.roundToMode NaN mode = NaN.
Proof. destruct mode; vm_compute; reflexivity. Qed.

(** A Checkbook result within the maximum is a fixed point of the
    rounding. *)
Lemma checkbook_rounded_fixed x :
  gt (Math_abs (CalculatorEngine.roundToMode x checkbook)) MAX_VALUE = false ->
  CalculatorEngine.roundToMode (CalculatorEngine.roundToMode x checkbook)
    checkbook
  = CalculatorEngine.roundToMode x checkbook.
Proof.
  intros G.
  destruct (isNaN (CalculatorEngine.roundToMode x checkbook)) eqn:NN.
  - destruct (CalculatorEngine.roundToMode x checkbook); try discriminate NN.
    apply roundToMode_NaN.
  - destruct (checkbook_rounded x G NN) as [[s E] | (s & N & HN & E)];
      rewrite E.
    + apply roundToMode_zero.
    + apply roundToMode_amount, HN.
Qed.

(** The successful outcomes of [calculate]. *)
Lemma calculate_success a operation b mode :
  (CalculatorEngine.calculate a operation b mode).(CalculatorEngine.error)
  = false ->
  (operation = None
   /\ (CalculatorEngine.calculate a operation b mode).(CalculatorEngine.result)
      = zero)
  \/ (exists raw,
         (CalculatorEngine.calculate a operation b mode).(CalculatorEngine.result)
         = CalculatorEngine.roundToMode raw mode
         /\ gt (Math_abs (CalculatorEngine.roundToMode raw mode)) MAX_VALUE
            = false).
Proof.
  destruct operation as [op |]; [| left; split; reflexivity].
  intros E. right.
  destruct (CalculatorEngine.dispatch a op b) as [early | raw] eqn:D.
  - rewrite (calculate_early a op b mode early D) in E. discriminate E.
  - rewrite (calculate_raw a op b mode raw D) in *.
    destruct (gt (Math_abs (CalculatorEngine.roundToMode raw mode)) MAX_VALUE)
      eqn:G; [discriminate E |].
    exists raw. split; [reflexivity | exact G].
Qed.

End CheckbookResults.

(** X12.  Every result of a successful Checkbook calculation is already
    rounded: whatever the operands and the operation, when [calculate]
    reports no error in Checkbook mode, rounding its result again to the
    mode returns the same number. *)
Theorem checkbook_result_is_rounded :
  forall (a b : number) (operation : Operation),
    let r := CalculatorEngine.calculate a operation b checkbook in
    r.(CalculatorEngine.error) = false ->
    CalculatorEngine.roundToMode r.(CalculatorEngine.result) checkbook
    = r.(CalculatorEngine.result).
Proof.
  intros a b operation r E. subst r.
  destruct (calculate_success a operation b checkbook E)
    as [[_ Z] | (raw & R & G)].
  - rewrite Z. apply roundToMode_zero.
  - rewrite R. apply checkbook_rounded_fixed, G.
Qed.

Lemma checkbook_result_is_rounded_witness :
  CalculatorEngine.roundToMode
    (CalculatorEngine.calculate (Num.of_Z 10) (Some Divide) (Num.of_Z 3)
       checkbook).(CalculatorEngine.result) checkbook
  = (CalculatorEngine.calculate (Num.of_Z 10) (Some Divide) (Num.of_Z 3)
       checkbook).(CalculatorEngine.result).
Proof.
  apply (checkbook_result_is_rounded (Num.of_Z 10) (Num.of_Z 3) (Some Divide)).
  vm_compute. reflexivity.
Defined.

(* ================================================================== *)
(** * Checkbook mode: the display reads back as the result *)
(* ================================================================== *)

From Stdlib Require DecimalFacts DecimalPos DecimalN.

Ltac eval_code :=
  match goal with
  | |- context [Str.code ?c] =>
      let v := eval vm_compute in (Str.code c) in
      change (Str.code c) with v
  end.

Section DigitFacts.

Local Open Scope string_scope.
Local Open Scope Z_scope.

Lemma read_digits_app ds : forall rest acc cnt,
  all_digits ds = true -> no_digit_ahead rest ->
  Str.read_digits (ds ++ rest) acc cnt
  = (digits_value acc ds, cnt + Z.of_nat (String.length ds), rest).
Proof.
  induction ds as [| c ds IH]; intros rest acc cnt A R.
  - cbn [append digits_value String.length]. rewrite Z.add_0_r.
    destruct rest as [| c r]; [reflexivity |].
    cbn [Str.read_digits]. cbn in R. rewrite R. reflexivity.
  - cbn [all_digits] in A. apply andb_prop in A. destruct A as [A1 A2].
    cbn [append Str.read_digits digits_value String.length]. rewrite A1.
    rewrite (IH rest _ _ A2 R). f_equal. f_equal. lia.
Qed.

Lemma digits_value_app a : forall b acc,
  digits_value acc (a ++ b) = digits_value (digits_value acc a) b.
Proof.
  induction a as [| c a IH]; intros b acc; [reflexivity |].
  cbn [append digits_value]. apply IH.
Qed.

Lemma all_digits_app a b :
  all_digits (a ++ b) = (all_digits a && all_digits b)%bool.
Proof.
  induction a as [| c a IH]; [reflexivity |].
  cbn [append all_digits]. rewrite IH, andb_assoc. reflexivity.
Qed.

Lemma length_append (a b : string) :
  String.length (a ++ b) = (String.length a + String.length b)%nat.
Proof.
  induction a as [| c a IH]; [reflexivity |].
  cbn [append String.length]. rewrite IH. reflexivity.
Qed.

Lemma zeros_digits n :
  all_digits (Str.zeros n) = true
  /\ String.length (Str.zeros n) = n
  /\ forall s, digits_value 0 (Str.zeros n ++ s) = digits_value 0 s.
Proof.
  induction n as [| n (A & L & V)]; [repeat split |].
  cbn [Str.zeros]. repeat split.
  - exact A.
  - cbn [append String.length]. rewrite L. reflexivity.
  - intros s. cbn [append digits_value]. apply V.
Qed.

(** ** The decimal digits of an integer *)

Lemma string_of_uint_digits u :
  all_digits (NilEmpty.string_of_uint u) = true
  /\ String.length (NilEmpty.string_of_uint u) = Decimal.nb_digits u.
Proof.
  induction u as [| u [A L] | u [A L] | u [A L] | u [A L] | u [A L]
                  | u [A L] | u [A L] | u [A L] | u [A L] | u [A L]];
    cbn [NilEmpty.string_of_uint all_digits String.length Decimal.nb_digits];
    (split; [try exact A; try reflexivity | try rewrite L; reflexivity]).
Qed.

Lemma digits_value_acc u : forall acc : positive,
  digits_value (Zpos acc) (NilEmpty.string_of_uint u)
  = Zpos (Pos.of_uint_acc u acc).
Proof.
  induction u as [| u IH | u IH | u IH | u IH | u IH
                  | u IH | u IH | u IH | u IH | u IH];
    intros acc; cbn [NilEmpty.string_of_uint digits_value Pos.of_uint_acc];
    [reflexivity | rewrite <- IH; f_equal; eval_code; lia ..].
Qed.

Lemma digits_value_of_uint u :
  digits_value 0 (NilEmpty.string_of_uint u) = Z.of_N (Pos.of_uint u).
Proof.
  induction u as [| u IH | u IH | u IH | u IH | u IH
                  | u IH | u IH | u IH | u IH | u IH];
    cbn [NilEmpty.string_of_uint digits_value Pos.of_uint];
    [reflexivity | exact IH | apply digits_value_acc ..].
Qed.

(** The accumulated value has at least as many digits as were read. *)
Lemma of_uint_acc_lower u : forall acc : positive,
  Zpos acc * 10 ^ Z.of_nat (Decimal.nb_digits u)
  <= Zpos (Pos.of_uint_acc u acc).
Proof.
  induction u as [| u IH | u IH | u IH | u IH | u IH
                  | u IH | u IH | u IH | u IH | u IH];
    intros acc; cbn [Decimal.nb_digits Pos.of_uint_acc];
    [cbn; lia | ..];
    (rewrite Nat2Z.inj_succ, Z.pow_succ_r by lia;
     eapply Z.le_trans; [| apply IH];
     assert (0 <= 10 ^ Z.of_nat (Decimal.nb_digits u))
       by (apply Z.pow_nonneg; lia);
     match goal with
     | |- _ <= Zpos ?q * ?t =>
         assert (10 * Zpos acc <= Zpos q) by lia;
         assert (10 * Zpos acc * t <= Zpos q * t)
           by (apply Z.mul_le_mono_nonneg_r; lia);
         lia
     end).
Qed.

(** The decimal form of a positive number does not start with a zero. *)
Lemma to_uint_head p :
  exists u (k : positive),
    (Zpos k <= 9)
    /\ Pos.to_uint p <> Decimal.Nil
    /\ Decimal.nb_digits (Pos.to_uint p) = S (Decimal.nb_digits u)
    /\ Pos.of_uint (Pos.to_uint p) = Npos (Pos.of_uint_acc u k).
Proof.
  pose proof (DecimalPos.Unsigned.to_of (Pos.to_uint p)) as N.
  rewrite DecimalPos.Unsigned.of_to in N. cbn [N.to_uint] in N.
  pose proof (DecimalPos.Unsigned.to_uint_nonzero p) as Z0.
  pose proof (DecimalPos.Unsigned.to_uint_nonnil p) as N0.
  destruct (Pos.to_uint p) as [| u | u | u | u | u | u | u | u | u | u] eqn:E;
    [congruence | | ..].
  - exfalso. unfold Decimal.unorm in N. cbn [Decimal.nzhead] in N.
    pose proof (DecimalFacts.nb_digits_nzhead u) as L.
    destruct (Decimal.nzhead u) eqn:H; try discriminate N;
      [injection N as N; subst u; apply Z0; reflexivity |].
    injection N as N. rewrite N in L. cbn [Decimal.nb_digits] in L. lia.
  - exists u, 1%positive. repeat split; try lia; discriminate.
  - exists u, 2%positive. repeat split; try lia; discriminate.
  - exists u, 3%positive. repeat split; try lia; discriminate.
  - exists u, 4%positive. repeat split; try lia; discriminate.
  - exists u, 5%positive. repeat split; try lia; discriminate.
  - exists u, 6%positive. repeat split; try lia; discriminate.
  - exists u, 7%positive. repeat split; try lia; discriminate.
  - exists u, 8%positive. repeat split; try lia; discriminate.
  - exists u, 9%positive. repeat split; try lia; discriminate.
Qed.

(** The digits of [Str.of_Z]: their value is the integer and there are no
    more of them than the integer needs. *)
Lemma of_Z_digits (n : Z) (k : nat) :
  0 < n < 10 ^ Z.of_nat k ->
  all_digits (Str.of_Z n) = true
  /\ digits_value 0 (Str.of_Z n) = n
  /\ (1 <= String.length (Str.of_Z n) <= k)%nat.
Proof.
  intros H. unfold Str.of_Z.
  destruct n as [| p | p]; try lia. cbn [Z.to_N N.to_uint].
  destruct (to_uint_head p) as (u & h & H9 & NN & ND & V).
  assert (S0 : NilZero.string_of_uint (Pos.to_uint p)
               = NilEmpty.string_of_uint (Pos.to_uint p)).
  { unfold NilZero.string_of_uint. destruct (Pos.to_uint p); congruence. }
  rewrite S0.
  destruct (string_of_uint_digits (Pos.to_uint p)) as [A L].
  split; [exact A |]. split.
  - rewrite digits_value_of_uint, DecimalPos.Unsigned.of_to. reflexivity.
  - rewrite L, ND. split; [lia |].
    rewrite DecimalPos.Unsigned.of_to in V. injection V as V.
    pose proof (of_uint_acc_lower u h) as LB. rewrite <- V in LB.
    destruct (Nat.le_gt_cases (S (Decimal.nb_digits u)) k) as [C | C];
      [exact C | exfalso].
    assert (10 ^ Z.of_nat k <= 10 ^ Z.of_nat (Decimal.nb_digits u))
      by (apply Z.pow_le_mono_r; lia).
    assert (1 * 10 ^ Z.of_nat (Decimal.nb_digits u)
            <= Zpos h * 10 ^ Z.of_nat (Decimal.nb_digits u))
      by (apply Z.mul_le_mono_nonneg_r; [apply Z.pow_nonneg |]; lia).
    lia.
Qed.

End DigitFacts.

Section DisplayRoundTrip.

Local Open Scope string_scope.
Local Open Scope Z_scope.

Lemma substring_0_all s : substring 0 (String.length s) s = s.
Proof.
  induction s as [| c s IH]; [reflexivity |].
  cbn [String.length substring]. rewrite IH. reflexivity.
Qed.

Lemma substring_split n : forall s,
  (n <= String.length s)%nat ->
  substring 0 n s ++ substring n (String.length s - n) s = s.
Proof.
  induction n as [| n IH]; intros s H.
  - rewrite Nat.sub_0_r, substring_0_all.
    destruct s; reflexivity.
  - destruct s as [| c s]; [cbn in H; lia |].
    cbn [String.length] in *. cbn [substring Nat.sub append].
    rewrite IH by lia. reflexivity.
Qed.

Lemma substring_0_length n : forall s,
  (n <= String.length s)%nat -> String.length (substring 0 n s) = n.
Proof.
  induction n as [| n IH]; intros s H.
  - destruct s; reflexivity.
  - destruct s as [| c s]; [cbn in H; lia |].
    cbn [String.length] in *. cbn [substring String.length].
    rewrite IH by lia. reflexivity.
Qed.

(** The text of an amount of [N] hundredths: digits, a point, two digits. *)
Lemma fixed_digits_two N :
  0 < N < 10 ^ 11 ->
  exists A B,
    Str.fixed_digits N 2 = A ++ "." ++ B
    /\ all_digits A = true /\ all_digits B = true
    /\ (1 <= String.length A <= 9)%nat
    /\ String.length B = 2%nat
    /\ digits_value (digits_value 0 A) B = N.
Proof.
  intros H.
  destruct (of_Z_digits N 11 H) as (A0 & V0 & L0).
  unfold Str.fixed_digits. cbv zeta.
  set (m := Str.of_Z N) in *.
  set (m' := if (String.length m <=? 2)%nat
             then Str.zeros (2 + 1 - String.length m) ++ m else m).
  assert (M : all_digits m' = true /\ digits_value 0 m' = N
              /\ (3 <= String.length m' <= 11)%nat).
  { subst m'. destruct (Nat.leb_spec (String.length m) 2) as [C | C].
    - destruct (zeros_digits (2 + 1 - String.length m)) as (ZA & ZL & ZV).
      rewrite all_digits_app, ZA, A0, ZV, length_append, ZL.
      repeat split; try assumption; lia.
    - repeat split; try assumption; lia. }
  destruct M as (MA & MV & ML).
  set (n := (String.length m' - 2)%nat).
  exists (substring 0 n m'), (substring n 2 m').
  assert (SP : substring 0 n m' ++ substring n 2 m' = m').
  { assert (N2 : (n <= String.length m')%nat) by (subst n; lia).
    pose proof (substring_split n m' N2) as SP0.
    replace (String.length m' - n)%nat with 2%nat in SP0 by (subst n; lia).
    exact SP0. }
  assert (LA : String.length (substring 0 n m') = n)
    by (apply substring_0_length; subst n; lia).
  assert (LB : String.length (substring n 2 m') = 2%nat).
  { pose proof (f_equal String.length SP) as E.
    rewrite length_append, LA in E. subst n. lia. }
  rewrite <- SP in MA, MV.
  rewrite all_digits_app in MA. apply andb_prop in MA.
  rewrite digits_value_app in MV.
  split; [reflexivity |].
  split; [exact (proj1 MA) |]. split; [exact (proj2 MA) |].
  split; [rewrite LA; subst n; lia |].
  split; [exact LB | exact MV].
Qed.

Lemma skip_ws_other c r :
  32 < Str.code c < 128 -> Str.skip_ws (String c r) = String c r.
Proof.
  intros H. cbn [Str.skip_ws]. cbv zeta.
  rewrite (proj2 (Z.leb_gt (Str.code c) 13)) by lia.
  rewrite andb_false_r.
  rewrite (proj2 (Z.eqb_neq (Str.code c) 32)) by lia. cbn [orb].
  destruct r as [| c1 r1]; [reflexivity |].
  rewrite (proj2 (Z.eqb_neq (Str.code c) 194)) by lia. cbn [andb].
  destruct r1 as [| c2 r2]; [reflexivity |].
  rewrite (proj2 (Z.eqb_neq (Str.code c) 225)) by lia.
  rewrite (proj2 (Z.eqb_neq (Str.code c) 226)) by lia.
  rewrite (proj2 (Z.eqb_neq (Str.code c) 227)) by lia.
  rewrite (proj2 (Z.eqb_neq (Str.code c) 239)) by lia.
  reflexivity.
Qed.

Lemma is_digit_cases c :
  Str.is_digit c = true ->
  In c ["0"; "1"; "2"; "3"; "4"; "5"; "6"; "7"; "8"; "9"]%char.
Proof.
  intros H.
  destruct c as [[] [] [] [] [] [] [] []];
    try (vm_compute in H; discriminate H);
    cbn [In]; repeat (first [left; reflexivity | right]).
Qed.

Lemma read_digits_all ds acc cnt :
  all_digits ds = true ->
  Str.read_digits ds acc cnt
  = (digits_value acc ds, cnt + Z.of_nat (String.length ds), "").
Proof.
  intros A. pose proof (read_digits_app ds "" acc cnt A I) as R.
  assert (E : ds ++ "" = ds).
  { clear. induction ds as [| c ds IH]; [reflexivity |].
    cbn [append]. rewrite IH. reflexivity. }
  rewrite E in R. exact R.
Qed.

(** What [parseFloat] reads from digits, a point and digits, after an
    optional minus sign. *)
Lemma parseFloat_fixed (sg : bool) A B :
  all_digits A = true -> A <> "" -> all_digits B = true -> B <> "" ->
  Str.parseFloat ((if sg then "-" else "") ++ A ++ "." ++ B)
  = of_decimal sg (digits_value (digits_value 0 A) B)
      (- Z.of_nat (String.length B)).
Proof.
  intros HA NA HB NB.
  destruct A as [| c A']; [congruence |].
  cbn [all_digits] in HA. apply andb_prop in HA. destruct HA as [HC HA].
  assert (ND : no_digit_ahead ("." ++ B)) by reflexivity.
  assert (LB : 0 < Z.of_nat (String.length B)).
  { destruct B; [congruence | cbn [String.length]; lia]. }
  pose proof (is_digit_cases c HC) as CS. cbn [In] in CS.
  unfold Str.parseFloat.
  destruct sg; cbn [append];
    first
      [ rewrite skip_ws_other by (vm_compute; split; reflexivity)
      | rewrite skip_ws_other
          by (unfold Str.is_digit in HC; apply andb_prop in HC;
              destruct HC as [H1 H2];
              apply Z.leb_le in H1; apply Z.leb_le in H2; lia) ];
    repeat (destruct CS as [<- | CS]);
    try (exfalso; exact CS);
    cbn [prefix Str.read_digits];
    rewrite HC;
    (destruct (ascii_dec "I" _) as [X | _]; [discriminate X |]);
    cbv beta iota zeta;
    (rewrite (read_digits_app A' ("." ++ B) _ _ HA ND));
    cbn [append]; cbv beta iota zeta;
    rewrite (read_digits_all B _ _ HB);
    cbv beta iota zeta;
    (match goal with
     | |- (if ?c then _ else _) = _ =>
         replace c with false by (symmetry; apply Z.eqb_neq; lia)
     end);
    cbn [Str.read_exponent digits_value];
    f_equal; lia.
Qed.

End DisplayRoundTrip.

Section CheckbookDisplay.

Local Open Scope string_scope.
Local Open Scope Z_scope.

Lemma strict_eq_refl x : isNaN x = false -> strict_eq x x = true.
Proof.
  destruct x as [s | s | | s m e]; intros H; try discriminate H.
  - reflexivity.
  - destruct s; reflexivity.
  - unfold strict_eq, SFeqb, SFcompare.
    rewrite Z.compare_refl.
    change (PosDef.Pos.compare_cont Eq m m) with (Pos.compare m m).
    rewrite Pos.compare_refl. destruct s; reflexivity.
Qed.

Lemma formatForDisplay_short value mode :
  (String.length (Str.toFixed value (CalculatorEngine.decimalPlaces mode))
   <= MAX_DISPLAY_LENGTH)%nat ->
  CalculatorEngine.formatForDisplay value mode ""
  = Str.toFixed value (CalculatorEngine.decimalPlaces mode).
Proof.
  intros H. unfold CalculatorEngine.formatForDisplay. cbv zeta.
  rewrite (proj2 (Nat.ltb_ge _ _) H). destruct mode; reflexivity.
Qed.

(** The display of an amount of [N] hundredths: its text is not
    truncated and reads back as the amount. *)
Lemma amount_display s N :
  0 < N < 10 ^ 11 ->
  CalculatorEngine.formatForDisplay (of_ratio s (Z.to_pos N) 100) checkbook ""
  = Str.toFixed (of_ratio s (Z.to_pos N) 100) 2
  /\ (String.length (Str.toFixed (of_ratio s (Z.to_pos N) 100) 2) <= 13)%nat
  /\ CalculatorEngine.getDisplayValue
       (Str.toFixed (of_ratio s (Z.to_pos N) 100) 2)
     = of_ratio s (Z.to_pos N) 100.
Proof.
  intros HN.
  destruct (fixed_digits_two N HN) as (A & B & F & HA & HB & LA & LB & V).
  rewrite (toFixed_hundredths s N HN), F.
  set (str := (if s then "-" else "") ++ A ++ "." ++ B).
  assert (L : (4 <= String.length str <= 13)%nat).
  { subst str. rewrite !length_append, LB. cbn [String.length].
    destruct s; cbn [String.length]; lia. }
  assert (T : Str.toFixed (of_ratio s (Z.to_pos N) 100)
                (CalculatorEngine.decimalPlaces checkbook) = str).
  { change (CalculatorEngine.decimalPlaces checkbook) with 2%nat.
    rewrite (toFixed_hundredths s N HN), F. reflexivity. }
  split; [| split; [lia |]].
  - rewrite formatForDisplay_short; rewrite T;
      [reflexivity | unfold MAX_DISPLAY_LENGTH; lia].
  - unfold CalculatorEngine.getDisplayValue.
    assert (E1 : String.eqb str "" = false).
    { apply String.eqb_neq. intros E.
      apply (f_equal String.length) in E. cbn [String.length] in E. lia. }
    assert (E2 : String.eqb str "-" = false).
    { apply String.eqb_neq. intros E.
      apply (f_equal String.length) in E. cbn [String.length] in E. lia. }
    rewrite E1, E2. cbn [orb]. cbv zeta.
    assert (P : Str.parseFloat str = of_ratio s (Z.to_pos N) 100).
    { subst str. rewrite parseFloat_fixed; try assumption.
      - rewrite V, LB. destruct N as [| p | p]; try lia.
        reflexivity.
      - destruct A; [cbn in LA; lia | discriminate].
      - destruct B; [discriminate LB | discriminate]. }
    rewrite P.
    destruct (ratio_hundred_rounds s N HN) as (my & ey & R & _).
    rewrite R. reflexivity.
Qed.

Lemma zero_display s :
  CalculatorEngine.formatForDisplay (S754_zero s) checkbook ""
  = Str.toFixed (S754_zero s) 2
  /\ (String.length (Str.toFixed (S754_zero s) 2) <= 13)%nat
  /\ CalculatorEngine.getDisplayValue (Str.toFixed (S754_zero s) 2) = zero.
Proof. destruct s; vm_compute; repeat split; repeat constructor. Qed.

(** The display of a Checkbook result within the maximum. *)
Lemma checkbook_rounded_display x :
  gt (Math_abs (CalculatorEngine.roundToMode x checkbook)) MAX_VALUE = false ->
  isNaN (CalculatorEngine.roundToMode x checkbook) = false ->
  let r := CalculatorEngine.roundToMode x checkbook in
  CalculatorEngine.formatForDisplay r checkbook "" = Str.toFixed r 2
  /\ (String.length (Str.toFixed r 2) <= 13)%nat
  /\ strict_eq (CalculatorEngine.getDisplayValue (Str.toFixed r 2)) r = true
  /\ ((forall s, r <> S754_zero s) ->
      CalculatorEngine.getDisplayValue (Str.toFixed r 2) = r).
Proof.
  intros G NN r. subst r.
  destruct (checkbook_rounded x G NN) as [[s E] | (s & N & HN & E)];
    rewrite E.
  - destruct (zero_display s) as (F & L & V).
    split; [exact F |]. split; [exact L |]. rewrite V. split.
    + destruct s; reflexivity.
    + intros Z. exfalso. apply (Z s). reflexivity.
  - destruct (amount_display s N HN) as (F & L & V).
    split; [exact F |]. split; [exact L |]. rewrite V. split.
    + apply strict_eq_refl. rewrite <- E. exact NN.
    + reflexivity.
Qed.

Lemma calculate_display a operation b :
  (CalculatorEngine.calculate a operation b checkbook).(CalculatorEngine.error)
  = false ->
  isNaN (CalculatorEngine.calculate a operation b checkbook)
          .(CalculatorEngine.result) = false ->
  let r := (CalculatorEngine.calculate a operation b checkbook)
             .(CalculatorEngine.result) in
  CalculatorEngine.formatForDisplay r checkbook "" = Str.toFixed r 2
  /\ (String.length (Str.toFixed r 2) <= 13)%nat
  /\ strict_eq (CalculatorEngine.getDisplayValue (Str.toFixed r 2)) r = true
  /\ ((forall s, r <> S754_zero s) ->
      CalculatorEngine.getDisplayValue (Str.toFixed r 2) = r).
Proof.
  intros E NN r. subst r.
  destruct (calculate_success a operation b checkbook E)
    as [[_ Z] | (raw & R & G)].
  - rewrite Z. destruct (zero_display false) as (F & L & V).
    split; [exact F |]. split; [exact L |]. unfold zero. rewrite V. split.
    + reflexivity.
    + intros Z0. exfalso. apply (Z0 false). reflexivity.
  - rewrite R in *. apply checkbook_rounded_display; assumption.
Qed.

End CheckbookDisplay.

(** X13.  In Checkbook mode the display carries the result.  For every
    successful calculation whose result is a number, the text
    [formatForDisplay] makes of the result is its two-decimal text, at most
    13 characters long and so never truncated, and [getDisplayValue] reads
    from that text a number equal ([===]) to the result, the very same
    number unless the result is a zero. *)
Theorem checkbook_display_reads_back :
  forall (a b : number) (operation : Operation),
    let r := (CalculatorEngine.calculate a operation b checkbook)
               .(CalculatorEngine.result) in
    let shown := CalculatorEngine.formatForDisplay r checkbook "" in
    (CalculatorEngine.calculate a operation b checkbook)
      .(CalculatorEngine.error) = false ->
    isNaN r = false ->
    shown = Str.toFixed r 2
    /\ (String.length shown <= 13)%nat
    /\ strict_eq (CalculatorEngine.getDisplayValue shown) r = true
    /\ ((forall s, r <> S754_zero s) ->
        CalculatorEngine.getDisplayValue shown = r).
Proof.
  intros a b operation r shown E NN. subst shown r.
  destruct (calculate_display a operation b E NN) as (F & L & Q & V).
  rewrite F. repeat split; assumption.
Qed.

Lemma checkbook_display_reads_back_witness :
  CalculatorEngine.formatForDisplay
    (CalculatorEngine.calculate (Num.of_Z 10) (Some Divide) (Num.of_Z 3)
       checkbook).(CalculatorEngine.result) checkbook ""
  = Str.toFixed
      (CalculatorEngine.calculate (Num.of_Z 10) (Some Divide) (Num.of_Z 3)
         checkbook).(CalculatorEngine.result) 2.
Proof.
  apply (checkbook_display_reads_back (Num.of_Z 10) (Num.of_Z 3)
           (Some Divide)); vm_compute; reflexivity.
Defined.

(** X14.  A Checkbook result is an amount in hundredths.  The result of
    every successful Checkbook calculation that is a number is the number
    a two-decimal literal denotes: there are a sign and an integer [N]
    between 0 and 99,999,999,999 for which the result is the binary64
    value of [N / 100] with that sign. *)
Theorem checkbook_result_is_an_amount :
  forall (a b : number) (operation : Operation),
    let r := (CalculatorEngine.calculate a operation b checkbook)
               .(CalculatorEngine.result) in
    (CalculatorEngine.calculate a operation b checkbook)
      .(CalculatorEngine.error) = false ->
    isNaN r = false ->
    exists (negative : bool) (N : Z),
      0 <= N <= 99999999999 /\ r = of_decimal negative N (-2).
Proof.
  intros a b operation r E NN. subst r.
  destruct (calculate_success a operation b checkbook E)
    as [[_ Z] | (raw & R & G)].
  - exists false, 0. split; [lia | exact Z].
  - rewrite R in *.
    destruct (checkbook_rounded raw G NN) as [[s Q] | (s & N & HN & Q)];
      rewrite Q.
    + exists s, 0. split; [lia | reflexivity].
    + exists s, N. split; [lia |].
      destruct N as [| p | p]; try lia. reflexivity.
Qed.

Lemma checkbook_result_is_an_amount_witness :
  exists (negative : bool) (N : Z),
    0 <= N <= 99999999999
    /\ (CalculatorEngine.calculate (Num.of_Z 10) (Some Divide) (Num.of_Z 3)
          checkbook).(CalculatorEngine.result)
       = of_decimal negative N (-2).
Proof.
  apply (checkbook_result_is_an_amount (Num.of_Z 10) (Num.of_Z 3)
           (Some Divide)); vm_compute; reflexivity.
Defined.

(** X15.  In Checkbook mode the number shown is the number kept.  After
    an operator press that leaves no error, and after an equals press that
    calculates and leaves no error, the previous value the session keeps,
    when it is a number, is equal ([===]) to what [getDisplayValue] reads
    from the display. *)
Theorem checkbook_display_shows_previous_value :
  (forall (prev : CalculatorState) (newOperation : Operation) (v : number),
      prev.(error) = false ->
      let next := Session.handleOperatorPress checkbook newOperation prev in
      next.(error) = false ->
      next.(previousValue) = Some v ->
      isNaN v = false ->
      strict_eq (CalculatorEngine.getDisplayValue next.(display)) v = true)
  /\ (forall (prev : CalculatorState) (o : Operator) (p v : number),
         prev.(error) = false ->
         prev.(operation) = Some o ->
         prev.(previousValue) = Some p ->
         let next := Session.handleEquals checkbook prev in
         next.(error) = false ->
         next.(previousValue) = Some v ->
         isNaN v = false ->
         strict_eq (CalculatorEngine.getDisplayValue next.(display)) v = true).
Proof.
  split.
  - intros prev newOperation v E next. subst next.
    unfold Session.handleOperatorPress. rewrite E.
    destruct (previousValue prev) as [previous |] eqn:P;
      [destruct (operation prev) as [o |] eqn:O;
       [destruct (waitingForOperand prev) eqn:W |] |];
      try (cbn [error previousValue display]; intros _ V NN;
           injection V as <-; apply strict_eq_refl, NN).
    destruct (CalculatorEngine.error
                (CalculatorEngine.calculate previous (Some o)
                   (CalculatorEngine.getDisplayValue (display prev))
                   checkbook)) eqn:R;
      cbn [error previousValue display]; intros E' V NN;
      [discriminate E' |].
    injection V as <-.
    destruct (calculate_display _ _ _ R NN) as (F & _ & Q & _).
    rewrite F. exact Q.
  - intros prev o p v E O P next. subst next.
    unfold Session.handleEquals. rewrite E, O, P.
    destruct (CalculatorEngine.error
                (CalculatorEngine.calculate p (Some o)
                   (CalculatorEngine.getDisplayValue (display prev))
                   checkbook)) eqn:R;
      cbn [error previousValue display]; intros E' V NN;
      [discriminate E' |].
    injection V as <-.
    destruct (calculate_display _ _ _ R NN) as (F & _ & Q & _).
    rewrite F. exact Q.
Qed.

Lemma checkbook_display_shows_previous_value_witness :
  strict_eq
    (CalculatorEngine.getDisplayValue
       (Session.handleOperatorPress checkbook (Some Minus) twelve_plus_five)
         .(display))
    (Num.of_Z 17) = true.
Proof.
  apply (proj1 checkbook_display_shows_previous_value twelve_plus_five
           (Some Minus) (Num.of_Z 17)); vm_compute; reflexivity.
Defined.

(* ================================================================== *)
(** * The hook [useCalculator] as a state machine *)
(* ================================================================== *)

Section HookFacts.

Local Open Scope string_scope.

Lemma hook_handle_shared mode i s :
  (forall d, i <> CalculatorScreen.Digit d) ->
  hook_handle mode i s = CalculatorScreen.handle mode i s.
Proof.
  intros H. destruct i; try reflexivity. exfalso. exact (H d eq_refl).
Qed.

Lemma hook_handle_consistent mode i s :
  session_consistent s -> session_consistent (hook_handle mode i s).
Proof.
  intros C. destruct i;
    try (rewrite hook_handle_shared by discriminate;
         apply handle_consistent, C).
  destruct C as (Hop & Hmsg & Herr).
  cbn [hook_handle]. unfold useCalculator.handleNumberPress.
  destruct (error s) eqn:E; [consistency |].
  destruct (waitingForOperand s) eqn:W; [consistency |].
  destruct (_ && _)%bool; consistency.
Qed.

Lemma hook_handle_error_shows_zero mode i s :
  error_shows_zero s -> error_shows_zero (hook_handle mode i s).
Proof.
  intros C. destruct i;
    try (rewrite hook_handle_shared by discriminate;
         apply handle_error_shows_zero, C).
  unfold error_shows_zero in *.
  cbn [hook_handle]. unfold useCalculator.handleNumberPress.
  destruct (error s) eqn:E; [cbn; discriminate |].
  destruct (waitingForOperand s) eqn:W; [cbn; congruence |].
  destruct (_ && _)%bool; unfold Session.set_display; cbn; congruence.
Qed.

Lemma hook_handle_shows_text mode i s :
  shows_text s ->
  (forall d, i = CalculatorScreen.Digit d -> d <> "") ->
  shows_text (hook_handle mode i s).
Proof.
  intros S D. destruct i;
    try (rewrite hook_handle_shared by discriminate;
         apply handle_shows_text; [exact S | discriminate]).
  specialize (D d eq_refl). unfold shows_text in *.
  cbn [hook_handle]. unfold useCalculator.handleNumberPress.
  destruct (error s); [exact D |].
  destruct (waitingForOperand s); [exact D |].
  unfold Session.set_display.
  destruct (_ && _)%bool; cbn [display];
    [exact D | apply append_nonempty_l, S].
Qed.

Lemma hook_run_invariant presses : forall s,
  session_consistent s -> error_shows_zero s ->
  session_consistent (hook_run presses s)
  /\ error_shows_zero (hook_run presses s)
  /\ (shows_text s ->
      (forall mode d,
          In (mode, CalculatorScreen.Digit d) presses -> d <> "") ->
      shows_text (hook_run presses s)).
Proof.
  induction presses as [| [mode i] rest IH]; intros s C Z.
  - unfold hook_run. cbn [fold_left].
    split; [exact C |]. split; [exact Z |]. intros S _. exact S.
  - change (hook_run ((mode, i) :: rest) s)
      with (hook_run rest (hook_handle mode i s)).
    destruct (IH (hook_handle mode i s)
                (hook_handle_consistent mode i s C)
                (hook_handle_error_shows_zero mode i s Z)) as (C' & Z' & T').
    split; [exact C' |]. split; [exact Z' |].
    intros S D. apply T'.
    + apply hook_handle_shows_text; [exact S |].
      intros d ->. apply (D mode d). left. reflexivity.
    + intros m d I. apply (D m d). right. exact I.
Qed.

End HookFacts.

(** X16.  The states of the hook [useCalculator] are well formed.  After
    any run of inputs from the initial state, in whatever modes: an error
    state shows ["0"], has an empty expression and carries the
    divide-by-zero or the too-large message; a state without an error
    carries no message; a pending operation has its previous value; and
    when no digit handed to the hook is the empty text, the display is
    never empty. *)
Theorem useCalculator_states_well_formed :
  forall presses : list (CalculatorMode * CalculatorScreen.Input),
    let s := hook_run presses INITIAL_STATE in
    (s.(error) = true ->
     s.(display) = "0"%string
     /\ s.(expression) = ""%string
     /\ (s.(errorMessage)
         = CalculatorEngine.divideByZero.(CalculatorEngine.errorMessage)
         \/ s.(errorMessage)
            = CalculatorEngine.tooLarge.(CalculatorEngine.errorMessage)))
    /\ (s.(error) = false -> s.(errorMessage) = ""%string)
    /\ (s.(operation) <> None -> s.(previousValue) <> None)
    /\ ((forall mode d,
            In (mode, CalculatorScreen.Digit d) presses -> d <> ""%string) ->
        s.(display) <> ""%string).
Proof.
  intros presses s. subst s.
  assert (C0 : session_consistent INITIAL_STATE) by consistency.
  assert (Z0 : error_shows_zero INITIAL_STATE) by (intros E; discriminate E).
  destruct (hook_run_invariant presses INITIAL_STATE C0 Z0)
    as ((Hop & Hmsg & Herr) & Z & T).
  split; [| split; [exact Hmsg | split; [exact Hop |]]].
  - intros E. split; [exact (Z E) | exact (Herr E)].
  - intros D. apply T; [discriminate | exact D].
Qed.

(* ================================================================== *)
(** * What the engine reads from a text *)
(* ================================================================== *)

Section PrefixFacts.

Local Open Scope string_scope.
Local Open Scope Z_scope.

Lemma append_assoc (a b c : string) : (a ++ b) ++ c = a ++ (b ++ c).
Proof.
  induction a as [| x a IH]; [reflexivity |].
  cbn [append]. rewrite IH. reflexivity.
Qed.

Lemma read_exponent_none rest :
  no_exponent_ahead rest -> Str.read_exponent rest = 0.
Proof.
  destruct rest as [| c r]; [reflexivity |].
  cbn [no_exponent_ahead Str.read_exponent]. intros H. rewrite H.
  reflexivity.
Qed.

(** [parseFloat] on a decimal text followed by text that cannot continue
    the number. *)
Lemma parseFloat_decimal_then (sg : bool) A B rest :
  all_digits A = true -> A <> "" -> all_digits B = true -> B <> "" ->
  no_digit_ahead rest -> no_exponent_ahead rest ->
  Str.parseFloat (decimal_text sg A B ++ rest)
  = of_decimal sg (digits_value (digits_value 0 A) B)
      (- Z.of_nat (String.length B)).
Proof.
  intros HA NA HB NB NR NE.
  unfold decimal_text. rewrite !append_assoc.
  destruct A as [| c A']; [congruence |].
  cbn [all_digits] in HA. apply andb_prop in HA. destruct HA as [HC HA].
  assert (ND : no_digit_ahead ("." ++ B ++ rest)) by reflexivity.
  assert (LB : 0 < Z.of_nat (String.length B)).
  { destruct B; [congruence | cbn [String.length]; lia]. }
  pose proof (is_digit_cases c HC) as CS. cbn [In] in CS.
  unfold Str.parseFloat.
  destruct sg; cbn [append];
    first
      [ rewrite skip_ws_other by (vm_compute; split; reflexivity)
      | rewrite skip_ws_other
          by (unfold Str.is_digit in HC; apply andb_prop in HC;
              destruct HC as [H1 H2];
              apply Z.leb_le in H1; apply Z.leb_le in H2; lia) ];
    repeat (destruct CS as [<- | CS]);
    try (exfalso; exact CS);
    cbn [prefix Str.read_digits];
    rewrite HC;
    (destruct (ascii_dec "I" _) as [X | _]; [discriminate X |]);
    cbv beta iota zeta;
    (rewrite (read_digits_app A' ("." ++ B ++ rest) _ _ HA ND));
    cbn [append]; cbv beta iota zeta;
    rewrite (read_digits_app B rest _ _ HB NR);
    cbv beta iota zeta;
    (match goal with
     | |- (if ?c then _ else _) = _ =>
         replace c with false by (symmetry; apply Z.eqb_neq; lia)
     end);
    rewrite (read_exponent_none rest NE);
    cbn [digits_value];
    f_equal; lia.
Qed.

Lemma getDisplayValue_parse displayStr :
  CalculatorEngine.getDisplayValue displayStr
  = if isNaN (Str.parseFloat displayStr) then zero
    else Str.parseFloat displayStr.
Proof.
  unfold CalculatorEngine.getDisplayValue.
  destruct (String.eqb displayStr "") eqn:E1.
  - apply String.eqb_eq in E1. subst displayStr. reflexivity.
  - destruct (String.eqb displayStr "-") eqn:E2.
    + apply String.eqb_eq in E2. subst displayStr. reflexivity.
    + reflexivity.
Qed.

End PrefixFacts.

(** X17.  Text after a number is ignored.  When a decimal text (an
    optional minus sign, digits, a point, digits) is followed by any text
    that starts with neither a digit nor [e] or [E], then [parseFloat],
    [getDisplayValue] and [isValidNumber] give on the whole text what they
    give on the decimal text alone: [isValidNumber] accepts "12.34.56" as
    it accepts "12.34". *)
Theorem text_after_a_number_is_ignored :
  forall (negative : bool) (whole fraction rest : string),
    all_digits whole = true -> whole <> ""%string ->
    all_digits fraction = true -> fraction <> ""%string ->
    no_digit_ahead rest -> no_exponent_ahead rest ->
    let text := decimal_text negative whole fraction in
    Str.parseFloat (text ++ rest) = Str.parseFloat text
    /\ CalculatorEngine.getDisplayValue (text ++ rest)
       = CalculatorEngine.getDisplayValue text
    /\ CalculatorEngine.isValidNumber (text ++ rest)
       = CalculatorEngine.isValidNumber text.
Proof.
  intros negative whole fraction rest HA NA HB NB NR NE text. subst text.
  assert (P : Str.parseFloat (decimal_text negative whole fraction ++ rest)
              = Str.parseFloat (decimal_text negative whole fraction)).
  { rewrite (parseFloat_decimal_then negative whole fraction rest)
      by assumption.
    unfold decimal_text. symmetry. apply parseFloat_fixed; assumption. }
  split; [exact P |]. split.
  - rewrite !getDisplayValue_parse, P. reflexivity.
  - unfold CalculatorEngine.isValidNumber. rewrite P. reflexivity.
Qed.

Lemma text_after_a_number_is_ignored_witness :
  Str.parseFloat "12.34.56" = Str.parseFloat "12.34"
  /\ CalculatorEngine.getDisplayValue "12.34.56"
     = CalculatorEngine.getDisplayValue "12.34"
  /\ CalculatorEngine.isValidNumber "12.34.56"
     = CalculatorEngine.isValidNumber "12.34".
Proof.
  exact (text_after_a_number_is_ignored false "12" "34" ".56"
           eq_refl ltac:(discriminate) eq_refl ltac:(discriminate)
           eq_refl eq_refl).
Defined.

(** ** Undo on the screen brings back what was shown *)

Section UndoFacts.

Import CalculatorScreen.

Lemma strict_eq_cases x y :
  strict_eq x y = true ->
  x = y \/ exists a b, x = S754_zero a /\ y = S754_zero b.
Proof.
  unfold strict_eq, SFeqb, SFcompare.
  destruct x as [a | a | | a m e], y as [b | b | | b n f];
    try (destruct a; discriminate); try (destruct b; discriminate);
    try discriminate; intros H.
  - right. eauto.
  - left. destruct a, b; try discriminate H; reflexivity.
  - destruct a, b; try discriminate H.
    + destruct (Z.compare e f) eqn:E; try discriminate H.
      apply Z.compare_eq in E. subst f.
      change (PosDef.Pos.compare_cont Eq m n) with (Pos.compare m n) in H.
      destruct (Pos.compare m n) eqn:M; try discriminate H.
      apply Pos.compare_eq in M. subst n. left. reflexivity.
    + destruct (Z.compare e f) eqn:E; try discriminate H.
      apply Z.compare_eq in E. subst f.
      change (PosDef.Pos.compare_cont Eq m n) with (Pos.compare m n) in H.
      destruct (Pos.compare m n) eqn:M; try discriminate H.
      apply Pos.compare_eq in M. subst n. left. reflexivity.
Qed.

Lemma same_value_sym a b : same_value a b -> same_value b a.
Proof.
  destruct a as [x |], b as [y |]; cbn; try tauto.
  intros [E | E]; [left; congruence |].
  destruct (strict_eq_cases _ _ E) as [-> | (s & t & -> & ->)];
    [right; exact E | right; reflexivity].
Qed.

Lemma same_value_trans a b c :
  same_value a b -> same_value b c -> same_value a c.
Proof.
  destruct a as [x |], b as [y |], c as [z |]; cbn; try tauto.
  intros [E | E] [F | F]; subst; auto.
  destruct (strict_eq_cases _ _ E) as [-> | (s & t & -> & ->)]; [auto |].
  destruct (strict_eq_cases _ _ F) as [<- | (s' & t' & _ & ->)];
    right; reflexivity.
Qed.

Lemma same_tracked_refl a : same_tracked a a.
Proof.
  repeat split. destruct (previousValue a); cbn; auto.
Qed.

Lemma same_tracked_sym a b : same_tracked a b -> same_tracked b a.
Proof.
  intros (D & O & V). repeat split; auto using same_value_sym.
Qed.

Lemma same_tracked_trans a b c :
  same_tracked a b -> same_tracked b c -> same_tracked a c.
Proof.
  intros (D & O & V) (D' & O' & V').
  repeat split; try congruence. eapply same_value_trans; eassumption.
Qed.

(** The effect finds no change only between states with the same tracked
    fields. *)
Lemma stateChanged_same a b :
  stateChanged a b = false -> same_tracked a b.
Proof.
  unfold stateChanged. intros H.
  apply Bool.orb_false_iff in H. destruct H as [H V].
  apply Bool.orb_false_iff in H. destruct H as [D O].
  apply Bool.negb_false_iff, String.eqb_eq in D.
  split; [exact D |]. split.
  - destruct (operation a) as [x |], (operation b) as [y |];
      try discriminate O; [| reflexivity].
    destruct x, y; try discriminate O; reflexivity.
  - destruct (previousValue a) as [x |], (previousValue b) as [y |];
      try discriminate V; cbn; [| exact I].
    right. cbn in V. apply Bool.negb_false_iff in V. exact V.
Qed.

Lemma firstn_succ_nth_error {A : Type} (l : list A) : forall n a,
  nth_error l n = Some a -> firstn (S n) l = (firstn n l ++ [a])%list.
Proof.
  induction l as [| x l IH]; intros [| n] a H; try discriminate H.
  - injection H as ->. reflexivity.
  - cbn [firstn app nth_error] in *. f_equal. apply IH. exact H.
Qed.

(** A push keeps the entry that was current just below the new one. *)
Lemma push_keeps_current c q u :
  well_formed u ->
  useUndoRedo.at_index (useUndoRedo.stack u) (useUndoRedo.currentIndex u)
  = Some q ->
  exists pre,
    useUndoRedo.stack (useUndoRedo.push c u) = (pre ++ [q; c])%list
    /\ useUndoRedo.currentIndex (useUndoRedo.push c u)
       = Z.of_nat (List.length pre) + 1.
Proof.
  intros W A. pose proof (well_formed_capped _ W) as C.
  destruct (push_from_capped c u C) as (S & I & Z).
  destruct W as [[B0 B1] B2]. unfold size in *.
  unfold useUndoRedo.at_index in A.
  destruct (useUndoRedo.currentIndex u <? 0) eqn:N;
    [apply Z.ltb_lt in N; lia |].
  replace (Z.to_nat (useUndoRedo.currentIndex u + 1))
    with (Datatypes.S (Z.to_nat (useUndoRedo.currentIndex u))) in S by lia.
  rewrite (firstn_succ_nth_error _ _ _ A) in S.
  set (kept := firstn (Z.to_nat (useUndoRedo.currentIndex u))
                 (useUndoRedo.stack u)) in *.
  assert (L : Z.of_nat (List.length kept) = useUndoRedo.currentIndex u).
  { subst kept. rewrite length_firstn. lia. }
  destruct (UNDO_REDO_STACK_SIZE <? useUndoRedo.currentIndex u + 2) eqn:E.
  - apply Z.ltb_lt in E.
    destruct kept as [| x kept'] eqn:K.
    + cbn [List.length] in L. unfold UNDO_REDO_STACK_SIZE in E. lia.
    + exists kept'. split.
      * rewrite S. cbn [app tl]. rewrite <- app_assoc. reflexivity.
      * rewrite I, Z. cbn [List.length] in L.
        unfold UNDO_REDO_STACK_SIZE in *. lia.
  - apply Z.ltb_ge in E. exists kept. split.
    + rewrite S, <- app_assoc. reflexivity.
    + rewrite I, Z. lia.
Qed.

(** One run of the tracking effect: the history tracks the session
    afterwards when the current entry agreed with the recorded state or is
    the session state itself. *)
Lemma trackEffect_tracks x p q :
  well_formed (useUndoRedo.undoRedo (undoRedo x)) ->
  prevStateRef x = Some p ->
  useUndoRedo.at_index
    (useUndoRedo.stack (useUndoRedo.undoRedo (undoRedo x)))
    (useUndoRedo.currentIndex (useUndoRedo.undoRedo (undoRedo x)))
  = Some q ->
  same_tracked q p \/ (q = calculatorState x /\ error q = false) ->
  history_tracks (trackEffect x).
Proof.
  intros W P A H. unfold trackEffect. rewrite P.
  destruct (stateChanged p (calculatorState x)
            && negb (error (calculatorState x)))%bool eqn:C.
  - exists (calculatorState x), (calculatorState x).
    cbn [prevStateRef calculatorState undoRedo useUndoRedo.pushState
         useUndoRedo.undoRedo].
    split; [reflexivity |]. split.
    + destruct (push_appends (calculatorState x) _ W) as (pre & S & I & _).
      rewrite S, I. apply at_index_middle.
    + split; [apply same_tracked_refl | intros _; apply same_tracked_refl].
  - assert (T : error (calculatorState x) = false ->
                same_tracked p (calculatorState x)).
    { intros E. rewrite E, Bool.andb_true_r in C.
      apply stateChanged_same, C. }
    exists p, q. split; [exact P |]. split; [exact A |]. split; [| exact T].
    destruct H as [H | [-> E]]; [exact H |].
    apply same_tracked_sym, T, E.
Qed.

Lemma mounted_tracks : history_tracks mounted.
Proof.
  exists INITIAL_CALCULATOR_STATE, INITIAL_CALCULATOR_STATE.
  split; [reflexivity |]. split; [reflexivity |].
  split; [apply same_tracked_refl | intros _; apply same_tracked_refl].
Qed.

Lemma dispatch_tracks mode ev s s' :
  screen_ok s -> history_tracks s -> dispatch mode ev s = normal s' ->
  history_tracks s'.
Proof.
  intros [W F] (p & q & P & A & T & _) D. unfold dispatch in D.
  assert (K : forall c, history_tracks (trackEffect (setCalculatorState c s))).
  { intros c. apply (trackEffect_tracks _ p q); auto. }
  destruct ev as [i | | | d e].
  - injection D as <-. apply K.
  - unfold handleUndo in D.
    destruct (useUndoRedo.canUndo (undoRedo s)) eqn:C.
    + destruct (undo_steps _ (proj1 W) C) as (r & fb & R & U).
      rewrite U in D. cbn [stepHistory] in D. injection D as <-.
      apply (trackEffect_tracks _ p r);
        cbn [prevStateRef calculatorState undoRedo useUndoRedo.undoRedo
             useUndoRedo.stack useUndoRedo.currentIndex]; auto.
      * unfold useUndoRedo.canUndo in C. apply Z.ltb_lt in C.
        unfold well_formed, in_bounds, size in *.
        cbn [useUndoRedo.stack useUndoRedo.currentIndex]. lia.
      * right. split; [reflexivity |].
        exact (at_index_Forall _ _ _ _ F R).
    + injection D as <-. apply (trackEffect_tracks _ p q); auto.
  - unfold handleRedo in D.
    destruct (useUndoRedo.canRedo (undoRedo s)) eqn:C.
    + destruct (redo_steps _ (proj1 W) C) as (r & fb & R & U).
      rewrite U in D. cbn [stepHistory] in D. injection D as <-.
      apply (trackEffect_tracks _ p r);
        cbn [prevStateRef calculatorState undoRedo useUndoRedo.undoRedo
             useUndoRedo.stack useUndoRedo.currentIndex]; auto.
      * unfold useUndoRedo.canRedo in C. apply Z.ltb_lt in C.
        unfold well_formed, in_bounds, size in *.
        cbn [useUndoRedo.stack useUndoRedo.currentIndex]. lia.
      * right. split; [reflexivity |].
        exact (at_index_Forall _ _ _ _ F R).
    + injection D as <-. apply (trackEffect_tracks _ p q); auto.
  - injection D as <-. apply K.
Qed.

Lemma reachableScreen_tracks s : reachableScreen s -> history_tracks s.
Proof.
  induction 1 as [| mode ev s s' R IH D].
  - exact mounted_tracks.
  - exact (dispatch_tracks mode ev s s' (reachableScreen_ok s R) IH D).
Qed.

(** A new session state with another display is pushed, and the undo that
    follows hands back the entry that was current. *)
Lemma undo_after_change mode c1 s :
  screen_ok s -> history_tracks s ->
  error (calculatorState s) = false ->
  error c1 = false ->
  display c1 <> display (calculatorState s) ->
  exists s2,
    dispatch mode Undo (trackEffect (setCalculatorState c1 s)) = normal s2
    /\ same_tracked (calculatorState s2) (calculatorState s).
Proof.
  intros [W F] (p & q & P & A & T & Tc) E E1 D.
  specialize (Tc E).
  assert (SC : stateChanged p c1 = true).
  { unfold stateChanged. destruct Tc as (Dp & _). rewrite Dp.
    destruct (String.eqb (display (calculatorState s)) (display c1)) eqn:Q;
      [| reflexivity].
    apply String.eqb_eq in Q. congruence. }
  unfold trackEffect.
  cbn [setCalculatorState prevStateRef calculatorState undoRedo].
  rewrite P, SC, E1. cbn [negb andb].
  destruct (push_keeps_current c1 q _ W A) as (pre & S & I).
  unfold dispatch, handleUndo, useUndoRedo.canUndo, useUndoRedo.undo.
  cbn [undoRedo useUndoRedo.pushState useUndoRedo.undoRedo].
  rewrite I, S.
  replace (0 <? Z.of_nat (List.length pre) + 1) with true
    by (symmetry; apply Z.ltb_lt; lia).
  replace (Z.of_nat (List.length pre) + 1 <=? 0) with false
    by (symmetry; apply Z.leb_gt; lia).
  replace (Z.of_nat (List.length pre) + 1 - 1)
    with (Z.of_nat (List.length pre)) by lia.
  rewrite at_index_middle. cbn [stepHistory].
  eexists. split; [reflexivity |].
  rewrite trackEffect_calculatorState. cbn [calculatorState].
  exact (same_tracked_trans _ _ _ T Tc).
Qed.

(** A state whose previous value is not NaN does not differ from
    itself. *)
Lemma stateChanged_self c :
  (forall v, previousValue c = Some v -> isNaN v = false) ->
  stateChanged c c = false.
Proof.
  intros N. unfold stateChanged. rewrite String.eqb_refl. cbn [negb orb].
  assert (O : operation_neq (operation c) (operation c) = false).
  { destruct (operation c) as [[| | |] |]; reflexivity. }
  rewrite O. cbn [orb].
  destruct (previousValue c) as [v |] eqn:V; [| reflexivity].
  cbn [value_neq]. rewrite (strict_eq_refl v (N v eq_refl)). reflexivity.
Qed.

(** Between two events the tracking effect has nothing left to record,
    unless the previous value of the session is NaN. *)
Lemma reachableScreen_settled s :
  reachableScreen s ->
  (forall v, previousValue (calculatorState s) = Some v -> isNaN v = false) ->
  trackEffect s = s.
Proof.
  assert (T : forall x,
             (forall v, previousValue (calculatorState x) = Some v ->
                        isNaN v = false) ->
             trackEffect (trackEffect x) = trackEffect x).
  { intros x N.
    assert (K : forall u,
               trackEffect {| calculatorState := calculatorState x;
                              undoRedo := u;
                              prevStateRef := Some (calculatorState x) |}
               = {| calculatorState := calculatorState x;
                    undoRedo := u;
                    prevStateRef := Some (calculatorState x) |}).
    { intros u. unfold trackEffect. cbn [prevStateRef calculatorState].
      rewrite (stateChanged_self _ N). reflexivity. }
    destruct (prevStateRef x) as [p |] eqn:P.
    - destruct (stateChanged p (calculatorState x)
                && negb (error (calculatorState x)))%bool eqn:C.
      + assert (E : trackEffect x
                    = {| calculatorState := calculatorState x;
                         undoRedo :=
                           useUndoRedo.pushState (calculatorState x)
                             (undoRedo x);
                         prevStateRef := Some (calculatorState x) |})
          by (unfold trackEffect; rewrite P, C; reflexivity).
        rewrite E. apply K.
      + assert (E : trackEffect x = x)
          by (unfold trackEffect; rewrite P, C; reflexivity).
        rewrite E. exact E.
    - assert (E : trackEffect x
                  = {| calculatorState := calculatorState x;
                       undoRedo := undoRedo x;
                       prevStateRef := Some (calculatorState x) |})
        by (unfold trackEffect; rewrite P; reflexivity).
      rewrite E. apply K. }
  intros R N. destruct R as [| mode ev s s' R D].
  - unfold mounted in *. apply T.
    rewrite trackEffect_calculatorState in N. exact N.
  - unfold dispatch in D.
    destruct (match ev with
              | Press i =>
                  normal (setCalculatorState (handle mode i (calculatorState s)) s)
              | Undo => handleUndo s
              | Redo => handleRedo s
              | SelectHistory d e =>
                  normal (setCalculatorState (handleHistoryItemSelect d e) s)
              end) as [x |]; [| discriminate].
    injection D as <-. apply T.
    rewrite trackEffect_calculatorState in N. exact N.
Qed.

End UndoFacts.

(** X18.  Undo brings back what was shown before the last change.  On a
    screen reached from the mounted one that shows no error, let an input
    or the choice of a history item change the display without leaving an
    error.  Then the undo that follows does not fault, and the session
    state it restores has the display, the operation and the previous
    value (up to [===]) that the session had before the change. *)
Theorem undo_restores_display_before_change :
  forall (mode mode' : CalculatorMode) (ev : CalculatorScreen.Event)
         (s s1 : CalculatorScreen.Screen),
    CalculatorScreen.reachableScreen s ->
    ev <> CalculatorScreen.Undo -> ev <> CalculatorScreen.Redo ->
    s.(CalculatorScreen.calculatorState).(error) = false ->
    CalculatorScreen.dispatch mode ev s = normal s1 ->
    s1.(CalculatorScreen.calculatorState).(error) = false ->
    s1.(CalculatorScreen.calculatorState).(display)
    <> s.(CalculatorScreen.calculatorState).(display) ->
    exists s2,
      CalculatorScreen.dispatch mode' CalculatorScreen.Undo s1 = normal s2
      /\ same_tracked s2.(CalculatorScreen.calculatorState)
                      s.(CalculatorScreen.calculatorState).
Proof.
  intros mode mode' ev s s1 R NU NR E D E1 N.
  pose proof (reachableScreen_ok s R) as OK.
  pose proof (reachableScreen_tracks s R) as T.
  assert (X : exists c1,
             s1 = CalculatorScreen.trackEffect
                    (CalculatorScreen.setCalculatorState c1 s)).
  { unfold CalculatorScreen.dispatch in D.
    destruct ev as [i | | | d e]; try congruence;
      injection D as <-; eexists; reflexivity. }
  destruct X as (c1 & ->).
  rewrite trackEffect_calculatorState in E1, N.
  cbn [CalculatorScreen.setCalculatorState CalculatorScreen.calculatorState]
    in E1, N.
  exact (undo_after_change mode' c1 s OK T E E1 N).
Qed.

Lemma undo_restores_display_before_change_witness :
  exists s2,
    CalculatorScreen.dispatch checkbook CalculatorScreen.Undo typed_five
    = normal s2
    /\ same_tracked s2.(CalculatorScreen.calculatorState)
                    CalculatorScreen.mounted.(CalculatorScreen.calculatorState).
Proof.
  apply (undo_restores_display_before_change checkbook checkbook
           (CalculatorScreen.Press (CalculatorScreen.Digit "5"))
           CalculatorScreen.mounted typed_five).
  - exact CalculatorScreen.screen_mounted.
  - discriminate.
  - discriminate.
  - reflexivity.
  - vm_compute. reflexivity.
  - vm_compute. reflexivity.
  - vm_compute. discriminate.
Defined.

(** ** Laws of the engine and of backspace *)

Section EngineLaws.

Lemma number_add_comm x y : add x y = add y x.
Proof.
  unfold add, SFadd.
  destruct x as [a | a | | a m e], y as [b | b | | b n f];
    try reflexivity.
  - destruct a, b; reflexivity.
  - destruct a, b; reflexivity.
  - cbv zeta. rewrite (Z.min_comm e f). rewrite Z.add_comm. reflexivity.
Qed.

Lemma number_mul_comm x y : mul x y = mul y x.
Proof.
  unfold mul, SFmul.
  destruct x as [a | a | | a m e], y as [b | b | | b n f];
    try reflexivity; try (destruct a, b; reflexivity).
  rewrite (Bool.xorb_comm a b), (Pos.mul_comm m n), (Z.add_comm e f).
  reflexivity.
Qed.

Lemma drop_first_char_shorter r :
  r <> [] ->
  (List.length (Str.drop_first_char r) < List.length r)%nat.
Proof.
  induction r as [| c r IH]; [congruence |]. intros _.
  cbn [Str.drop_first_char List.length].
  destruct (Str.is_continuation c); [| lia].
  destruct r as [| c' r']; [cbn; lia |].
  assert (c' :: r' <> []) as N by discriminate.
  specialize (IH N). lia.
Qed.

Lemma length_list_ascii s :
  List.length (list_ascii_of_string s) = String.length s.
Proof. induction s as [| c s IH]; cbn; congruence. Qed.

Lemma length_string_of_list l :
  String.length (string_of_list_ascii l) = List.length l.
Proof. induction l as [| c l IH]; cbn; congruence. Qed.

(** Dropping the last character shortens a text that is not empty. *)
Lemma slice_0_m1_shorter s :
  s <> ""%string ->
  (String.length (Str.slice_0_m1 s) < String.length s)%nat.
Proof.
  intros N. unfold Str.slice_0_m1.
  rewrite length_string_of_list, length_rev, <- length_list_ascii.
  rewrite <- (length_rev (list_ascii_of_string s)).
  apply drop_first_char_shorter.
  intros E. apply (f_equal (@List.length ascii)) in E.
  rewrite length_rev, length_list_ascii in E.
  destruct s; [congruence | discriminate E].
Qed.

Lemma slice_0_m1_short s :
  (String.length s <= 1)%nat -> Str.slice_0_m1 s = ""%string.
Proof.
  destruct s as [| c [| c' s']]; cbn [String.length]; intros L;
    [reflexivity | | lia].
  unfold Str.slice_0_m1. cbn [list_ascii_of_string rev app].
  cbn [Str.drop_first_char]. destruct (Str.is_continuation c); reflexivity.
Qed.

(** One backspace on a state that takes it. *)
Lemma handleBackspace_step c :
  error c = false -> waitingForOperand c = false ->
  Session.handleBackspace c
  = Session.set_display
      (if String.eqb (Str.slice_0_m1 (display c)) ""
       then "0"%string else Str.slice_0_m1 (display c)) c.
Proof.
  intros E W. unfold Session.handleBackspace. rewrite E, W. reflexivity.
Qed.

Lemma handleBackspace_zero n : forall c,
  error c = false -> waitingForOperand c = false ->
  Nat.iter n Session.handleBackspace (Session.set_display "0" c)
  = Session.set_display "0" c.
Proof.
  induction n as [| n IH]; intros c E W; [reflexivity |].
  rewrite Nat.iter_succ_r.
  replace (Session.handleBackspace (Session.set_display "0" c))
    with (Session.set_display "0" c); [exact (IH c E W) |].
  rewrite handleBackspace_step by assumption. reflexivity.
Qed.

Lemma handleBackspace_repeated n : forall c,
  error c = false -> waitingForOperand c = false ->
  (String.length (display c) <= n)%nat -> (1 <= n)%nat ->
  Nat.iter n Session.handleBackspace c = Session.set_display "0" c.
Proof.
  induction n as [| n IH]; intros c E W L P; [lia |].
  rewrite Nat.iter_succ_r, (handleBackspace_step c E W).
  destruct (Nat.le_gt_cases (String.length (display c)) 1) as [S | S].
  - rewrite (slice_0_m1_short _ S). cbn [String.eqb].
    apply handleBackspace_zero; assumption.
  - assert (N : display c <> ""%string).
    { intros Z. rewrite Z in S. cbn in S. lia. }
    pose proof (slice_0_m1_shorter _ N) as K.
    set (d := if String.eqb (Str.slice_0_m1 (display c)) ""
              then "0"%string else Str.slice_0_m1 (display c)).
    assert (Ld : (String.length d <= n)%nat).
    { subst d. destruct (String.eqb _ _); [cbn; lia | lia]. }
    assert (Pn : (1 <= n)%nat) by lia.
    rewrite (IH (Session.set_display d c) E W Ld Pn). reflexivity.
Qed.

End EngineLaws.

(** X19.  Addition and multiplication do not depend on the order of the
    operands: for all numbers and both modes, [calculate] gives the same
    outcome (result, error flag and message) for [a + b] and [b + a], and
    for [a × b] and [b × a]. *)
Theorem calculate_commutes :
  (forall a b mode,
      CalculatorEngine.calculate a (Some Plus) b mode
      = CalculatorEngine.calculate b (Some Plus) a mode)
  /\ (forall a b mode,
         CalculatorEngine.calculate a (Some Times) b mode
         = CalculatorEngine.calculate b (Some Times) a mode).
Proof.
  split; intros a b mode;
    unfold CalculatorEngine.calculate, CalculatorEngine.try_body,
      CalculatorEngine.dispatch.
  - rewrite (number_add_comm a b). reflexivity.
  - rewrite (number_mul_comm a b). reflexivity.
Qed.

(** X20.  Backspace ends at ["0"].  In a state without an error that is
    not waiting for an operand, backspace pressed at least once and at
    least as often as the display has bytes leaves the display ["0"],
    never an empty one, and changes no other field. *)
Theorem handleBackspace_ends_at_zero :
  forall (n : nat) (prev : CalculatorState),
    prev.(error) = false ->
    prev.(waitingForOperand) = false ->
    (String.length prev.(display) <= n)%nat ->
    (1 <= n)%nat ->
    Nat.iter n Session.handleBackspace prev
    = Session.set_display "0" prev.
Proof.
  intros n prev E W L P. exact (handleBackspace_repeated n prev E W L P).
Qed.

Lemma handleBackspace_ends_at_zero_witness :
  Nat.iter 2 Session.handleBackspace twelve
  = Session.set_display "0" twelve.
Proof.
  apply (handleBackspace_ends_at_zero 2 twelve).
  - reflexivity.
  - reflexivity.
  - cbn. lia.
  - lia.
Defined.
